(** * Event ingestion and token aggregation of the V4 chart API

    A shallow embedding of [swap-events.service.ts] and
    [aggregation.service.ts]: the Mongo collections are finite maps keyed by
    their unique index, the services are functions in a state-and-exception
    monad over those collections, and JavaScript numbers are IEEE-754
    binary64 values. *)

From Stdlib Require Import ZArith Lia String Ascii List Floats DecimalString.
From stdpp Require Import gmap strings.

Open Scope Z_scope.

(** ** JavaScript runtime values

    The part of the ECMAScript runtime the two services rely on:
    [Number] arithmetic, [Number(bigint)], [Math.pow/max/min],
    [Number.prototype.toString], [Number.prototype.toFixed] and
    [parseFloat]. *)
Module JS.

Definition number := float.

Definition isNaN (x : number) : bool := negb (x =? x)%float.

(** Truthiness of a number: [0], [-0] and [NaN] are falsy. *)
Definition truthy (x : number) : bool := negb (isNaN x || (x =? 0)%float).

(** [x || y] on numbers. *)
Definition or_else (x y : number) : number := if truthy x then x else y.

(** The binary64 value nearest to the rational [n / d] (ties to even),
    with the sign [neg]; [n >= 0], [d > 0]. *)
Definition number_of_ratio (neg : bool) (n d : Z) : number :=
  match n, d with
  | Zpos pn, Zpos pd =>
      SF2Prim (SFdiv prec emax (S754_finite neg pn 0) (S754_finite false pd 0))
  | _, _ => if neg then neg_zero else zero
  end.

(** The binary64 value nearest to [n * 10^e]. *)
Definition number_of_decimal (neg : bool) (n e : Z) : number :=
  if 0 <=? e then number_of_ratio neg (n * 10 ^ e) 1
  else number_of_ratio neg n (10 ^ (- e)).

(** [Number(b)] for a BigInt [b]. *)
Definition Number_of_BigInt (b : Z) : number :=
  number_of_ratio (b <? 0) (Z.abs b) 1.

(** [Math.pow(10, d)] for an integral [d], taken as the correctly rounded
    power (exact for [0 <= d <= 22]). *)
Definition pow10 (d : Z) : number := number_of_decimal false 1 d.

Definition Math_max (a b : number) : number :=
  if isNaN a || isNaN b then nan
  else if (a <? b)%float then b
  else if (b <? a)%float then a
  else if get_sign a then b else a.

Definition Math_min (a b : number) : number :=
  if isNaN a || isNaN b then nan
  else if (a <? b)%float then a
  else if (b <? a)%float then b
  else if get_sign a then a else b.

(** *** Decimal digits *)

Definition digits_of_Z (n : Z) : string :=
  NilZero.string_of_uint (N.to_uint (Z.to_N n)).

Fixpoint zeros (n : nat) : string :=
  match n with
  | O => EmptyString
  | S n' => String "0" (zeros n')
  end.

Definition digit_val (c : ascii) : option Z :=
  let n := Z.of_nat (nat_of_ascii c) in
  if (48 <=? n) && (n <=? 57) then Some (n - 48) else None.

(** Longest prefix of decimal digits: its value, its length, the rest. *)
Fixpoint take_digits (s : string) (acc cnt : Z) : Z * Z * string :=
  match s with
  | EmptyString => (acc, cnt, s)
  | String c s' =>
      match digit_val c with
      | Some d => take_digits s' (10 * acc + d) (cnt + 1)
      | None => (acc, cnt, s)
      end
  end.

(** *** [Number.prototype.toString]: the shortest decimal that reads back *)

(** [10^n <= m * 2^e], on exact integers. *)
Definition pow10_le (n m e : Z) : bool :=
  (if 0 <=? n then 10 ^ n else 1) * (if e <? 0 then 2 ^ (- e) else 1)
  <=? m * (if 0 <=? e then 2 ^ e else 1) * (if n <? 0 then 10 ^ (- n) else 1).

Fixpoint decade_from (fuel : nat) (n m e : Z) : Z :=
  match fuel with
  | O => n
  | S f => if pow10_le n m e then decade_from f (n + 1) m e else n
  end.

(** The [n] with [10^(n-1) <= m * 2^e < 10^n]. *)
Definition decade (m e : Z) : Z :=
  decade_from 6 ((Z.log2 m + e) * 30103 / 100000 - 1) m e.

Definition candidate_ok (x : number) (k n s : Z) : bool :=
  (10 ^ (k - 1) <=? s) && (s <? 10 ^ k)
  && (number_of_decimal false s (n - k) =? x)%float.

(** The [k]-digit integer [s] nearest to [m * 2^e / 10^(n-k)] with
    [s * 10^(n-k)] reading back as [x], if there is one. *)
Definition try_digits (x : number) (m e k n : Z) : option Z :=
  let num := m * (if 0 <=? e then 2 ^ e else 1)
               * (if n <? k then 10 ^ (k - n) else 1) in
  let den := (if e <? 0 then 2 ^ (- e) else 1)
               * (if k <=? n then 10 ^ (n - k) else 1) in
  let lo := num / den in
  let hi := lo + 1 in
  match candidate_ok x k n lo, candidate_ok x k n hi with
  | true, true =>
      let dlo := num - lo * den in
      let dhi := hi * den - num in
      Some (if dlo <? dhi then lo
            else if dhi <? dlo then hi
            else if Z.even lo then lo else hi)
  | true, false => Some lo
  | false, true => Some hi
  | false, false => None
  end.

Fixpoint shortest_from (fuel : nat) (x : number) (m e k n0 : Z) : Z * Z * Z :=
  match fuel with
  | O => (m * (if 0 <=? e then 2 ^ e else 1), k, n0)
  | S f =>
      match try_digits x m e k n0 with
      | Some s => (s, k, n0)
      | None =>
          match try_digits x m e k (n0 + 1) with
          | Some s => (s, k, n0 + 1)
          | None => shortest_from f x m e (k + 1) n0
          end
      end
  end.

(** [(s, k, n)] of the specification of [Number::toString]. *)
Definition shortest (x : number) (m e : Z) : Z * Z * Z :=
  shortest_from 17 x m e 1 (decade m e).

Definition format_shortest (s k n : Z) : string :=
  let ds := digits_of_Z s in
  if (k <=? n) && (n <=? 21) then ds +:+ zeros (Z.to_nat (n - k))
  else if (0 <? n) && (n <=? 21) then
    substring 0 (Z.to_nat n) ds +:+ "." +:+
    substring (Z.to_nat n) (Z.to_nat (k - n)) ds
  else if (-6 <? n) && (n <=? 0) then
    "0." +:+ zeros (Z.to_nat (- n)) +:+ ds
  else
    let ex := (if 0 <=? n - 1 then "e+" else "e-") +:+ digits_of_Z (Z.abs (n - 1)) in
    if k =? 1 then ds +:+ ex
    else substring 0 1 ds +:+ "." +:+ substring 1 (Z.to_nat (k - 1)) ds +:+ ex.

Definition toString (x : number) : string :=
  match Prim2SF x with
  | S754_nan => "NaN"
  | S754_zero _ => "0"
  | S754_infinity s => if s then "-Infinity" else "Infinity"
  | S754_finite sg m e =>
      let '(s, k, n) := shortest (abs x) (Zpos m) e in
      (if sg then "-" else EmptyString) +:+ format_shortest s k n
  end.

(** *** [Number.prototype.toFixed] *)

Definition toFixed (f : Z) (x : number) : string :=
  match Prim2SF x with
  | S754_nan => "NaN"
  | S754_infinity s => if s then "-Infinity" else "Infinity"
  | S754_zero _ =>
      if f =? 0 then "0" else "0." +:+ zeros (Z.to_nat f)
  | S754_finite sg m e =>
      if (number_of_decimal false 1 21 <=? abs x)%float then toString x
      else
        let n := if 0 <=? e then Zpos m * 2 ^ e * 10 ^ f
                 else (2 * Zpos m * 10 ^ f + 2 ^ (- e)) / (2 * 2 ^ (- e)) in
        let ds := digits_of_Z n in
        let k := Z.of_nat (String.length ds) in
        let ds := if k <=? f then zeros (Z.to_nat (f + 1 - k)) +:+ ds else ds in
        let k := Z.of_nat (String.length ds) in
        (if sg then "-" else EmptyString) +:+
        (if f =? 0 then ds
         else substring 0 (Z.to_nat (k - f)) ds +:+ "." +:+
              substring (Z.to_nat (k - f)) (Z.to_nat f) ds)
  end.

(** *** [parseFloat] *)

Definition is_space (c : ascii) : bool :=
  let n := nat_of_ascii c in
  (n =? 32)%nat || (n =? 9)%nat || (n =? 10)%nat || (n =? 11)%nat
  || (n =? 12)%nat || (n =? 13)%nat.

Fixpoint skip_space (s : string) : string :=
  match s with
  | String c s' => if is_space c then skip_space s' else s
  | EmptyString => s
  end.

(** The optional exponent part [e[+-]digits]; [0] when it is absent or
    malformed. *)
Definition parse_exponent (s : string) : Z :=
  match s with
  | String c s' =>
      if (c =? "e")%char || (c =? "E")%char then
        let '(neg, s'') :=
          match s' with
          | String "-" t => (true, t)
          | String "+" t => (false, t)
          | _ => (false, s')
          end in
        let '(v, cnt, _) := take_digits s'' 0 0 in
        if cnt =? 0 then 0 else if neg then - v else v
      else 0
  | EmptyString => 0
  end.

Definition parseFloat (s : string) : number :=
  let s := skip_space s in
  let '(neg, s) :=
    match s with
    | String "-" t => (true, t)
    | String "+" t => (false, t)
    | _ => (false, s)
    end in
  if String.prefix "Infinity" s then (if neg then neg_infinity else infinity)
  else
    let '(ip, icnt, s1) := take_digits s 0 0 in
    let '(fp, fcnt, s2) :=
      match s1 with
      | String "." t => take_digits t ip 0
      | _ => (ip, 0, s1)
      end in
    if (icnt =? 0) && (fcnt =? 0) then nan
    else number_of_decimal neg fp (parse_exponent s2 - fcnt).

End JS.

(** ** Documents of the collections

    One module per Mongoose schema. A field holding the decimal string of
    a BigInt is an integer; a field holding a formatted JavaScript number
    stays a string, as the services parse and print it on every update.
    Identifiers (addresses, pool ids, hashes) are taken in the canonical
    lower case the schema setters store. Dates are milliseconds since the
    epoch. *)

Module Pool.
Record t := mk {
  poolId : string;
  currency0 : string;
  currency1 : string;
  fee : Z;
  tickSpacing : Z;
  hooks : string;
  sqrtPriceX96 : Z;
  tick : Z;
  blockNumber : Z;
  blockTimestamp : Z;
  transactionHash : string;
  token0Price : string;
  token1Price : string;
  liquidity : Z;
  totalValueLockedToken0 : Z;
  totalValueLockedToken1 : Z
}.
End Pool.

Module SwapEvent.
Record t := mk {
  poolAddress : string;
  token0Address : string;
  token1Address : string;
  transactionHash : string;
  blockNumber : Z;
  blockTimestamp : Z;
  sender : string;
  recipient : string;
  amount0 : Z;
  amount1 : Z;
  sqrtPriceX96 : Z;
  liquidity : Z;
  tick : Z;
  logIndex : Z;
  fee : Z;
  amountUSD : string
}.

(** The unique index [{ transactionHash: 1, logIndex: 1 }]. *)
Definition key (e : t) : string * Z := (transactionHash e, logIndex e).
End SwapEvent.

Module SyncState.
Record t := mk {
  poolManagerAddress : string;
  lastSyncedBlock : Z;
  currentBlock : Z;
  isInitialSyncComplete : bool;
  lastSyncedAt : option Z
}.
End SyncState.

Module Token.
Record t := mk {
  address : string;
  symbol : string;
  name : string;
  decimals : Z;
  volume : Z;
  volumeUSD : string;
  untrackedVolumeUSD : string;
  feesUSD : string;
  totalValueLocked : string;
  totalValueLockedUSD : string;
  derivedBTC : string;
  txCount : Z;
  whitelistPools : list string
}.
End Token.

Inductive TimeInterval := MINUTE | HOUR | DAY.

Inductive RecordStatus := CURRENT | FINALIZED.

Definition RecordStatus_eqb (a b : RecordStatus) : bool :=
  match a, b with
  | CURRENT, CURRENT | FINALIZED, FINALIZED => true
  | _, _ => false
  end.

(** [TokenMinute], [TokenHour] and [TokenDay] share one shape. *)
Module Candle.
Record t := mk {
  tokenAddress : string;
  date : Z;
  status : RecordStatus;
  volume : Z;
  volumeUSD : string;
  untrackedVolumeUSD : string;
  totalValueLocked : Z;
  totalValueLockedUSD : string;
  priceUSD : string;
  feesUSD : string;
  open : string;
  high : string;
  low : string;
  close : string;
  txCount : Z
}.

(** The unique index [{ tokenAddress: 1, date: 1 }]. *)
Definition key (c : t) : string * Z := (tokenAddress c, date c).

Definition finalize (c : t) : t :=
  mk (tokenAddress c) (date c) FINALIZED (volume c) (volumeUSD c)
     (untrackedVolumeUSD c) (totalValueLocked c) (totalValueLockedUSD c)
     (priceUSD c) (feesUSD c) (open c) (high c) (low c) (close c) (txCount c).
End Candle.

(** ** The database: every collection as a map on its unique index *)

Record Store := mkStore {
  poolModel : gmap string Pool.t;
  swapEventModel : gmap (string * Z) SwapEvent.t;
  syncStateModel : gmap string SyncState.t;
  tokenModel : gmap string Token.t;
  tokenMinuteModel : gmap (string * Z) Candle.t;
  tokenHourModel : gmap (string * Z) Candle.t;
  tokenDayModel : gmap (string * Z) Candle.t
}.

Definition emptyStore : Store := mkStore ∅ ∅ ∅ ∅ ∅ ∅ ∅.

Definition set_poolModel (f : gmap string Pool.t -> gmap string Pool.t) (d : Store) : Store :=
  mkStore (f (poolModel d)) (swapEventModel d) (syncStateModel d) (tokenModel d)
          (tokenMinuteModel d) (tokenHourModel d) (tokenDayModel d).

Definition set_swapEventModel
    (f : gmap (string * Z) SwapEvent.t -> gmap (string * Z) SwapEvent.t) (d : Store) : Store :=
  mkStore (poolModel d) (f (swapEventModel d)) (syncStateModel d) (tokenModel d)
          (tokenMinuteModel d) (tokenHourModel d) (tokenDayModel d).

Definition set_syncStateModel
    (f : gmap string SyncState.t -> gmap string SyncState.t) (d : Store) : Store :=
  mkStore (poolModel d) (swapEventModel d) (f (syncStateModel d)) (tokenModel d)
          (tokenMinuteModel d) (tokenHourModel d) (tokenDayModel d).

Definition set_tokenModel (f : gmap string Token.t -> gmap string Token.t) (d : Store) : Store :=
  mkStore (poolModel d) (swapEventModel d) (syncStateModel d) (f (tokenModel d))
          (tokenMinuteModel d) (tokenHourModel d) (tokenDayModel d).

(** [getModelByInterval], as a getter and a setter. *)
Definition getModelByInterval (interval : TimeInterval) (d : Store) : gmap (string * Z) Candle.t :=
  match interval with
  | MINUTE => tokenMinuteModel d
  | HOUR => tokenHourModel d
  | DAY => tokenDayModel d
  end.

Definition set_candleModel (interval : TimeInterval)
    (f : gmap (string * Z) Candle.t -> gmap (string * Z) Candle.t) (d : Store) : Store :=
  match interval with
  | MINUTE =>
      mkStore (poolModel d) (swapEventModel d) (syncStateModel d) (tokenModel d)
              (f (tokenMinuteModel d)) (tokenHourModel d) (tokenDayModel d)
  | HOUR =>
      mkStore (poolModel d) (swapEventModel d) (syncStateModel d) (tokenModel d)
              (tokenMinuteModel d) (f (tokenHourModel d)) (tokenDayModel d)
  | DAY =>
      mkStore (poolModel d) (swapEventModel d) (syncStateModel d) (tokenModel d)
              (tokenMinuteModel d) (tokenHourModel d) (f (tokenDayModel d))
  end.

(** ** What the services see besides the database *)

Inductive Level := LOG | WARN | ERROR | DEBUG.

Inductive Emitted :=
  | swap_created (e : SwapEvent.t)
  | candle_finalized (interval : TimeInterval) (c : Candle.t).

(** Exceptions. A unique-index violation is the Mongo error whose [code]
    is 11000; everything else has no such code. *)
Inductive Exn :=
  | DuplicateKey
  | TypeError (msg : string)
  | OtherError (msg : string).

Definition code (e : Exn) : option Z :=
  match e with
  | DuplicateKey => Some 11000
  | _ => None
  end.

Definition is_duplicate (e : Exn) : bool :=
  match code e with
  | Some c => c =? 11000
  | None => false
  end.

(** The state of the running process: the database, the in-memory fields
    of [SwapEventsService], the wall clock read by [new Date()], and the
    output channels (logger, event emitter). *)
Record State := mkState {
  db : Store;
  tokenDecimalsCache : gmap string Z;
  isSyncing : bool;
  clock : Z;
  logged : list (Level * string);
  emitted : list Emitted
}.

Definition set_db (f : Store -> Store) (s : State) : State :=
  mkState (f (db s)) (tokenDecimalsCache s) (isSyncing s) (clock s) (logged s) (emitted s).

Definition set_cache (f : gmap string Z -> gmap string Z) (s : State) : State :=
  mkState (db s) (f (tokenDecimalsCache s)) (isSyncing s) (clock s) (logged s) (emitted s).

Definition set_isSyncing (b : bool) (s : State) : State :=
  mkState (db s) (tokenDecimalsCache s) b (clock s) (logged s) (emitted s).

Definition add_log (l : Level) (msg : string) (s : State) : State :=
  mkState (db s) (tokenDecimalsCache s) (isSyncing s) (clock s)
          (logged s ++ [(l, msg)]) (emitted s).

Definition add_emitted (e : Emitted) (s : State) : State :=
  mkState (db s) (tokenDecimalsCache s) (isSyncing s) (clock s)
          (logged s) (emitted s ++ [e]).

(** ** The monad of the services: state that survives a thrown exception *)

Inductive Outcome (A : Type) :=
  | Return (a : A)
  | Throw (e : Exn).
Arguments Return {A} a.
Arguments Throw {A} e.

Definition M (A : Type) : Type := State -> State * Outcome A.

Definition ret {A} (a : A) : M A := fun s => (s, Return a).

Definition throw {A} (e : Exn) : M A := fun s => (s, Throw e).

Definition bind {A B} (m : M A) (k : A -> M B) : M B :=
  fun s =>
    match m s with
    | (s', Return a) => k a s'
    | (s', Throw e) => (s', Throw e)
    end.

(** [try { m } catch (error) { h error }] *)
Definition try_catch {A} (m : M A) (h : Exn -> M A) : M A :=
  fun s =>
    match m s with
    | (s', Throw e) => h e s'
    | r => r
    end.

Definition get : M State := fun s => (s, Return s).

Definition modify (f : State -> State) : M unit := fun s => (f s, Return tt).

Notation "x <- c1 ;; c2" := (bind c1 (fun x => c2))
  (at level 100, c1 at next level, right associativity).
Notation "c1 ;; c2" := (bind c1 (fun _ => c2))
  (at level 100, right associativity).

Definition logger (l : Level) (msg : string) : M unit := modify (add_log l msg).

Definition emit (e : Emitted) : M unit := modify (add_emitted e).

Definition update_db (f : Store -> Store) : M unit := modify (set_db f).

(** [for (const x of xs) { body x }] *)
Fixpoint for_each {A} (xs : list A) (body : A -> M unit) : M unit :=
  match xs with
  | [] => ret tt
  | x :: rest => body x ;; for_each rest body
  end.

(** [await Promise.all([m1, m2, m3])]: the three are started and all run to
    completion; the await throws when one of them rejected. *)
Definition settle {A} (m : M A) : M (Outcome A) :=
  fun s => let '(s', r) := m s in (s', Return r).

Definition resume {A} (r : Outcome A) : M A := fun s => (s, r).

Definition Promise_all3 (m1 m2 m3 : M unit) : M unit :=
  r1 <- settle m1 ;;
  r2 <- settle m2 ;;
  r3 <- settle m3 ;;
  resume r1 ;; resume r2 ;; resume r3.

(** ** The environment: configuration, chain provider, liquidity math *)

(** A log of the pool manager, decoded by [contract.interface.parseLog]. *)
Inductive ParsedLog :=
  | Initialize (id currency0 currency1 : string) (fee tickSpacing : Z)
               (hooks : string) (sqrtPriceX96 tick : Z)
  | Swap (poolId sender : string)
         (amount0 amount1 sqrtPriceX96 liquidity tick fee : Z)
  | ModifyLiquidity (id sender : string)
                    (tickLower tickUpper liquidityDelta : Z) (salt : string).

Module Log.
Record t := mk {
  blockNumber : Z;
  index : Z;
  transactionHash : string;
  (** [None] when [parseLog] returns [null]. *)
  parsed : option ParsedLog
}.
End Log.

Record Env := mkEnv {
  (** [ConfigService] *)
  uniswapV4PoolManagerAddress : string;
  startingBlock : Z;
  syncBatchSize : Z;
  stablecoinWrappedNativePoolId : string;
  stablecoinIsToken0 : bool;
  wrappedNativeAddress : string;
  whitelistTokens : list string;
  stablecoinAddresses : list string;
  (** The chain provider: head block, block timestamps in seconds ([None]
      for a block the node does not return), logs of a block range, ERC-20
      metadata ([None] when the call reverts). *)
  getBlockNumber : Z;
  getBlock : Z -> option Z;
  getLogs : Z -> Z -> Exn + list Log.t;
  erc20_decimals : string -> option Z;
  erc20_symbol : string -> option string;
  erc20_name : string -> option string;
  (** [liquidityMath/liquidityAmounts], which is not part of the sources at
      hand: [getAmount0 tickLower tickUpper currentTick liquidityDelta
      sqrtPriceX96], and likewise [getAmount1]. *)
  getAmount0 : Z -> Z -> Z -> Z -> Z -> Exn + Z;
  getAmount1 : Z -> Z -> Z -> Z -> Z -> Exn + Z
}.

(** [ConfigService.syncBatchSize] reads
    [parseInt(process.env.SYNC_BATCH_SIZE || '1000', 10)]; [None] stands for
    [NaN]. *)
Definition parseInt10 (s : string) : option Z :=
  let s := JS.skip_space s in
  let '(neg, s) :=
    match s with
    | String "-" t => (true, t)
    | String "+" t => (false, t)
    | _ => (false, s)
    end in
  let '(v, cnt, _) := JS.take_digits s 0 0 in
  if cnt =? 0 then None else Some (if neg then - v else v).

Definition configSyncBatchSize (SYNC_BATCH_SIZE : option string) : option Z :=
  parseInt10
    match SYNC_BATCH_SIZE with
    | Some v => if (v =? EmptyString)%string then "1000" else v
    | None => "1000"
    end.

Definition of_result {A} (r : Exn + A) : M A :=
  match r with
  | inl e => throw e
  | inr a => ret a
  end.

Definition ZERO_ADDRESS : string := "0x0000000000000000000000000000000000000000".

Definition ZERO_BI : Z := 0.
Definition ZERO_BD : JS.number := 0%float.
Definition ONE_BD : JS.number := 1%float.

Definition show_Z (z : Z) : string :=
  (if z <? 0 then "-" else EmptyString) +:+ JS.digits_of_Z (Z.abs z).

(** ** [swap-events.service.ts]: price helpers *)

Definition exponentToBigDecimal (decimals : Z) : JS.number := JS.pow10 decimals.

Definition safeDiv (numerator denominator : JS.number) : JS.number :=
  if negb (denominator =? 0)%float then (numerator / denominator)%float else 0%float.

Definition Q192 : Z := 2 ^ 192.

(** The numeric prices [(price0, price1)] before they are printed. The
    argument is the BigInt whose decimal string both callers pass. *)
Definition tokenPrices (sqrtPriceX96 token0Decimals token1Decimals : Z)
    : JS.number * JS.number :=
  let sqrtPrice := sqrtPriceX96 in
  let num := sqrtPrice * sqrtPrice in
  let numDecimal := JS.Number_of_BigInt num in
  let denomDecimal := JS.Number_of_BigInt Q192 in
  let price1 := ((numDecimal / denomDecimal)
                   * exponentToBigDecimal token0Decimals
                   / exponentToBigDecimal token1Decimals)%float in
  let price0 := safeDiv 1%float price1 in
  (price0, price1).

Record TokenPrices := mkPrices { token0Price : string; token1Price : string }.

Definition sqrtPriceX96ToTokenPrices (sqrtPriceX96 token0Decimals token1Decimals : Z)
    : TokenPrices :=
  let '(price0, price1) := tokenPrices sqrtPriceX96 token0Decimals token1Decimals in
  mkPrices (JS.toString price0) (JS.toString price1).

(** ** [aggregation.service.ts]: pure helpers *)

(** [abs] *)
Definition abs (amount : Z) : Z := if amount <? 0 then - amount else amount.

(** [toDecimal]; BigInt division truncates and [%] takes the sign of the
    dividend. [decimals] is a [uint8]. *)
Definition toDecimal (amount decimals : Z) : JS.number :=
  let value := amount in
  let divisor := 10 ^ decimals in
  let whole := JS.Number_of_BigInt (Z.quot value divisor) in
  let remainder := JS.Number_of_BigInt (Z.rem value divisor) in
  (whole + remainder / JS.Number_of_BigInt divisor)%float.

Definition period (interval : TimeInterval) : Z :=
  match interval with
  | MINUTE => 60000
  | HOUR => 3600000
  | DAY => 86400000
  end.

(** [roundTimestamp], for a process whose local time is UTC. *)
Definition roundTimestamp (date : Z) (interval : TimeInterval) : Z :=
  date - date mod period interval.

(** [getPreviousPeriod], for a process whose local time is UTC. *)
Definition getPreviousPeriod (date : Z) (interval : TimeInterval) : Z :=
  date - period interval.

(** Generic collection operations. [create] enforces the unique index;
    [updateOne] without [upsert] changes the matched document, if any. *)
Definition create {K} `{Countable K} {V} (k : K) (v : V) (m : gmap K V) : Exn + gmap K V :=
  match m !! k with
  | Some _ => inl DuplicateKey
  | None => inr (<[k := v]> m)
  end.

Definition updateOne {K} `{Countable K} {V} (k : K) (f : V -> V) (m : gmap K V) : gmap K V :=
  alter f k m.

Section Services.

Context (env : Env).

(** ** [AggregationService] *)

Record Metadata := mkMetadata { md_decimals : Z; md_symbol : string; md_name : string }.

Definition fetchTokenMetadata (tokenAddress : string) : M Metadata :=
  if (tokenAddress =? ZERO_ADDRESS)%string
     || (tokenAddress =? wrappedNativeAddress env)%string
  then ret (mkMetadata 18 "ETH" "Ethereum")
  else
    match erc20_decimals env tokenAddress with
    | Some decimals =>
        let symbol := default "UNKNOWN" (erc20_symbol env tokenAddress) in
        let name := default "Unknown Token" (erc20_name env tokenAddress) in
        logger LOG ("Fetched metadata for " +:+ tokenAddress +:+ ": " +:+ symbol) ;;
        ret (mkMetadata decimals symbol name)
    | None =>
        logger ERROR ("Failed to fetch metadata for " +:+ tokenAddress +:+ ", using defaults") ;;
        ret (mkMetadata 18 "UNKNOWN" "Unknown Token")
    end.

Definition getNativePriceInUSD : M JS.number :=
  let poolId := stablecoinWrappedNativePoolId env in
  if (poolId =? EmptyString)%string then
    logger WARN "Stablecoin-wrapped native pool ID not configured" ;;
    ret ZERO_BD
  else
    s <- get ;;
    match poolModel (db s) !! poolId with
    | None =>
        logger WARN ("Stablecoin-wrapped native pool not found: " +:+ poolId) ;;
        ret ZERO_BD
    | Some pool =>
        let nativePriceUSD :=
          if stablecoinIsToken0 env
          then JS.parseFloat (Pool.token0Price pool)
          else JS.parseFloat (Pool.token1Price pool) in
        ret (JS.or_else nativePriceUSD ZERO_BD)
    end.

(** One round of the whitelist loop of [findNativePerToken]; the pair is
    [(largestLiquidityBTC, priceSoFar)]. *)
Definition scanWhitelistPool (d : Store) (token : Token.t) (minimumNativeLocked : Z)
    (acc : JS.number * JS.number) (poolAddress : string) : JS.number * JS.number :=
  match poolModel d !! poolAddress with
  | None => acc
  | Some pool =>
      if 0 <? Pool.liquidity pool then
        let acc :=
          if (Pool.currency0 pool =? Token.address token)%string then
            match tokenModel d !! Pool.currency1 pool with
            | Some token1 =>
                let tvlDecimal :=
                  toDecimal (Pool.totalValueLockedToken1 pool) (Token.decimals token1) in
                let btcLocked :=
                  (tvlDecimal * JS.parseFloat (Token.derivedBTC token1))%float in
                if (fst acc <? btcLocked)%float
                   && (JS.Number_of_BigInt minimumNativeLocked <? btcLocked)%float
                then (btcLocked,
                      (JS.parseFloat (Pool.token1Price pool)
                       * JS.parseFloat (Token.derivedBTC token1))%float)
                else acc
            | None => acc
            end
          else acc in
        if (Pool.currency1 pool =? Token.address token)%string then
          match tokenModel d !! Pool.currency0 pool with
          | Some token0 =>
              let tvlDecimal :=
                toDecimal (Pool.totalValueLockedToken0 pool) (Token.decimals token0) in
              let btcLocked :=
                (tvlDecimal * JS.parseFloat (Token.derivedBTC token0))%float in
              if (fst acc <? btcLocked)%float
                 && (JS.Number_of_BigInt minimumNativeLocked <? btcLocked)%float
              then (btcLocked,
                    (JS.parseFloat (Pool.token0Price pool)
                     * JS.parseFloat (Token.derivedBTC token0))%float)
              else acc
          | None => acc
          end
        else acc
      else acc
  end.

Definition includes (xs : list string) (x : string) : bool :=
  existsb (String.eqb x) xs.

Definition findNativePerToken (token : Token.t) (wrappedNativeAddress : string)
    (stablecoinAddresses : list string) (minimumNativeLocked : Z) : M JS.number :=
  if (Token.address token =? wrappedNativeAddress)%string
     || (Token.address token =? ZERO_ADDRESS)%string
  then ret 1%float
  else
    let whiteList := Token.whitelistPools token in
    if includes stablecoinAddresses (Token.address token) then
      btcPrice <- getNativePriceInUSD ;;
      if negb (JS.truthy btcPrice) then ret 1%float
      else ret (1 / btcPrice)%float
    else
      s <- get ;;
      ret (snd (fold_left (scanWhitelistPool (db s) token minimumNativeLocked)
                          whiteList (ZERO_BD, ZERO_BD))).

(** [model.findOne({ tokenAddress, date, status: RecordStatus.CURRENT })] *)
Definition findOneCurrent (model : gmap (string * Z) Candle.t) (tokenAddress : string)
    (date : Z) : option Candle.t :=
  match model !! (tokenAddress, date) with
  | Some r => if RecordStatus_eqb (Candle.status r) CURRENT then Some r else None
  | None => None
  end.

(** [updateOrCreateCurrentRecord] *)
Definition updateOrCreateCurrentRecord (tokenAddress : string) (interval : TimeInterval)
    (timestamp : Z) (volumeDelta : Z) (volumeUSDDelta feesDelta currentPrice : JS.number)
    (totalValueLocked : Z) (totalValueLockedUSD : JS.number) : M unit :=
  let date := roundTimestamp timestamp interval in
  s <- get ;;
  let model := getModelByInterval interval (db s) in
  let existingRecord := findOneCurrent model tokenAddress date in
  match existingRecord with
  | Some existingRecord =>
      let newVolume := Candle.volume existingRecord + volumeDelta in
      let newVolumeUSD :=
        (JS.parseFloat (Candle.volumeUSD existingRecord) + volumeUSDDelta)%float in
      let newUntrackedVolumeUSD :=
        (JS.parseFloat (Candle.untrackedVolumeUSD existingRecord) + volumeUSDDelta)%float in
      let newFeesUSD := (JS.parseFloat (Candle.feesUSD existingRecord) + feesDelta)%float in
      let newTxCount := Candle.txCount existingRecord + 1 in
      let open :=
        if negb (Candle.open existingRecord =? "0")%string
        then JS.parseFloat (Candle.open existingRecord) else currentPrice in
      let high := JS.Math_max (JS.parseFloat (Candle.high existingRecord)) currentPrice in
      let low :=
        if negb (Candle.low existingRecord =? "0")%string
        then JS.Math_min (JS.parseFloat (Candle.low existingRecord)) currentPrice
        else currentPrice in
      let close := currentPrice in
      update_db (set_candleModel interval
        (updateOne (tokenAddress, date) (fun r =>
           Candle.mk (Candle.tokenAddress r) (Candle.date r) (Candle.status r)
             newVolume (JS.toFixed 6 newVolumeUSD) (JS.toFixed 6 newUntrackedVolumeUSD)
             totalValueLocked (JS.toFixed 6 totalValueLockedUSD)
             (JS.toFixed 6 currentPrice) (JS.toFixed 6 newFeesUSD)
             (JS.toFixed 6 open) (JS.toFixed 6 high) (JS.toFixed 6 low)
             (JS.toFixed 6 close) newTxCount)))
  | None =>
      let record :=
        Candle.mk tokenAddress date CURRENT
          volumeDelta (JS.toFixed 6 volumeUSDDelta) (JS.toFixed 6 volumeUSDDelta)
          totalValueLocked (JS.toFixed 6 totalValueLockedUSD)
          (JS.toFixed 6 currentPrice) (JS.toFixed 6 feesDelta)
          (JS.toFixed 6 currentPrice) (JS.toFixed 6 currentPrice)
          (JS.toFixed 6 currentPrice) (JS.toFixed 6 currentPrice) 1 in
      model' <- of_result (create (tokenAddress, date) record model) ;;
      update_db (set_candleModel interval (fun _ => model'))
  end.

Definition newToken (tokenAddress : string) (metadata : Metadata) : Token.t :=
  Token.mk tokenAddress (md_symbol metadata) (md_name metadata) (md_decimals metadata)
           0 "0" "0" "0" "0" "0" "0" 0 [].

Definition setMetadata (metadata : Metadata) (t : Token.t) : Token.t :=
  Token.mk (Token.address t) (md_symbol metadata) (md_name metadata) (md_decimals metadata)
           (Token.volume t) (Token.volumeUSD t) (Token.untrackedVolumeUSD t)
           (Token.feesUSD t) (Token.totalValueLocked t) (Token.totalValueLockedUSD t)
           (Token.derivedBTC t) (Token.txCount t) (Token.whitelistPools t).

(** The update of the cumulative token values: [$inc] works on the stored
    document, [$set] writes values computed from the document read before. *)
Definition cumulate (token : Token.t) (absAmount : Z) (amountUSD feesUSD derivedBTC : JS.number)
    (t : Token.t) : Token.t :=
  Token.mk (Token.address t) (Token.symbol t) (Token.name t) (Token.decimals t)
           (Token.volume token + absAmount)
           (JS.toFixed 6 (JS.parseFloat (Token.volumeUSD token) + amountUSD)%float)
           (JS.toFixed 6 (JS.parseFloat (Token.untrackedVolumeUSD token) + amountUSD)%float)
           (JS.toFixed 6 (JS.parseFloat (Token.feesUSD token) + feesUSD)%float)
           (Token.totalValueLocked t) (Token.totalValueLockedUSD t)
           (JS.toFixed 18 derivedBTC)
           (Token.txCount t + 1) (Token.whitelistPools t).

Definition null_token {A} : M A :=
  throw (TypeError "Cannot read properties of null").

(** [updateCurrentRecord] *)
Definition updateCurrentRecord (swap : SwapEvent.t) (tokenAddress : string)
    (isToken0 : bool) : M unit :=
  s <- get ;;
  token <-
    match tokenModel (db s) !! tokenAddress with
    | Some token => ret (Some token)
    | None =>
        metadata <- fetchTokenMetadata tokenAddress ;;
        try_catch
          (s <- get ;;
           let token := newToken tokenAddress metadata in
           model' <- of_result (create tokenAddress token (tokenModel (db s))) ;;
           update_db (set_tokenModel (fun _ => model')) ;;
           ret (Some token))
          (fun error =>
             if is_duplicate error
             then s <- get ;; ret (tokenModel (db s) !! tokenAddress)
             else throw error)
    end ;;
  token <-
    match token with
    | Some token =>
        if (Token.symbol token =? "UNKNOWN")%string then
          metadata <- fetchTokenMetadata tokenAddress ;;
          update_db (set_tokenModel (updateOne tokenAddress (setMetadata metadata))) ;;
          ret (Some (setMetadata metadata token))
        else ret (Some token)
    | None => ret None
    end ;;
  let amount := if isToken0 then SwapEvent.amount0 swap else SwapEvent.amount1 swap in
  let absAmountBigInt := abs amount in
  let amountUSD := 0%float in
  let feePercentage := (JS.Number_of_BigInt (SwapEvent.fee swap) / 10000)%float in
  let feesUSD := (amountUSD * feePercentage)%float in
  let newTVL := 0 in
  let newTVLUSD := 0%float in
  match token with
  | None => null_token
  | Some token =>
      derivedBTC <- findNativePerToken token (wrappedNativeAddress env)
                      (stablecoinAddresses env) ZERO_BI ;;
      update_db (set_tokenModel
        (updateOne tokenAddress (cumulate token absAmountBigInt amountUSD feesUSD derivedBTC))) ;;
      Promise_all3
        (updateOrCreateCurrentRecord tokenAddress MINUTE (SwapEvent.blockTimestamp swap)
           absAmountBigInt amountUSD feesUSD derivedBTC newTVL newTVLUSD)
        (updateOrCreateCurrentRecord tokenAddress HOUR (SwapEvent.blockTimestamp swap)
           absAmountBigInt amountUSD feesUSD derivedBTC newTVL newTVLUSD)
        (updateOrCreateCurrentRecord tokenAddress DAY (SwapEvent.blockTimestamp swap)
           absAmountBigInt amountUSD feesUSD derivedBTC newTVL newTVLUSD)
  end.

(** [processSwapEvent] *)
Definition processSwapEvent (swap : SwapEvent.t) : M unit :=
  try_catch
    (updateCurrentRecord swap (SwapEvent.token0Address swap) true ;;
     updateCurrentRecord swap (SwapEvent.token1Address swap) false)
    (fun error => logger ERROR "Error handling swap event for aggregation").

Definition addToSet (x : string) (xs : list string) : list string :=
  if includes xs x then xs else xs ++ [x].

(** [processTokenWhitelistUpdate]: an upsert with [$addToSet] and
    [$setOnInsert]. *)
Definition processTokenWhitelistUpdate (tokenAddress poolId : string) : M unit :=
  try_catch
    (update_db (set_tokenModel (fun m =>
       match m !! tokenAddress with
       | Some t =>
           <[tokenAddress :=
               Token.mk (Token.address t) (Token.symbol t) (Token.name t) (Token.decimals t)
                 (Token.volume t) (Token.volumeUSD t) (Token.untrackedVolumeUSD t)
                 (Token.feesUSD t) (Token.totalValueLocked t) (Token.totalValueLockedUSD t)
                 (Token.derivedBTC t) (Token.txCount t)
                 (addToSet poolId (Token.whitelistPools t))]> m
       | None =>
           <[tokenAddress :=
               Token.mk tokenAddress "UNKNOWN" "Unknown Token" 18
                 0 "0" "0" "0" "0" "0" "0" 0 [poolId]]> m
       end)) ;;
     logger LOG ("Updated whitelist for token " +:+ tokenAddress +:+ " with pool " +:+ poolId))
    (fun error => logger ERROR "Error updating token whitelist").

(** [finalizeRecords]: every current record of the period that just ended
    becomes finalized, and one [candle.finalized] is emitted for each. *)
Definition finalizeRecords (interval : TimeInterval) : M unit :=
  try_catch
    (s <- get ;;
     let model := getModelByInterval interval (db s) in
     let now := clock s in
     let previousPeriod := getPreviousPeriod now interval in
     let previousPeriodDate := roundTimestamp previousPeriod interval in
     let due (r : Candle.t) :=
       (Candle.date r =? previousPeriodDate) && RecordStatus_eqb (Candle.status r) CURRENT in
     let recordsToFinalize := List.filter due (map snd (map_to_list model)) in
     update_db (set_candleModel interval
       (fmap (fun r => if due r then Candle.finalize r else r))) ;;
     logger LOG ("Finalized " +:+ show_Z (Z.of_nat (length recordsToFinalize)) +:+ " records") ;;
     for_each recordsToFinalize (fun record => emit (candle_finalized interval record)))
    (fun error => logger ERROR "Error finalizing records").

(** ** [SwapEventsService] *)

(** [fetchTokenDecimals]: memory cache, then the Token collection, then
    the contract, then the default 18. *)
Definition fetchTokenDecimals (tokenAddress : string) : M Z :=
  s <- get ;;
  match tokenDecimalsCache s !! tokenAddress with
  | Some decimals => ret decimals
  | None =>
      if (tokenAddress =? ZERO_ADDRESS)%string then
        modify (set_cache <[tokenAddress := 18]>) ;;
        ret 18
      else
        match tokenModel (db s) !! tokenAddress with
        | Some token =>
            modify (set_cache <[tokenAddress := Token.decimals token]>) ;;
            logger DEBUG ("Fetched decimals for " +:+ tokenAddress +:+ " from database") ;;
            ret (Token.decimals token)
        | None =>
            match erc20_decimals env tokenAddress with
            | Some decimalsNum =>
                modify (set_cache <[tokenAddress := decimalsNum]>) ;;
                logger DEBUG ("Fetched decimals for " +:+ tokenAddress +:+ " from contract") ;;
                ret decimalsNum
            | None =>
                logger WARN ("Failed to fetch decimals for " +:+ tokenAddress
                             +:+ ", using default 18") ;;
                modify (set_cache <[tokenAddress := 18]>) ;;
                ret 18
            end
        end
  end.

(** [updateTokenWhitelist] *)
Definition updateTokenWhitelist (tokenAddress poolId : string) : M unit :=
  try_catch
    (processTokenWhitelistUpdate tokenAddress poolId)
    (fun error => logger ERROR ("Failed to update whitelist for token " +:+ tokenAddress)).

(** [updateTokenWhitelists] *)
Definition updateTokenWhitelists (poolId currency0 currency1 : string) : M unit :=
  (if includes (whitelistTokens env) currency0
   then updateTokenWhitelist currency1 poolId else ret tt) ;;
  (if includes (whitelistTokens env) currency1
   then updateTokenWhitelist currency0 poolId else ret tt).

Definition null_block {A} : M A :=
  throw (TypeError "Cannot read properties of null (reading 'timestamp')").

(** [handleInitializeEvent] *)
Definition handleInitializeEvent (id currency0 currency1 : string) (fee tickSpacing : Z)
    (hooks : string) (sqrtPriceX96 tick : Z) (event : Log.t) : M unit :=
  try_catch
    (let block := getBlock env (Log.blockNumber event) in
     token0Decimals <- fetchTokenDecimals currency0 ;;
     token1Decimals <- fetchTokenDecimals currency1 ;;
     let prices := sqrtPriceX96ToTokenPrices sqrtPriceX96 token0Decimals token1Decimals in
     match block with
     | None => null_block
     | Some timestamp =>
         s <- get ;;
         model' <- of_result
           (create id
              (Pool.mk id currency0 currency1 fee tickSpacing hooks sqrtPriceX96 tick
                 (Log.blockNumber event) (timestamp * 1000) (Log.transactionHash event)
                 (token0Price prices) (token1Price prices) 0 0 0)
              (poolModel (db s))) ;;
         update_db (set_poolModel (fun _ => model')) ;;
         logger LOG ("New pool initialized: " +:+ id) ;;
         updateTokenWhitelists id currency0 currency1
     end)
    (fun error =>
       if is_duplicate error
       then logger WARN ("Duplicate pool initialization: " +:+ id)
       else throw error).

(** The [fee] that reaches [handleSwapEvent]. Its parameter is declared
    [fee: number]; [syncBatch] passes [Number(fee)], and
    [handleSwapEventFromLog] passes the [fee] of the decoded log as it is, a
    [bigint]. *)
Inductive FeeValue :=
  | fee_number (fee : Z)
  | fee_bigint (fee : Z).

(** The error of a document that does not fit its schema; it has no [code]. *)
Definition ValidationError : Exn :=
  OtherError "SwapEvent validation failed: fee: Cast to Number failed".

(** The cast of the schema's [fee: number] when [swapEventModel.create]
    builds and validates the document: a number is kept, a [bigint] is not
    cast and the document is rejected. *)
Definition castNumber (fee : FeeValue) : Exn + Z :=
  match fee with
  | fee_number fee => inr fee
  | fee_bigint _ => inl ValidationError
  end.

Definition poolAfterSwap (sqrtPriceX96 tick : Z) (prices : TokenPrices)
    (liquidity newTVL0 newTVL1 : Z) (p : Pool.t) : Pool.t :=
  Pool.mk (Pool.poolId p) (Pool.currency0 p) (Pool.currency1 p) (Pool.fee p)
          (Pool.tickSpacing p) (Pool.hooks p) sqrtPriceX96 tick
          (Pool.blockNumber p) (Pool.blockTimestamp p) (Pool.transactionHash p)
          (token0Price prices) (token1Price prices) liquidity newTVL0 newTVL1.

Definition syncAfterSwap (blockNumber now : Z) (st : SyncState.t) : SyncState.t :=
  SyncState.mk (SyncState.poolManagerAddress st) blockNumber blockNumber
               (SyncState.isInitialSyncComplete st) (Some now).

(** [handleSwapEvent] *)
Definition handleSwapEvent (poolId sender : string)
    (amount0 amount1 sqrtPriceX96 liquidity tick : Z) (fee : FeeValue) (event : Log.t)
    : M unit :=
  let block := getBlock env (Log.blockNumber event) in
  s <- get ;;
  match poolModel (db s) !! poolId with
  | None =>
      logger WARN ("Pool not found for poolId: " +:+ poolId +:+ ". Skipping swap event.")
  | Some pool =>
      let token0Address := Pool.currency0 pool in
      let token1Address := Pool.currency1 pool in
      token0Decimals <- fetchTokenDecimals token0Address ;;
      token1Decimals <- fetchTokenDecimals token1Address ;;
      let prices := sqrtPriceX96ToTokenPrices sqrtPriceX96 token0Decimals token1Decimals in
      let currentTVL0 := Pool.totalValueLockedToken0 pool in
      let currentTVL1 := Pool.totalValueLockedToken1 pool in
      let newTVL0 := currentTVL0 + amount0 in
      let newTVL1 := currentTVL1 + amount1 in
      update_db (set_poolModel
        (updateOne poolId (poolAfterSwap sqrtPriceX96 tick prices liquidity newTVL0 newTVL1))) ;;
      match block with
      | None => null_block
      | Some timestamp =>
          let swapEvent (fee : Z) :=
            SwapEvent.mk poolId token0Address token1Address (Log.transactionHash event)
              (Log.blockNumber event) (timestamp * 1000) sender sender
              amount0 amount1 sqrtPriceX96 liquidity tick (Log.index event) fee "0" in
          try_catch
            (fee <- of_result (castNumber fee) ;;
             let swapEvent := swapEvent fee in
             s <- get ;;
             model' <- of_result
               (create (SwapEvent.key swapEvent) swapEvent (swapEventModel (db s))) ;;
             update_db (set_swapEventModel (fun _ => model')) ;;
             let savedEvent := swapEvent in
             logger LOG ("New swap event: " +:+ Log.transactionHash event) ;;
             emit (swap_created savedEvent) ;;
             processSwapEvent savedEvent ;;
             s <- get ;;
             update_db (set_syncStateModel
               (updateOne (uniswapV4PoolManagerAddress env)
                  (syncAfterSwap (Log.blockNumber event) (clock s)))))
            (fun error =>
               if is_duplicate error
               then logger WARN ("Duplicate swap event: " +:+ Log.transactionHash event)
               else throw error)
      end
  end.

Definition poolAfterModifyLiquidity (newLiquidity newTVL0 newTVL1 : Z) (p : Pool.t) : Pool.t :=
  Pool.mk (Pool.poolId p) (Pool.currency0 p) (Pool.currency1 p) (Pool.fee p)
          (Pool.tickSpacing p) (Pool.hooks p) (Pool.sqrtPriceX96 p) (Pool.tick p)
          (Pool.blockNumber p) (Pool.blockTimestamp p) (Pool.transactionHash p)
          (Pool.token0Price p) (Pool.token1Price p) newLiquidity newTVL0 newTVL1.

(** [handleModifyLiquidityEvent] *)
Definition handleModifyLiquidityEvent (poolId sender : string)
    (tickLower tickUpper liquidityDelta : Z) (salt : string) (event : Log.t) : M unit :=
  try_catch
    (s <- get ;;
     match poolModel (db s) !! poolId with
     | None =>
         logger WARN ("Pool not found for poolId: " +:+ poolId
                      +:+ ". Skipping ModifyLiquidity event.")
     | Some pool =>
         let currentLiquidity := Pool.liquidity pool in
         let newLiquidity := currentLiquidity + liquidityDelta in
         let sqrtPriceX96 := Pool.sqrtPriceX96 pool in
         amount0 <- of_result
           (getAmount0 env tickLower tickUpper (Pool.tick pool) liquidityDelta sqrtPriceX96) ;;
         amount1 <- of_result
           (getAmount1 env tickLower tickUpper (Pool.tick pool) liquidityDelta sqrtPriceX96) ;;
         let newTVL0 := Pool.totalValueLockedToken0 pool + amount0 in
         let newTVL1 := Pool.totalValueLockedToken1 pool + amount1 in
         update_db (set_poolModel
           (updateOne poolId (poolAfterModifyLiquidity newLiquidity newTVL0 newTVL1))) ;;
         logger LOG ("Updated pool " +:+ poolId +:+ " - Liquidity: " +:+ show_Z newLiquidity)
     end)
    (fun error => logger ERROR "Error handling ModifyLiquidity event" ;; throw error).

(** [handleSwapEventFromLog]: the arguments of the log are handed on as
    they were decoded, the [fee] as a [bigint]. *)
Definition handleSwapEventFromLog (poolId sender : string)
    (amount0 amount1 sqrtPriceX96 liquidity tick fee : Z) (event : Log.t) : M unit :=
  handleSwapEvent poolId sender amount0 amount1 sqrtPriceX96 liquidity tick
                  (fee_bigint fee) event.

(** [handleModifyLiquidityEventFromLog] *)
Definition handleModifyLiquidityEventFromLog (poolId sender : string)
    (tickLower tickUpper liquidityDelta : Z) (salt : string) (event : Log.t) : M unit :=
  handleModifyLiquidityEvent poolId sender tickLower tickUpper liquidityDelta salt event.

(** The dispatch on [topics[0]] in the loop of [syncBatch]: a Swap is handed
    to [handleSwapEvent] with [tick: Number(tick)] and [fee: Number(fee)]. *)
Definition dispatch (parsedLog : ParsedLog) (log : Log.t) : M unit :=
  match parsedLog with
  | Initialize id currency0 currency1 fee tickSpacing hooks sqrtPriceX96 tick =>
      handleInitializeEvent id currency0 currency1 fee tickSpacing hooks sqrtPriceX96 tick log
  | Swap poolId sender amount0 amount1 sqrtPriceX96 liquidity tick fee =>
      handleSwapEvent poolId sender amount0 amount1 sqrtPriceX96 liquidity tick
                      (fee_number fee) log
  | ModifyLiquidity poolId sender tickLower tickUpper liquidityDelta salt =>
      handleModifyLiquidityEvent poolId sender tickLower tickUpper liquidityDelta salt log
  end.

(** The dispatch on the signature in the loop of [processQueue]: Swap and
    ModifyLiquidity go through the [FromLog] handlers. *)
Definition dispatchFromLog (parsedLog : ParsedLog) (log : Log.t) : M unit :=
  match parsedLog with
  | Initialize id currency0 currency1 fee tickSpacing hooks sqrtPriceX96 tick =>
      handleInitializeEvent id currency0 currency1 fee tickSpacing hooks sqrtPriceX96 tick log
  | Swap poolId sender amount0 amount1 sqrtPriceX96 liquidity tick fee =>
      handleSwapEventFromLog poolId sender amount0 amount1 sqrtPriceX96 liquidity tick fee log
  | ModifyLiquidity poolId sender tickLower tickUpper liquidityDelta salt =>
      handleModifyLiquidityEventFromLog poolId sender tickLower tickUpper liquidityDelta
                                        salt log
  end.

(** The body of the [for (const log of logs)] loop of [syncBatch]. *)
Definition syncLog (log : Log.t) : M unit :=
  try_catch
    (match Log.parsed log with
     | None => logger WARN "Failed to parse log in batch sync"
     | Some parsedLog => dispatch parsedLog log
     end)
    (fun error =>
       if is_duplicate error then ret tt
       else logger ERROR "Error processing event in batch" ;; throw error).

(** [syncBatch] *)
Definition syncBatch (fromBlock toBlock : Z) : M unit :=
  try_catch
    (logs <- of_result (getLogs env fromBlock toBlock) ;;
     logger LOG ("Found " +:+ show_Z (Z.of_nat (length logs)) +:+ " events in blocks "
                 +:+ show_Z fromBlock +:+ "-" +:+ show_Z toBlock) ;;
     for_each logs syncLog)
    (fun error =>
       logger ERROR ("Error syncing batch " +:+ show_Z fromBlock +:+ "-" +:+ show_Z toBlock) ;;
       throw error).

Definition commitBatch (toBlock currentBlock now : Z) (st : SyncState.t) : SyncState.t :=
  SyncState.mk (SyncState.poolManagerAddress st) toBlock currentBlock
               (currentBlock <=? toBlock) (Some now).

(** One round of the [while (fromBlock <= currentBlock)] loop of
    [syncHistoricalEvents]: the batch, then the commit to SyncState. *)
Definition syncRound (currentBlock : Z) (batch : Z * Z) : M unit :=
  let '(fromBlock, toBlock) := batch in
  logger LOG ("Syncing blocks " +:+ show_Z fromBlock +:+ " to " +:+ show_Z toBlock) ;;
  syncBatch fromBlock toBlock ;;
  s <- get ;;
  update_db (set_syncStateModel
    (updateOne (uniswapV4PoolManagerAddress env)
       (commitBatch toBlock currentBlock (clock s)))).

(** The loop itself; [fuel] bounds the number of rounds and the result is
    [None] when the bound is reached with blocks still to sync. *)
Fixpoint syncLoop (fuel : nat) (fromBlock currentBlock : Z) : M (option unit) :=
  if fromBlock <=? currentBlock then
    match fuel with
    | O => ret None
    | S fuel' =>
        let toBlock := Z.min (fromBlock + syncBatchSize env - 1) currentBlock in
        syncRound currentBlock (fromBlock, toBlock) ;;
        syncLoop fuel' (toBlock + 1) currentBlock
    end
  else ret (Some tt).

(** [syncHistoricalEvents] *)
Definition syncHistoricalEvents (fuel : nat) : M (option unit) :=
  modify (set_isSyncing true) ;;
  let poolManagerAddress := uniswapV4PoolManagerAddress env in
  try_catch
    (s <- get ;;
     let currentBlock := getBlockNumber env in
     let startingBlock := startingBlock env in
     syncState <-
       match syncStateModel (db s) !! poolManagerAddress with
       | None =>
           let syncState :=
             SyncState.mk poolManagerAddress (startingBlock - 1) currentBlock false None in
           update_db (set_syncStateModel <[poolManagerAddress := syncState]>) ;;
           logger LOG ("Starting initial sync from block " +:+ show_Z startingBlock) ;;
           ret syncState
       | Some syncState =>
           (if SyncState.isInitialSyncComplete syncState
            then logger LOG ("Resuming sync from block "
                             +:+ show_Z (SyncState.lastSyncedBlock syncState + 1)
                             +:+ " to " +:+ show_Z currentBlock)
            else logger LOG ("Continuing incomplete sync from block "
                             +:+ show_Z (SyncState.lastSyncedBlock syncState + 1))) ;;
           ret syncState
       end ;;
     let fromBlock := SyncState.lastSyncedBlock syncState + 1 in
     finished <- syncLoop fuel fromBlock currentBlock ;;
     match finished with
     | None => ret None
     | Some _ =>
         logger LOG "Historical sync complete! Ready to listen for new events." ;;
         modify (set_isSyncing false) ;;
         ret (Some tt)
     end)
    (fun error =>
       logger ERROR "Error during historical sync" ;;
       modify (set_isSyncing false) ;;
       throw error).

(** The body of the [while (eventQueue.length > 0)] loop of [processQueue],
    for the entry taken off the queue. *)
Definition processEntry (log : Log.t) : M unit :=
  try_catch
    (s <- get ;;
     if isSyncing s then ret tt
     else
       match Log.parsed log with
       | None => logger WARN "Failed to parse log"
       | Some parsedLog => dispatchFromLog parsedLog log
       end)
    (fun error => logger ERROR "Error processing event from queue").

(** [processQueue], draining the queued logs in arrival order. *)
Definition processQueue (eventQueue : list Log.t) : M unit :=
  for_each eventQueue processEntry.

End Services.

(** * Properties *)

(** ** Price conversion *)

Lemma range_forallb (f : Z -> bool) (n : nat) :
  forallb f (map Z.of_nat (seq 0 n)) = true ->
  forall d, 0 <= d < Z.of_nat n -> f d = true.
Proof.
  intros Hall d Hd.
  rewrite forallb_forall in Hall. apply Hall.
  apply in_map_iff. exists (Z.to_nat d). split; [lia|].
  apply in_seq. lia.
Qed.

Lemma safeDiv_zero_denominator (x y : JS.number) :
  (y =? 0)%float = true -> safeDiv x y = 0%float.
Proof. intros Hy. unfold safeDiv. rewrite Hy. reflexivity. Qed.

(** Multiplying and dividing [+0] by a power of ten of a [uint8] exponent
    gives [+0] again. *)
Lemma zero_times_pow10 (d : Z) :
  0 <= d < 256 -> (0 * exponentToBigDecimal d)%float = 0%float.
Proof.
  intros Hd. apply Leibniz.eqb_spec.
  apply (range_forallb
           (fun d => Leibniz.eqb (0 * exponentToBigDecimal d)%float 0%float) 256);
    [vm_compute; reflexivity | assumption].
Qed.

Lemma zero_over_pow10 (d : Z) :
  0 <= d < 256 -> (0 / exponentToBigDecimal d)%float = 0%float.
Proof.
  intros Hd. apply Leibniz.eqb_spec.
  apply (range_forallb
           (fun d => Leibniz.eqb (0 / exponentToBigDecimal d)%float 0%float) 256);
    [vm_compute; reflexivity | assumption].
Qed.

Lemma zero_sqrtPrice_tokenPrices (d0 d1 : Z) :
  0 <= d0 < 256 -> 0 <= d1 < 256 ->
  tokenPrices 0 d0 d1 = (0%float, 0%float).
Proof.
  intros H0 H1. unfold tokenPrices. cbv zeta.
  change (JS.Number_of_BigInt (0 * 0) / JS.Number_of_BigInt Q192)%float with 0%float.
  rewrite zero_times_pow10, zero_over_pow10 by assumption.
  reflexivity.
Qed.

(** C10. [sqrtPriceX96ToTokenPrices] is a total function, and whenever the
    computed [price1] equals 0 the guarded division makes [token0Price] the
    string ["0"] (no exception, no [Infinity]); [sqrtPriceX96 = 0] is such an
    input for all [uint8] decimals. *)
Theorem C10_guarded_division (sqrtPriceX96 d0 d1 : Z) :
  ((snd (tokenPrices sqrtPriceX96 d0 d1) =? 0)%float = true ->
   token0Price (sqrtPriceX96ToTokenPrices sqrtPriceX96 d0 d1) = "0")
  /\ (0 <= d0 < 256 -> 0 <= d1 < 256 ->
      (snd (tokenPrices 0 d0 d1) =? 0)%float = true
      /\ sqrtPriceX96ToTokenPrices 0 d0 d1 = mkPrices "0" "0").
Proof.
  split.
  - intros Hz. unfold sqrtPriceX96ToTokenPrices.
    unfold tokenPrices in *. cbv zeta in *. simpl snd in Hz.
    rewrite (safeDiv_zero_denominator _ _ Hz). reflexivity.
  - intros H0 H1. unfold sqrtPriceX96ToTokenPrices.
    rewrite zero_sqrtPrice_tokenPrices by assumption.
    split; reflexivity.
Qed.

Lemma C10_guarded_division_witness :
  token0Price (sqrtPriceX96ToTokenPrices 1 0 400) = "0"
  /\ sqrtPriceX96ToTokenPrices 0 6 18 = mkPrices "0" "0".
Proof.
  split.
  - apply (proj1 (C10_guarded_division 1 0 400)). vm_compute. reflexivity.
  - apply (proj2 (C10_guarded_division 0 6 18)); lia.
Defined.

(** ** The derived native price *)

Lemma truthy_or_else (x : JS.number) :
  JS.truthy (JS.or_else x ZERO_BD) = negb (JS.or_else x ZERO_BD =? 0)%float.
Proof.
  unfold JS.or_else. destruct (JS.truthy x) eqn:Hx.
  - unfold JS.truthy in *. apply negb_true_iff, orb_false_iff in Hx.
    destruct Hx as [-> ->]. reflexivity.
  - reflexivity.
Qed.

(** [getNativePriceInUSD] always returns, only logs, and its result is a
    number that is falsy exactly when it equals 0. *)
Lemma getNativePriceInUSD_returns (env : Env) (s : State) :
  exists s' p,
    getNativePriceInUSD env s = (s', Return p)
    /\ db s' = db s
    /\ JS.truthy p = negb (p =? 0)%float.
Proof.
  unfold getNativePriceInUSD.
  destruct (stablecoinWrappedNativePoolId env =? EmptyString)%string.
  - eexists _, _. split; [reflexivity|]. split; reflexivity.
  - unfold bind, get. simpl.
    destruct (poolModel (db s) !! stablecoinWrappedNativePoolId env) as [pool|].
    + eexists _, _. split; [reflexivity|]. split; [reflexivity|].
      apply truthy_or_else.
    + eexists _, _. split; [reflexivity|]. split; reflexivity.
Qed.

(** C9. [findNativePerToken] returns 1 for the wrapped-native address and
    for the zero address; for any other address listed in
    [stablecoinAddresses] it returns [1 / nativePriceUSD()], or 1 when
    [nativePriceUSD()] is 0. *)
Theorem C9_derived_native_of_reference_tokens (env : Env) (token : Token.t)
    (wrappedNative : string) (stablecoins : list string) (minimumNativeLocked : Z)
    (s : State) :
  (Token.address token = wrappedNative \/ Token.address token = ZERO_ADDRESS ->
   findNativePerToken env token wrappedNative stablecoins minimumNativeLocked s
   = (s, Return 1%float))
  /\ (Token.address token <> wrappedNative ->
      Token.address token <> ZERO_ADDRESS ->
      In (Token.address token) stablecoins ->
      exists s' nativePriceUSD,
        getNativePriceInUSD env s = (s', Return nativePriceUSD)
        /\ findNativePerToken env token wrappedNative stablecoins minimumNativeLocked s
           = (s', Return (if (nativePriceUSD =? 0)%float then 1%float
                          else (1 / nativePriceUSD)%float))).
Proof.
  split.
  - intros Haddr. unfold findNativePerToken.
    replace ((Token.address token =? wrappedNative)%string
             || (Token.address token =? ZERO_ADDRESS)%string) with true; [reflexivity|].
    symmetry. apply orb_true_iff.
    destruct Haddr as [H|H]; [left|right]; apply String.eqb_eq; exact H.
  - intros Hw Hz Hin. unfold findNativePerToken.
    apply String.eqb_neq in Hw, Hz. rewrite Hw, Hz. cbn [orb].
    assert (Hinc : includes stablecoins (Token.address token) = true).
    { unfold includes. apply existsb_exists. exists (Token.address token).
      split; [exact Hin | apply String.eqb_refl]. }
    rewrite Hinc.
    destruct (getNativePriceInUSD_returns env s) as (s' & p & Hrun & _ & Htruthy).
    exists s', p. split; [exact Hrun|].
    unfold bind. cbv beta. rewrite Hrun, Htruthy, negb_involutive.
    destruct (p =? 0)%float; reflexivity.
Qed.

Definition C9_token (address : string) : Token.t :=
  Token.mk address "T" "T" 18 0 "0" "0" "0" "0" "0" "0" 0 [].

Definition C9_env : Env :=
  mkEnv "0xpm" 0 1000 "0xusdcweth" true "0xweth" ["0xweth"] ["0xusdc"] 0
        (fun _ => None) (fun _ _ => inr []) (fun _ => None) (fun _ => None) (fun _ => None)
        (fun _ _ _ _ _ => inr 0) (fun _ _ _ _ _ => inr 0).

Definition C9_state : State :=
  mkState
    (set_poolModel
       <["0xusdcweth" :=
           Pool.mk "0xusdcweth" "0xusdc" "0xweth" 3000 60 "0x00" 0 0 1 0 "0xtx"
                   "2000" "0.0005" 1 0 0]> emptyStore)
    ∅ false 0 [] [].

Lemma C9_derived_native_of_reference_tokens_witness :
  findNativePerToken C9_env (C9_token "0xweth") "0xweth" ["0xusdc"] 0 C9_state
  = (C9_state, Return 1%float)
  /\ findNativePerToken C9_env (C9_token "0xusdc") "0xweth" ["0xusdc"] 0 C9_state
     = (C9_state, Return (JS.parseFloat "0.0005")).
Proof.
  split.
  - apply (proj1 (C9_derived_native_of_reference_tokens
                    C9_env (C9_token "0xweth") "0xweth" ["0xusdc"] 0 C9_state)).
    left. reflexivity.
  - destruct (proj2 (C9_derived_native_of_reference_tokens
                       C9_env (C9_token "0xusdc") "0xweth" ["0xusdc"] 0 C9_state))
      as (s' & p & Hrun & Hres).
    + discriminate.
    + discriminate.
    + left. reflexivity.
    + rewrite Hres. vm_compute in Hrun. injection Hrun as <- <-. reflexivity.
Defined.

(** ** Reasoning about the monad *)

Lemma bind_Return {A B} (m : M A) (k : A -> M B) (s s' : State) (a : A) :
  m s = (s', Return a) -> bind m k s = k a s'.
Proof. intros H. unfold bind. rewrite H. reflexivity. Qed.

Lemma bind_Throw {A B} (m : M A) (k : A -> M B) (s s' : State) (e : Exn) :
  m s = (s', Throw e) -> bind m k s = (s', Throw e).
Proof. intros H. unfold bind. rewrite H. reflexivity. Qed.

Lemma try_catch_Return {A} (m : M A) (h : Exn -> M A) (s s' : State) (a : A) :
  m s = (s', Return a) -> try_catch m h s = (s', Return a).
Proof. intros H. unfold try_catch. rewrite H. reflexivity. Qed.

Lemma try_catch_Throw {A} (m : M A) (h : Exn -> M A) (s s' : State) (e : Exn) :
  m s = (s', Throw e) -> try_catch m h s = h e s'.
Proof. intros H. unfold try_catch. rewrite H. reflexivity. Qed.

Lemma bind_assoc {A B C} (m : M A) (k : A -> M B) (h : B -> M C) (s : State) :
  bind (bind m k) h s = bind m (fun a => bind (k a) h) s.
Proof. unfold bind. destruct (m s) as [s' [a|e]]; reflexivity. Qed.

Lemma for_each_cons {A} (x : A) (xs : list A) (body : A -> M unit) (s s' : State) :
  body x s = (s', Return tt) -> for_each (x :: xs) body s = for_each xs body s'.
Proof. intros H. exact (bind_Return (body x) (fun _ => for_each xs body) s s' tt H). Qed.

(** ** Events for a pool that was never initialized *)

(** The log is a Swap or a ModifyLiquidity whose pool has no row in [d]. *)
Definition missing_pool_event (d : Store) (log : Log.t) : Prop :=
  match Log.parsed log with
  | Some (Swap poolId _ _ _ _ _ _ _) => poolModel d !! poolId = None
  | Some (ModifyLiquidity poolId _ _ _ _ _) => poolModel d !! poolId = None
  | _ => False
  end.

Lemma handleSwapEvent_missing_pool (env : Env) (poolId sender : string)
    (amount0 amount1 sqrtPriceX96 liquidity tick : Z) (fee : FeeValue) (event : Log.t)
    (s : State) :
  poolModel (db s) !! poolId = None ->
  handleSwapEvent env poolId sender amount0 amount1 sqrtPriceX96 liquidity tick fee event s
  = (add_log WARN ("Pool not found for poolId: " +:+ poolId +:+ ". Skipping swap event.") s,
     Return tt).
Proof.
  intros Hp. unfold handleSwapEvent, bind, get. rewrite Hp. reflexivity.
Qed.

Lemma handleModifyLiquidityEvent_missing_pool (env : Env) (poolId sender : string)
    (tickLower tickUpper liquidityDelta : Z) (salt : string) (event : Log.t) (s : State) :
  poolModel (db s) !! poolId = None ->
  handleModifyLiquidityEvent env poolId sender tickLower tickUpper liquidityDelta salt event s
  = (add_log WARN ("Pool not found for poolId: " +:+ poolId
                   +:+ ". Skipping ModifyLiquidity event.") s,
     Return tt).
Proof.
  intros Hp. unfold handleModifyLiquidityEvent, try_catch, bind, get. rewrite Hp. reflexivity.
Qed.

Lemma syncLog_missing_pool (env : Env) (log : Log.t) (s : State) :
  missing_pool_event (db s) log ->
  exists msg, syncLog env log s = (add_log WARN msg s, Return tt).
Proof.
  unfold missing_pool_event, syncLog. intros Hm.
  destruct (Log.parsed log) as [[| poolId ? ? ? ? ? ? ? | poolId ? ? ? ? ?]|];
    try contradiction; eexists; apply try_catch_Return; simpl.
  - apply handleSwapEvent_missing_pool. exact Hm.
  - apply handleModifyLiquidityEvent_missing_pool. exact Hm.
Qed.

Lemma processEntry_missing_pool (env : Env) (log : Log.t) (s : State) :
  isSyncing s = false ->
  missing_pool_event (db s) log ->
  exists msg, processEntry env log s = (add_log WARN msg s, Return tt).
Proof.
  unfold missing_pool_event, processEntry. intros Hs Hm.
  destruct (Log.parsed log) as [[| poolId ? ? ? ? ? ? ? | poolId ? ? ? ? ?]|];
    try contradiction; eexists; apply try_catch_Return;
    unfold bind, get; cbv beta iota; rewrite Hs; simpl.
  - unfold handleSwapEventFromLog. apply handleSwapEvent_missing_pool. exact Hm.
  - unfold handleModifyLiquidityEventFromLog.
    apply handleModifyLiquidityEvent_missing_pool. exact Hm.
Qed.

(** A batch made of such events only logs. *)
Lemma for_each_syncLog_missing_pool (env : Env) (logs : list Log.t) (s : State) :
  Forall (missing_pool_event (db s)) logs ->
  exists s',
    for_each logs (syncLog env) s = (s', Return tt)
    /\ db s' = db s /\ clock s' = clock s.
Proof.
  revert s. induction logs as [|log logs IH]; intros s Hall.
  - exists s. repeat split.
  - inversion Hall as [|? ? Hlog Hrest]; subst.
    destruct (syncLog_missing_pool env log s Hlog) as [msg Hrun].
    destruct (IH (add_log WARN msg s) Hrest) as (s' & Hfor & Hdb & Hclock).
    exists s'. split; [|split; assumption].
    rewrite (for_each_cons _ _ _ _ _ Hrun). exact Hfor.
Qed.

(** C7. A Swap or ModifyLiquidity event whose pool has no row makes its
    handler log a warning and return with every collection unchanged,
    whichever way the event reached the handler. The backfill round holding
    such events returns and still advances SyncState: the row of the pool
    manager has [lastSyncedBlock] at the end of the batch, [currentBlock] at
    the head, the completion flag saying whether the two have met, and the
    time of the commit; nothing else in the database has changed. *)
Theorem C7_missing_pool_event_skipped (env : Env) (s : State) :
  (forall poolId sender amount0 amount1 sqrtPriceX96 liquidity tick fee event,
     poolModel (db s) !! poolId = None ->
     exists msg s',
       handleSwapEvent env poolId sender amount0 amount1 sqrtPriceX96 liquidity tick fee event s
       = (s', Return tt)
       /\ db s' = db s /\ logged s' = logged s ++ [(WARN, msg)])
  /\ (forall poolId sender tickLower tickUpper liquidityDelta salt event,
        poolModel (db s) !! poolId = None ->
        exists msg s',
          handleModifyLiquidityEvent env poolId sender tickLower tickUpper liquidityDelta
                                     salt event s
          = (s', Return tt)
          /\ db s' = db s /\ logged s' = logged s ++ [(WARN, msg)])
  /\ (forall fromBlock toBlock currentBlock logs,
        getLogs env fromBlock toBlock = inr logs ->
        Forall (missing_pool_event (db s)) logs ->
        exists s',
          syncRound env currentBlock (fromBlock, toBlock) s = (s', Return tt)
          /\ poolModel (db s') = poolModel (db s)
          /\ swapEventModel (db s') = swapEventModel (db s)
          /\ tokenModel (db s') = tokenModel (db s)
          /\ (forall i, getModelByInterval i (db s') = getModelByInterval i (db s))
          /\ (forall syncState,
                syncStateModel (db s) !! uniswapV4PoolManagerAddress env = Some syncState ->
                syncStateModel (db s')
                = <[uniswapV4PoolManagerAddress env :=
                      SyncState.mk (SyncState.poolManagerAddress syncState)
                                   toBlock currentBlock (currentBlock <=? toBlock)
                                   (Some (clock s))]> (syncStateModel (db s)))).
Proof.
  split; [|split].
  - intros. eexists _, _. split.
    + apply handleSwapEvent_missing_pool. assumption.
    + split; reflexivity.
  - intros. eexists _, _. split.
    + apply handleModifyLiquidityEvent_missing_pool. assumption.
    + split; reflexivity.
  - intros fromBlock toBlock currentBlock logs Hlogs Hall.
    set (s1 := add_log LOG ("Syncing blocks " +:+ show_Z fromBlock +:+ " to "
                            +:+ show_Z toBlock) s).
    set (s2 := add_log LOG ("Found " +:+ show_Z (Z.of_nat (length logs))
                            +:+ " events in blocks " +:+ show_Z fromBlock +:+ "-"
                            +:+ show_Z toBlock) s1).
    destruct (for_each_syncLog_missing_pool env logs s2 Hall) as (s3 & Hfor & Hdb & Hclock).
    assert (Hbatch : syncBatch env fromBlock toBlock s1 = (s3, Return tt)).
    { unfold syncBatch. apply try_catch_Return.
      unfold bind at 1. rewrite Hlogs. simpl.
      unfold bind at 1. simpl. exact Hfor. }
    eexists. split.
    + unfold syncRound. unfold bind at 1. simpl.
      rewrite (bind_Return _ _ _ _ _ Hbatch).
      unfold bind, get, update_db, modify. simpl. reflexivity.
    + simpl. rewrite Hdb, Hclock.
      refine (conj eq_refl (conj eq_refl (conj eq_refl (conj _ _)))).
      * intros []; reflexivity.
      * intros syncState Hrow. unfold updateOne. simpl.
        apply map_eq. intros k.
        destruct (decide (k = uniswapV4PoolManagerAddress env)) as [->|Hk].
        -- rewrite lookup_alter_eq, lookup_insert_eq, Hrow. reflexivity.
        -- rewrite lookup_alter_ne, lookup_insert_ne by congruence. reflexivity.
Qed.

(** ** A frame rule for the services

    Every write of the two services is one of a few primitive writes on a
    collection. A preorder on databases that each of these writes respects
    is respected by every operation of the services. *)

Section Frame.

Variable R : Store -> Store -> Prop.

Hypothesis R_refl : forall d, R d d.
Hypothesis R_trans : forall a b c, R a b -> R b c -> R a c.
Hypothesis R_pool : forall f d, R d (set_poolModel f d).
Hypothesis R_swap : forall f d, R d (set_swapEventModel f d).
Hypothesis R_token : forall f d, R d (set_tokenModel f d).
Hypothesis R_sync_update : forall k f d, R d (set_syncStateModel (updateOne k f) d).
Hypothesis R_sync_insert : forall k v d, R d (set_syncStateModel <[k := v]> d).
Hypothesis R_candle_create : forall i k v d,
  getModelByInterval i d !! k = None ->
  R d (set_candleModel i (fun _ => <[k := v]> (getModelByInterval i d)) d).
Hypothesis R_candle_update : forall i k f r d,
  getModelByInterval i d !! k = Some r -> Candle.status r = CURRENT ->
  R d (set_candleModel i (updateOne k f) d).
Hypothesis R_candle_finalize : forall i date d,
  R d (set_candleModel i
         (fmap (fun r => if (Candle.date r =? date)
                            && RecordStatus_eqb (Candle.status r) CURRENT
                         then Candle.finalize r else r)) d).

Definition step_at {A} (m : M A) (s : State) : Prop := R (db s) (db (fst (m s))).

Definition steps {A} (m : M A) : Prop := forall s, step_at m s.

Lemma ret_at {A} (a : A) s : step_at (ret a) s.
Proof. apply R_refl. Qed.

Lemma throw_at {A} (e : Exn) s : step_at (@throw A e) s.
Proof. apply R_refl. Qed.

Lemma of_result_at {A} (r : Exn + A) s : step_at (of_result r) s.
Proof. destruct r; apply R_refl. Qed.

Lemma logger_at l msg s : step_at (logger l msg) s.
Proof. apply R_refl. Qed.

Lemma emit_at e s : step_at (emit e) s.
Proof. apply R_refl. Qed.

Lemma set_cache_at f s : step_at (modify (set_cache f)) s.
Proof. apply R_refl. Qed.

Lemma set_isSyncing_at b s : step_at (modify (set_isSyncing b)) s.
Proof. apply R_refl. Qed.

Lemma bind_at {A B} (m : M A) (k : A -> M B) s :
  step_at m s ->
  (forall a s', m s = (s', Return a) -> step_at (k a) s') ->
  step_at (bind m k) s.
Proof.
  unfold step_at, bind. intros Hm Hk.
  destruct (m s) as [s' [a|e]] eqn:Hrun; simpl in *.
  - eapply R_trans; [exact Hm|]. apply Hk. reflexivity.
  - exact Hm.
Qed.

Lemma bind_get_at {B} (k : State -> M B) s :
  step_at (k s) s -> step_at (bind get k) s.
Proof. unfold step_at, bind, get. trivial. Qed.

Lemma try_catch_at {A} (m : M A) (h : Exn -> M A) s :
  step_at m s ->
  (forall e s', m s = (s', Throw e) -> step_at (h e) s') ->
  step_at (try_catch m h) s.
Proof.
  unfold step_at, try_catch. intros Hm Hh.
  destruct (m s) as [s' [a|e]] eqn:Hrun; simpl in *.
  - exact Hm.
  - eapply R_trans; [exact Hm|]. apply Hh. reflexivity.
Qed.

Lemma for_each_steps {A} (xs : list A) (body : A -> M unit) :
  (forall x, steps (body x)) -> steps (for_each xs body).
Proof.
  intros Hb. induction xs as [|x xs IH]; intros s.
  - apply ret_at.
  - simpl. apply bind_at; [apply Hb | intros; apply IH].
Qed.

Lemma settle_at {A} (m : M A) s : step_at m s -> step_at (settle m) s.
Proof. unfold step_at, settle. destruct (m s). trivial. Qed.

Lemma resume_at {A} (r : Outcome A) s : step_at (resume r) s.
Proof. apply R_refl. Qed.

Lemma Promise_all3_steps (m1 m2 m3 : M unit) :
  steps m1 -> steps m2 -> steps m3 -> steps (Promise_all3 m1 m2 m3).
Proof.
  intros H1 H2 H3 s. unfold Promise_all3.
  apply bind_at; [apply settle_at, H1 | intros r1 s1 _].
  apply bind_at; [apply settle_at, H2 | intros r2 s2 _].
  apply bind_at; [apply settle_at, H3 | intros r3 s3 _].
  apply bind_at; [apply resume_at | intros _ s4 _].
  apply bind_at; [apply resume_at | intros _ s5 _].
  apply resume_at.
Qed.

(** One step through a monadic term. *)
Ltac frame_step :=
  lazymatch goal with
  | |- steps _ => intros ?
  | |- step_at (bind get _) _ => apply bind_get_at
  | |- step_at (bind _ _) _ => apply bind_at; [|intros ? ? ?]
  | |- step_at (try_catch _ _) _ => apply try_catch_at; [|intros ? ? ?]
  | |- step_at (ret _) _ => apply ret_at
  | |- step_at (throw _) _ => apply throw_at
  | |- step_at null_token _ => apply throw_at
  | |- step_at null_block _ => apply throw_at
  | |- step_at (of_result _) _ => apply of_result_at
  | |- step_at (logger _ _) _ => apply logger_at
  | |- step_at (emit _) _ => apply emit_at
  | |- step_at (modify (set_cache _)) _ => apply set_cache_at
  | |- step_at (modify (set_isSyncing _)) _ => apply set_isSyncing_at
  | |- step_at (if ?b then _ else _) _ => destruct b eqn:?
  | |- step_at (match ?x with _ => _ end) _ => destruct x eqn:?
  end.

Context (env : Env).

Lemma fetchTokenMetadata_steps a : steps (fetchTokenMetadata env a).
Proof. unfold fetchTokenMetadata. repeat frame_step. Qed.

Lemma getNativePriceInUSD_steps : steps (getNativePriceInUSD env).
Proof. unfold getNativePriceInUSD. repeat frame_step. Qed.

Lemma findNativePerToken_steps t w st mn : steps (findNativePerToken env t w st mn).
Proof.
  unfold findNativePerToken. repeat frame_step.
  apply getNativePriceInUSD_steps.
Qed.

Lemma update_pool_at f s : step_at (update_db (set_poolModel f)) s.
Proof. apply R_pool. Qed.

Lemma update_swap_at f s : step_at (update_db (set_swapEventModel f)) s.
Proof. apply R_swap. Qed.

Lemma update_token_at f s : step_at (update_db (set_tokenModel f)) s.
Proof. apply R_token. Qed.

Lemma create_inr {K} `{Countable K} {V} (k : K) (v : V) (m m' : gmap K V) :
  create k v m = inr m' -> m !! k = None /\ m' = <[k := v]> m.
Proof.
  unfold create. destruct (m !! k); [discriminate|].
  intros [= <-]. split; reflexivity.
Qed.

Lemma of_result_Return {A} (r : Exn + A) (a : A) s s' :
  of_result r s = (s', Return a) -> r = inr a /\ s' = s.
Proof.
  destruct r as [e|a']; unfold of_result, throw, ret; intros [= -> ->];
    split; reflexivity.
Qed.

Lemma updateOrCreateCurrentRecord_steps a i ts v vu fd cp tvl tvlu :
  steps (updateOrCreateCurrentRecord a i ts v vu fd cp tvl tvlu).
Proof.
  intros s. unfold updateOrCreateCurrentRecord, findOneCurrent.
  apply bind_get_at.
  destruct (getModelByInterval i (db s) !! (a, roundTimestamp ts i)) as [r|] eqn:Hr.
  - destruct (RecordStatus_eqb (Candle.status r) CURRENT) eqn:Hst.
    + eapply R_candle_update; [exact Hr|].
      destruct (Candle.status r); [reflexivity | discriminate].
    + apply bind_at; [apply of_result_at|]. intros m' s' Hc.
      apply of_result_Return in Hc. destruct Hc as [Hc ->].
      apply create_inr in Hc. destruct Hc as [Hc _]. congruence.
  - apply bind_at; [apply of_result_at|]. intros m' s' Hc.
    apply of_result_Return in Hc. destruct Hc as [Hc ->].
    apply create_inr in Hc. destruct Hc as [Hnone ->].
    apply R_candle_create. exact Hnone.
Qed.

Lemma updateCurrentRecord_steps swap a b : steps (updateCurrentRecord env swap a b).
Proof.
  unfold updateCurrentRecord.
  repeat first
    [ apply update_token_at
    | apply fetchTokenMetadata_steps
    | apply findNativePerToken_steps
    | apply Promise_all3_steps; apply updateOrCreateCurrentRecord_steps
    | frame_step ].
Qed.

Lemma processSwapEvent_steps swap : steps (processSwapEvent env swap).
Proof.
  unfold processSwapEvent.
  repeat first [ apply updateCurrentRecord_steps | frame_step ].
Qed.

Lemma processTokenWhitelistUpdate_steps a p : steps (processTokenWhitelistUpdate a p).
Proof.
  unfold processTokenWhitelistUpdate.
  repeat first [ apply update_token_at | frame_step ].
Qed.


Lemma fetchTokenDecimals_steps a : steps (fetchTokenDecimals env a).
Proof. unfold fetchTokenDecimals. repeat frame_step. Qed.

Lemma updateTokenWhitelists_steps p c0 c1 : steps (updateTokenWhitelists env p c0 c1).
Proof.
  unfold updateTokenWhitelists, updateTokenWhitelist.
  repeat first [ apply processTokenWhitelistUpdate_steps | frame_step ].
Qed.

Lemma handleInitializeEvent_steps id c0 c1 fee ts hooks sp tick ev :
  steps (handleInitializeEvent env id c0 c1 fee ts hooks sp tick ev).
Proof.
  unfold handleInitializeEvent.
  repeat first
    [ apply update_pool_at
    | apply fetchTokenDecimals_steps
    | apply updateTokenWhitelists_steps
    | frame_step ].
Qed.

Lemma update_sync_at k f s : step_at (update_db (set_syncStateModel (updateOne k f))) s.
Proof. apply R_sync_update. Qed.

Lemma handleSwapEvent_steps p sd a0 a1 sp liq tick fee ev :
  steps (handleSwapEvent env p sd a0 a1 sp liq tick fee ev).
Proof.
  unfold handleSwapEvent.
  repeat first
    [ apply update_pool_at
    | apply update_swap_at
    | apply update_sync_at
    | apply fetchTokenDecimals_steps
    | apply processSwapEvent_steps
    | frame_step ].
Qed.

Lemma handleModifyLiquidityEvent_steps p sd tl tu ld salt ev :
  steps (handleModifyLiquidityEvent env p sd tl tu ld salt ev).
Proof.
  unfold handleModifyLiquidityEvent.
  repeat first [ apply update_pool_at | frame_step ].
Qed.

Lemma dispatch_steps pl log : steps (dispatch env pl log).
Proof.
  destruct pl; simpl.
  - apply handleInitializeEvent_steps.
  - apply handleSwapEvent_steps.
  - apply handleModifyLiquidityEvent_steps.
Qed.


Lemma syncLog_steps log : steps (syncLog env log).
Proof.
  unfold syncLog. repeat first [ apply dispatch_steps | frame_step ].
Qed.

Lemma syncBatch_steps f t : steps (syncBatch env f t).
Proof.
  unfold syncBatch.
  repeat first [ apply for_each_steps; intros ?; apply syncLog_steps | frame_step ].
Qed.





End Frame.

(** ** Finalized candles *)


Definition TimeInterval_eqb (a b : TimeInterval) : bool :=
  match a, b with
  | MINUTE, MINUTE | HOUR, HOUR | DAY, DAY => true
  | _, _ => false
  end.

Lemma getModelByInterval_set_candleModel i j f d :
  getModelByInterval j (set_candleModel i f d)
  = if TimeInterval_eqb i j then f (getModelByInterval i d) else getModelByInterval j d.
Proof. destruct i, j; reflexivity. Qed.

Lemma TimeInterval_eqb_true i j : TimeInterval_eqb i j = true -> i = j.
Proof. destruct i, j; simpl; congruence. Qed.







(** The operations that act on the database: the backfill, the delivery of
    live logs, the three finalizers, and the passing of time. *)
Inductive Operation :=
  | Backfill (fuel : nat)
  | Deliver (eventQueue : list Log.t)
  | FinalizeRecords (interval : TimeInterval)
  | Tick (now : Z).

Definition set_clock (now : Z) (s : State) : State :=
  mkState (db s) (tokenDecimalsCache s) (isSyncing s) now (logged s) (emitted s).

Definition run (env : Env) (op : Operation) (s : State) : State :=
  match op with
  | Backfill fuel => fst (syncHistoricalEvents env fuel s)
  | Deliver eventQueue => fst (processQueue env eventQueue s)
  | FinalizeRecords interval => fst (finalizeRecords interval s)
  | Tick now => set_clock now s
  end.

Definition run_all (env : Env) (ops : list Operation) (s : State) : State :=
  fold_left (fun s op => run env op s) ops s.

Section FinalizedKept.







End FinalizedKept.

Lemma bind_inv {A B} (m : M A) (k : A -> M B) (s s' : State) (b : B) :
  bind m k s = (s', Return b) ->
  exists a s1, m s = (s1, Return a) /\ k a s1 = (s', Return b).
Proof.
  unfold bind. destruct (m s) as [s1 [a|e]]; [|discriminate].
  intros H. exists a, s1. split; [reflexivity | exact H].
Qed.

Lemma Promise_all3_inv (m1 m2 m3 : M unit) (s s' : State) :
  Promise_all3 m1 m2 m3 s = (s', Return tt) ->
  exists s1 s2,
    m1 s = (s1, Return tt) /\ m2 s1 = (s2, Return tt) /\ m3 s2 = (s', Return tt).
Proof.
  unfold Promise_all3, bind, settle, resume.
  destruct (m1 s) as [s1 [[]|e1]] eqn:H1; destruct (m2 s1) as [s2 [[]|e2]] eqn:H2;
    destruct (m3 s2) as [s3 [[]|e3]] eqn:H3; simpl; try discriminate.
  intros [= <-]. exists s1, s2. repeat split; assumption.
Qed.


(** A swap whose bucket is finalized: the write of the candle is rejected
    by the unique index and nothing changes. *)
Lemma updateOrCreateCurrentRecord_finalized a i ts v vu fd cp tvl tvlu s r :
  getModelByInterval i (db s) !! (a, roundTimestamp ts i) = Some r ->
  Candle.status r = FINALIZED ->
  updateOrCreateCurrentRecord a i ts v vu fd cp tvl tvlu s = (s, Throw DuplicateKey).
Proof.
  intros Hr Hfin. unfold updateOrCreateCurrentRecord, findOneCurrent, bind, get.
  rewrite Hr, Hfin. simpl. unfold create. rewrite Hr. reflexivity.
Qed.




(** ** The scenarios of the specification, as runs of the model *)

Module Scenario.

Definition weth : string := "0xc0we".
Definition dai : string := "0xdai".
Definition poolA : string := "0xaa".
Definition poolB : string := "0xbb".

(** Blocks are 12 seconds apart; [head] is the head block and the chain
    has no logs of its own; [logs] is what [getLogs] returns for any range. *)
Definition envAt (head : Z) (logs : list Log.t) : Env :=
  mkEnv "0xpm" 100 1000 EmptyString false weth [weth] [] head
        (fun b => if b <? 200 then Some (1700000000 + 12 * b) else None)
        (fun _ _ => inr logs)
        (fun _ => Some 18) (fun _ => Some "DAI") (fun _ => Some "Dai Stablecoin")
        (fun _ _ _ _ _ => inr 0) (fun _ _ _ _ _ => inr 0).

(** The chain with block 105 as its head. *)
Definition envWith (logs : list Log.t) : Env := envAt 105 logs.

Definition env : Env := envWith [].

Definition initial : State := mkState emptyStore ∅ false 0 [] [].

(** S1: the pool is initialized at price 1. *)
Definition S1 : Log.t :=
  Log.mk 101 0 "0xtx1"
    (Some (Initialize poolA weth dai 3000 60 ZERO_ADDRESS
                      79228162514264337593543950336 0)).

(** S2: a single swap. *)
Definition S2 : Log.t :=
  Log.mk 101 1 "0xtx2"
    (Some (Swap poolA "0xsender" 1000000000000000000 (-2000000000000000000)
                79228162514264337593543950336 5000000000000000000 100 3000)).

(** A second swap, of the next block and of the same minute. *)
Definition S2' : Log.t :=
  Log.mk 102 0 "0xtx3"
    (Some (Swap poolA "0xsender" 500000000000000000 (-1000000000000000000)
                79228162514264337593543950336 5000000000000000000 100 3000)).

(** The minute of block 101 and the start of the next one. *)
Definition minute101 : Z := 1700001180000.
Definition nextMinute : Z := 1700001240000.

(** S1 arrives on the live queue of a service that has an empty database. *)
Definition afterS1 : State := run env (Deliver [S1]) initial.

(** S1 and S2 are found by the backfill of a service that starts on an empty
    database when block 101 is the head. (On the live queue S2 would not be
    stored: its [fee] is a [bigint] there.) *)
Definition afterS2 : State := run (envAt 101 [S1; S2]) (Backfill 1) initial.

(** S3: the minute candle of S2 is finalized. *)
Definition afterS3 : State :=
  run_all env [Tick nextMinute; FinalizeRecords MINUTE] afterS2.

(** S4: the same log stream is delivered again, in a second [syncBatch] of
    the blocks 100 to 101. *)
Definition afterS4 : State := fst (syncBatch (envAt 101 [S1; S2]) 100 101 afterS2).

(** One block later the service starts again, and its backfill finds [S2']. *)
Definition lateSwap (s : State) : State := run (envAt 102 [S2']) (Backfill 1) s.

End Scenario.

Example S1_pool_init :
  (fun p => (Pool.token0Price p, Pool.token1Price p))
    <$> poolModel (db Scenario.afterS1) !! Scenario.poolA
  = Some ("1", "1").
Proof. vm_compute. reflexivity. Qed.

Example S2_single_swap :
  (fun t => (Token.volume t, Token.txCount t))
    <$> tokenModel (db Scenario.afterS2) !! Scenario.weth
  = Some (1000000000000000000, 1)
  /\ (fun c => (Candle.volume c, Candle.txCount c, Candle.status c))
       <$> tokenMinuteModel (db Scenario.afterS2) !! (Scenario.weth, Scenario.minute101)
     = Some (1000000000000000000, 1, CURRENT).
Proof. vm_compute. split; reflexivity. Qed.

Example S3_finalize_minute :
  Candle.status
    <$> tokenMinuteModel (db Scenario.afterS3) !! (Scenario.weth, Scenario.minute101)
  = Some FINALIZED
  /\ length (emitted Scenario.afterS3) = 3%nat.
Proof. vm_compute. split; reflexivity. Qed.



Definition C5_row : Candle.t :=
  Candle.mk Scenario.weth Scenario.minute101 FINALIZED 1000000000000000000
            "0.000000" "0.000000" 0 "0.000000" "1.000000" "0.000000"
            "1.000000" "1.000000" "1.000000" "1.000000" 1.


(** An orphan swap and an orphan liquidity change, for a pool that was never
    initialized, and a state that already has its SyncState row. *)
Definition C7_logs : list Log.t :=
  [ Log.mk 102 0 "0xtx4"
      (Some (Swap Scenario.poolB "0xsender" 7 (-7) 79228162514264337593543950336 1 0 500));
    Log.mk 103 0 "0xtx5"
      (Some (ModifyLiquidity Scenario.poolB "0xsender" (-60) 60 1000 "0x00")) ].

Definition C7_state : State :=
  mkState (set_syncStateModel <["0xpm" := SyncState.mk "0xpm" 99 105 false None]> emptyStore)
          ∅ true 1700009999000 [] [].

Lemma C7_missing_pool_event_skipped_witness :
  (exists msg s',
     handleSwapEvent (Scenario.envWith C7_logs) Scenario.poolB "0xsender" 7 (-7)
                     79228162514264337593543950336 1 0 (fee_number 500)
                     (Log.mk 102 0 "0xtx4" None) C7_state
     = (s', Return tt)
     /\ db s' = db C7_state /\ logged s' = logged C7_state ++ [(WARN, msg)])
  /\ (exists s',
        syncRound (Scenario.envWith C7_logs) 105 (100, 105) C7_state = (s', Return tt)
        /\ poolModel (db s') = poolModel (db C7_state)
        /\ swapEventModel (db s') = swapEventModel (db C7_state)
        /\ tokenModel (db s') = tokenModel (db C7_state)
        /\ syncStateModel (db s')
           = <["0xpm" := SyncState.mk "0xpm" 105 105 true (Some 1700009999000)]>
               (syncStateModel (db C7_state))).
Proof.
  destruct (C7_missing_pool_event_skipped (Scenario.envWith C7_logs) C7_state)
    as (Hswap & _ & Hround).
  split.
  - apply Hswap. reflexivity.
  - destruct (Hround 100 105 105 C7_logs) as (s' & Hrun & Hp & Hs & Ht & _ & Hrow).
    + reflexivity.
    + repeat constructor.
    + exists s'. repeat split; try assumption.
      apply (Hrow (SyncState.mk "0xpm" 99 105 false None)). reflexivity.
Defined.

(** ** The backfill loop *)

(** The batches of a backfill of the blocks [fromBlock .. currentBlock];
    [n] bounds their number. *)
Fixpoint batches (n : nat) (batchSize fromBlock currentBlock : Z) : list (Z * Z) :=
  match n with
  | O => []
  | S n' =>
      if fromBlock <=? currentBlock then
        let toBlock := Z.min (fromBlock + batchSize - 1) currentBlock in
        (fromBlock, toBlock) :: batches n' batchSize (toBlock + 1) currentBlock
      else []
  end.

(** The blocks [a, a+1, ..., b]. *)
Definition blocks (a b : Z) : list Z :=
  map (fun i => a + Z.of_nat i) (seq 0 (Z.to_nat (b - a + 1))).

Lemma blocks_empty a b : b < a -> blocks a b = [].
Proof. intros H. unfold blocks. replace (Z.to_nat (b - a + 1)) with O by lia. reflexivity. Qed.

Lemma map_seq_shift {A} (f : nat -> A) (k len : nat) :
  map f (seq k len) = map (fun i => f (k + i)%nat) (seq 0 len).
Proof.
  revert k f. induction len as [|len IH]; intros k f; [reflexivity|].
  simpl. rewrite Nat.add_0_r. f_equal.
  rewrite (IH (S k)), (IH 1%nat). apply map_ext. intros i.
  f_equal. lia.
Qed.

Lemma blocks_split a b c : a <= b + 1 -> b <= c -> blocks a c = blocks a b ++ blocks (b + 1) c.
Proof.
  intros Hab Hbc. unfold blocks.
  replace (Z.to_nat (c - a + 1)) with (Z.to_nat (b - a + 1) + Z.to_nat (c - (b + 1) + 1))%nat
    by lia.
  rewrite seq_app, map_app. f_equal.
  rewrite map_seq_shift. apply map_ext. intros i. lia.
Qed.

Lemma batches_cover (n : nat) (batchSize fromBlock currentBlock : Z) :
  1 <= batchSize ->
  currentBlock - fromBlock + 1 <= Z.of_nat n ->
  flat_map (fun b => blocks (fst b) (snd b)) (batches n batchSize fromBlock currentBlock)
  = blocks fromBlock currentBlock.
Proof.
  intros Hbs. revert fromBlock.
  induction n as [|n IH]; intros fromBlock Hn; simpl.
  - rewrite blocks_empty by lia. reflexivity.
  - destruct (fromBlock <=? currentBlock) eqn:Hle.
    + apply Z.leb_le in Hle. simpl.
      rewrite IH by lia.
      symmetry. apply blocks_split; lia.
    + apply Z.leb_gt in Hle. rewrite blocks_empty by lia. reflexivity.
Qed.

Lemma batches_size (n : nat) (batchSize fromBlock currentBlock f t : Z) :
  1 <= batchSize ->
  In (f, t) (batches n batchSize fromBlock currentBlock) ->
  fromBlock <= f <= t /\ t <= currentBlock /\ t - f + 1 <= batchSize
  /\ t = Z.min (f + batchSize - 1) currentBlock.
Proof.
  intros Hbs. revert fromBlock.
  induction n as [|n IH]; intros fromBlock Hin; simpl in Hin; [contradiction|].
  destruct (fromBlock <=? currentBlock) eqn:Hle; [|contradiction].
  apply Z.leb_le in Hle.
  destruct Hin as [[= <- <-]|Hin].
  - lia.
  - apply IH in Hin. lia.
Qed.

(** With enough fuel the loop is the sequence of its rounds, one per batch:
    it does not stop early and does not run out of fuel. *)
Lemma syncLoop_rounds (env : Env) (fuel : nat) (fromBlock currentBlock : Z) (s : State) :
  1 <= syncBatchSize env ->
  currentBlock - fromBlock + 1 <= Z.of_nat fuel ->
  syncLoop env fuel fromBlock currentBlock s
  = (for_each (batches fuel (syncBatchSize env) fromBlock currentBlock)
              (syncRound env currentBlock) ;;
     ret (Some tt)) s.
Proof.
  intros Hbs. revert fromBlock s.
  induction fuel as [|fuel IH]; intros fromBlock s Hfuel; cbn [syncLoop batches].
  - replace (fromBlock <=? currentBlock) with false by (symmetry; apply Z.leb_gt; lia).
    reflexivity.
  - destruct (fromBlock <=? currentBlock) eqn:Hle; [|reflexivity].
    cbn [for_each]. rewrite bind_assoc.
    destruct (syncRound env currentBlock
                (fromBlock, Z.min (fromBlock + syncBatchSize env - 1) currentBlock) s)
      as [s1 [[]|e]] eqn:Hround.
    + rewrite (bind_Return _ (fun _ => syncLoop _ _ _ _) _ _ _ Hround).
      rewrite (bind_Return _ (fun _ => bind _ _) _ _ _ Hround).
      apply Z.leb_le in Hle. apply IH. lia.
    + rewrite (bind_Throw _ (fun _ => syncLoop _ _ _ _) _ _ _ Hround).
      rewrite (bind_Throw _ (fun _ => bind _ _) _ _ _ Hround).
      reflexivity.
Qed.

(** The SyncState row of the pool manager, once there, stays. *)
Definition sync_row_kept (pm : string) (d d' : Store) : Prop :=
  is_Some (syncStateModel d !! pm) -> is_Some (syncStateModel d' !! pm).

Lemma sync_row_kept_alter pm k f d :
  sync_row_kept pm d (set_syncStateModel (updateOne k f) d).
Proof.
  unfold sync_row_kept, updateOne. simpl. intros [st Hst].
  destruct (decide (k = pm)) as [->|Hne].
  - rewrite lookup_alter_eq, Hst. eexists. reflexivity.
  - rewrite lookup_alter_ne by exact Hne. rewrite Hst. eexists. reflexivity.
Qed.

Lemma sync_row_kept_insert pm k v d :
  sync_row_kept pm d (set_syncStateModel <[k := v]> d).
Proof.
  unfold sync_row_kept. simpl. intros [st Hst].
  destruct (decide (k = pm)) as [->|Hne].
  - rewrite lookup_insert_eq. eexists. reflexivity.
  - rewrite lookup_insert_ne by exact Hne. rewrite Hst. eexists. reflexivity.
Qed.

Lemma sync_row_kept_other pm d d' :
  syncStateModel d' = syncStateModel d -> sync_row_kept pm d d'.
Proof. unfold sync_row_kept. intros ->. trivial. Qed.

Lemma sync_row_kept_trans pm a b c :
  sync_row_kept pm a b -> sync_row_kept pm b c -> sync_row_kept pm a c.
Proof. unfold sync_row_kept. auto. Qed.

Lemma sync_row_kept_syncBatch env pm f t s :
  sync_row_kept pm (db s) (db (fst (syncBatch env f t s))).
Proof.
  apply (syncBatch_steps (sync_row_kept pm));
    first
      [ intros ?; apply sync_row_kept_other; reflexivity
      | apply sync_row_kept_trans
      | apply sync_row_kept_alter
      | intros ? ?; apply sync_row_kept_other; reflexivity
      | intros i ? ? ? ?; apply sync_row_kept_other; destruct i; reflexivity
      | intros i ? ? ? ? ? ?; apply sync_row_kept_other; destruct i; reflexivity ].
Qed.

(** After a round that returns, SyncState holds the end of the batch, and
    the completion flag says whether that end is the head. *)
Lemma syncRound_commit (env : Env) (currentBlock f t : Z) (s s' : State) :
  is_Some (syncStateModel (db s) !! uniswapV4PoolManagerAddress env) ->
  syncRound env currentBlock (f, t) s = (s', Return tt) ->
  exists st,
    syncStateModel (db s') !! uniswapV4PoolManagerAddress env = Some st
    /\ SyncState.lastSyncedBlock st = t
    /\ SyncState.currentBlock st = currentBlock
    /\ SyncState.isInitialSyncComplete st = (currentBlock <=? t).
Proof.
  intros Hrow Hrun. unfold syncRound in Hrun.
  apply bind_inv in Hrun as ([] & s1 & Hlog & Hrun).
  apply bind_inv in Hrun as ([] & s2 & Hbatch & Hrun).
  apply bind_inv in Hrun as (s2' & s3 & Hget & Hrun).
  injection Hlog as <-. injection Hget as <- <-.
  injection Hrun as <-.
  pose proof (sync_row_kept_syncBatch env (uniswapV4PoolManagerAddress env) f t
                (add_log LOG ("Syncing blocks " +:+ show_Z f +:+ " to " +:+ show_Z t) s)
                Hrow) as [st Hst].
  rewrite Hbatch in Hst. simpl in Hst.
  simpl. unfold updateOne. rewrite lookup_alter_eq, Hst. simpl.
  eexists. split; [reflexivity|]. repeat split.
Qed.

Lemma rounds_commit (env : Env) (currentBlock : Z) (bl : list (Z * Z)) (s s' : State) :
  is_Some (syncStateModel (db s) !! uniswapV4PoolManagerAddress env) ->
  for_each bl (syncRound env currentBlock) s = (s', Return tt) ->
  bl <> [] ->
  exists st,
    syncStateModel (db s') !! uniswapV4PoolManagerAddress env = Some st
    /\ SyncState.lastSyncedBlock st = snd (List.last bl (0, 0))
    /\ SyncState.isInitialSyncComplete st = (currentBlock <=? snd (List.last bl (0, 0))).
Proof.
  revert s. induction bl as [|[f t] bl IH]; intros s Hrow Hrun Hne; [congruence|].
  cbn [for_each] in Hrun. apply bind_inv in Hrun as ([] & s1 & Hround & Hrest).
  destruct (syncRound_commit env currentBlock f t s s1 Hrow Hround)
    as (st & Hst & Hlast & _ & Hflag).
  destruct bl as [|b bl].
  - injection Hrest as <-. exists st. simpl. auto.
  - apply IH in Hrest; [|rewrite Hst; eexists; reflexivity | discriminate].
    exact Hrest.
Qed.

Lemma batches_last (n : nat) (batchSize fromBlock currentBlock : Z) :
  1 <= batchSize ->
  currentBlock - fromBlock + 1 <= Z.of_nat n ->
  fromBlock <= currentBlock ->
  batches n batchSize fromBlock currentBlock <> []
  /\ snd (List.last (batches n batchSize fromBlock currentBlock) (0, 0)) = currentBlock.
Proof.
  intros Hbs. revert fromBlock.
  induction n as [|n IH]; intros fromBlock Hn Hle; [lia|].
  cbn [batches]. replace (fromBlock <=? currentBlock) with true by (symmetry; lia).
  split; [discriminate|].
  set (toBlock := Z.min (fromBlock + batchSize - 1) currentBlock).
  destruct (Z.le_gt_cases (toBlock + 1) currentBlock) as [Hmore|Hdone].
  - destruct (IH (toBlock + 1)) as [Hne Hlast]; [lia | lia |].
    destruct (batches n batchSize (toBlock + 1) currentBlock) as [|b bl] eqn:Hb;
      [congruence|].
    exact Hlast.
  - destruct n as [|n]; simpl.
    + lia.
    + replace (toBlock + 1 <=? currentBlock) with false by (symmetry; lia).
      simpl. lia.
Qed.

Lemma bind_ext_l {A B} (m m' : M A) (k : A -> M B) (s : State) :
  m s = m' s -> bind m k s = bind m' k s.
Proof. unfold bind. intros ->. reflexivity. Qed.

Lemma bind_ext_r {A B} (m : M A) (k k' : A -> M B) (s : State) :
  (forall a s', k a s' = k' a s') -> bind m k s = bind m k' s.
Proof. unfold bind. intros H. destruct (m s) as [s' [a|e]]; [apply H | reflexivity]. Qed.

Lemma try_catch_ext {A} (m m' : M A) (h : Exn -> M A) (s : State) :
  m s = m' s -> try_catch m h s = try_catch m' h s.
Proof. unfold try_catch. intros ->. reflexivity. Qed.

(** Where a backfill resumes: after the block recorded in SyncState, or at
    [startingBlock] when there is no row yet. *)
Definition resumeAfter (env : Env) (row : option SyncState.t) : Z :=
  match row with
  | Some st => SyncState.lastSyncedBlock st
  | None => startingBlock env - 1
  end.

(** Phase A in the words of the specification: from [lastSyncedBlock + 1]
    to the head in batches of [syncBatchSize] blocks, each batch fetched and
    dispatched and then committed; [row] is the SyncState row read at the
    start, created when it is missing. *)
Definition backfill_spec (env : Env) (fuel : nat) (row : option SyncState.t)
    : M (option unit) :=
  modify (set_isSyncing true) ;;
  try_catch
    (match row with
     | None =>
         update_db (set_syncStateModel
           <[uniswapV4PoolManagerAddress env :=
               SyncState.mk (uniswapV4PoolManagerAddress env) (startingBlock env - 1)
                            (getBlockNumber env) false None]>) ;;
         logger LOG ("Starting initial sync from block " +:+ show_Z (startingBlock env))
     | Some st =>
         if SyncState.isInitialSyncComplete st
         then logger LOG ("Resuming sync from block "
                          +:+ show_Z (SyncState.lastSyncedBlock st + 1)
                          +:+ " to " +:+ show_Z (getBlockNumber env))
         else logger LOG ("Continuing incomplete sync from block "
                          +:+ show_Z (SyncState.lastSyncedBlock st + 1))
     end ;;
     for_each (batches fuel (syncBatchSize env) (resumeAfter env row + 1)
                       (getBlockNumber env))
              (syncRound env (getBlockNumber env)) ;;
     logger LOG "Historical sync complete! Ready to listen for new events." ;;
     modify (set_isSyncing false) ;;
     ret (Some tt))
    (fun error =>
       logger ERROR "Error during historical sync" ;;
       modify (set_isSyncing false) ;;
       throw error).

Lemma bind_modify {B} (f : State -> State) (k : unit -> M B) (s : State) :
  bind (modify f) k s = k tt (f s).
Proof. reflexivity. Qed.

Lemma bind_logger {B} (l : Level) (msg : string) (k : unit -> M B) (s : State) :
  bind (logger l msg) k s = k tt (add_log l msg s).
Proof. reflexivity. Qed.

Lemma bind_update_db {B} (f : Store -> Store) (k : unit -> M B) (s : State) :
  bind (update_db f) k s = k tt (set_db f s).
Proof. reflexivity. Qed.

Lemma bind_get {B} (k : State -> M B) (s : State) : bind get k s = k s s.
Proof. reflexivity. Qed.

Lemma bind_ret {A B} (a : A) (k : A -> M B) (s : State) : bind (ret a) k s = k a s.
Proof. reflexivity. Qed.

Lemma syncHistoricalEvents_refines (env : Env) (fuel : nat) (s : State) :
  let row := syncStateModel (db s) !! uniswapV4PoolManagerAddress env in
  1 <= syncBatchSize env ->
  getBlockNumber env - resumeAfter env row <= Z.of_nat fuel ->
  syncHistoricalEvents env fuel s = backfill_spec env fuel row s.
Proof.
  intros row Hbs Hfuel. unfold syncHistoricalEvents, backfill_spec.
  rewrite !bind_modify. cbv zeta. apply try_catch_ext.
  rewrite bind_get. change (db (set_isSyncing true s)) with (db s).
  fold row. destruct row as [st|]; simpl resumeAfter in *.
  - rewrite bind_assoc. apply bind_ext_r. intros [] s1.
    rewrite bind_ret. cbv zeta.
    assert (Hfuel' : getBlockNumber env - (SyncState.lastSyncedBlock st + 1) + 1
                     <= Z.of_nat fuel) by lia.
    rewrite (bind_ext_l _ _ _ _ (syncLoop_rounds env fuel _ _ s1 Hbs Hfuel')).
    rewrite bind_assoc. apply bind_ext_r. intros [] s2.
    rewrite bind_ret. reflexivity.
  - rewrite !bind_assoc. apply bind_ext_r. intros [] s1.
    rewrite bind_assoc. apply bind_ext_r. intros [] s2.
    rewrite bind_ret. cbv zeta. cbn [SyncState.lastSyncedBlock].
    assert (Hfuel' : getBlockNumber env - (startingBlock env - 1 + 1) + 1
                     <= Z.of_nat fuel) by lia.
    rewrite (bind_ext_l _ _ _ _ (syncLoop_rounds env fuel _ _ s2 Hbs Hfuel')).
    rewrite bind_assoc. apply bind_ext_r. intros [] s3.
    rewrite bind_ret. reflexivity.
Qed.

(** A backfill that returns has caught up with the head. *)
Lemma backfill_spec_completes (env : Env) (fuel : nat) (s s' : State) (r : option unit) :
  let row := syncStateModel (db s) !! uniswapV4PoolManagerAddress env in
  1 <= syncBatchSize env ->
  getBlockNumber env - resumeAfter env row <= Z.of_nat fuel ->
  backfill_spec env fuel row s = (s', Return r) ->
  r = Some tt
  /\ (resumeAfter env row < getBlockNumber env ->
      exists st,
        syncStateModel (db s') !! uniswapV4PoolManagerAddress env = Some st
        /\ SyncState.lastSyncedBlock st = getBlockNumber env
        /\ SyncState.isInitialSyncComplete st = true).
Proof.
  intros row Hbs Hfuel Hrun. unfold backfill_spec in Hrun.
  rewrite bind_modify in Hrun. unfold try_catch in Hrun.
  match type of Hrun with
  | match ?body ?s1 with _ => _ end = _ =>
      destruct (body s1) as [s2 [r'|e]] eqn:Hbody; [|discriminate]
  end.
  injection Hrun as -> ->.
  apply bind_inv in Hbody as ([] & s1 & Hprefix & Hbody).
  apply bind_inv in Hbody as ([] & s3 & Hrounds & Hbody).
  injection Hbody as <- <-.
  split; [reflexivity|]. intros Hbehind.
  assert (Hrow1 : is_Some (syncStateModel (db s1) !! uniswapV4PoolManagerAddress env)).
  { subst row.
    destruct (syncStateModel (db s) !! uniswapV4PoolManagerAddress env) as [st|] eqn:Hrow.
    - destruct (SyncState.isInitialSyncComplete st); injection Hprefix as <-;
        simpl; rewrite Hrow; eexists; reflexivity.
    - injection Hprefix as <-. simpl. rewrite lookup_insert_eq. eexists. reflexivity. }
  destruct (batches_last fuel (syncBatchSize env) (resumeAfter env row + 1)
              (getBlockNumber env) Hbs) as [Hne Hlast]; [lia | lia |].
  destruct (rounds_commit env (getBlockNumber env) _ s1 s3 Hrow1 Hrounds Hne)
    as (st & Hst & Hblock & Hflag).
  exists st. simpl. split; [exact Hst|].
  rewrite Hlast in Hblock, Hflag. split; [exact Hblock|].
  rewrite Hflag. apply Z.leb_refl.
Qed.

(** C6. The backfill starts from [lastSyncedBlock + 1] ([startingBlock] on
    the first run), proceeds in consecutive batches of at most
    [syncBatchSize] blocks (1000 when not configured) that together are the
    blocks up to the head, commits [lastSyncedBlock = toBlock] after every
    batch, and sets [isInitialSyncComplete] to whether that batch reached the
    head; a backfill that returns has [lastSyncedBlock] at the head and the
    flag set. *)
Theorem C6_backfill_in_batches (env : Env) (fuel : nat) (s : State) :
  let row := syncStateModel (db s) !! uniswapV4PoolManagerAddress env in
  let fromBlock := resumeAfter env row + 1 in
  let currentBlock := getBlockNumber env in
  let bl := batches fuel (syncBatchSize env) fromBlock currentBlock in
  1 <= syncBatchSize env ->
  currentBlock - fromBlock + 1 <= Z.of_nat fuel ->
  syncHistoricalEvents env fuel s = backfill_spec env fuel row s
  /\ flat_map (fun b => blocks (fst b) (snd b)) bl = blocks fromBlock currentBlock
  /\ (forall f t, In (f, t) bl ->
        f <= t /\ t - f + 1 <= syncBatchSize env
        /\ ((currentBlock <=? t) = true <-> t = currentBlock))
  /\ (forall f t s1 s2,
        is_Some (syncStateModel (db s1) !! uniswapV4PoolManagerAddress env) ->
        syncRound env currentBlock (f, t) s1 = (s2, Return tt) ->
        exists st,
          syncStateModel (db s2) !! uniswapV4PoolManagerAddress env = Some st
          /\ SyncState.lastSyncedBlock st = t
          /\ SyncState.isInitialSyncComplete st = (currentBlock <=? t))
  /\ (forall s' r,
        syncHistoricalEvents env fuel s = (s', Return r) ->
        r = Some tt
        /\ (fromBlock <= currentBlock ->
            exists st,
              syncStateModel (db s') !! uniswapV4PoolManagerAddress env = Some st
              /\ SyncState.lastSyncedBlock st = currentBlock
              /\ SyncState.isInitialSyncComplete st = true))
  /\ configSyncBatchSize None = Some 1000.
Proof.
  intros row fromBlock currentBlock bl Hbs Hfuel.
  assert (Hfuel' : getBlockNumber env - resumeAfter env row <= Z.of_nat fuel)
    by (subst fromBlock currentBlock; lia).
  pose proof (syncHistoricalEvents_refines env fuel s Hbs Hfuel') as Hrefines.
  split; [exact Hrefines|].
  split; [apply batches_cover; assumption|].
  split.
  { intros f t Hin. apply batches_size in Hin; [|exact Hbs].
    split; [lia|]. split; [lia|]. rewrite Z.leb_le. lia. }
  split.
  { intros f t s1 s2 Hrow Hrun.
    destruct (syncRound_commit env currentBlock f t s1 s2 Hrow Hrun)
      as (st & Hst & Hblock & _ & Hflag).
    exists st. auto. }
  split; [|reflexivity].
  intros s' r Hrun. rewrite Hrefines in Hrun.
  destruct (backfill_spec_completes env fuel s s' r Hbs Hfuel' Hrun) as [Hr Hdone].
  split; [exact Hr|]. intros Hle. apply Hdone.
  unfold fromBlock, currentBlock in Hle. fold row. lia.
Qed.

(** A chain whose head is block 105, synced in batches of two blocks from a
    SyncState row at block 99. *)
Definition C6_env : Env :=
  mkEnv "0xpm" 100 2 EmptyString false Scenario.weth [Scenario.weth] [] 105
        (fun b => Some (1700000000 + 12 * b)) (fun _ _ => inr [])
        (fun _ => Some 18) (fun _ => None) (fun _ => None)
        (fun _ _ _ _ _ => inr 0) (fun _ _ _ _ _ => inr 0).

Lemma C6_backfill_in_batches_witness :
  batches 6 2 100 105 = [(100, 101); (102, 103); (104, 105)]
  /\ (forall s' r,
        syncHistoricalEvents C6_env 6 C7_state = (s', Return r) ->
        r = Some tt
        /\ exists st,
             syncStateModel (db s') !! "0xpm" = Some st
             /\ SyncState.lastSyncedBlock st = 105
             /\ SyncState.isInitialSyncComplete st = true).
Proof.
  split; [reflexivity|].
  intros s' r Hrun.
  destruct (C6_backfill_in_batches C6_env 6 C7_state) as (_ & _ & _ & _ & Hend & _).
  - simpl. lia.
  - vm_compute. discriminate.
  - destruct (Hend s' r Hrun) as [Hr Hdone]. split; [exact Hr|].
    apply Hdone. vm_compute. discriminate.
Defined.

Example C6_backfill_run :
  (fun st => (SyncState.lastSyncedBlock st, SyncState.isInitialSyncComplete st))
    <$> syncStateModel (db (fst (syncHistoricalEvents C6_env 6 C7_state))) !! "0xpm"
  = Some (105, true)
  /\ snd (syncHistoricalEvents C6_env 6 C7_state) = Return (Some tt).
Proof. vm_compute. split; reflexivity. Qed.

(** ** One bad event *)



Lemma processEntry_throw (env : Env) (log : Log.t) (pl : ParsedLog) (s s1 : State) (e : Exn) :
  isSyncing s = false ->
  Log.parsed log = Some pl ->
  dispatchFromLog env pl log s = (s1, Throw e) ->
  processEntry env log s = (add_log ERROR "Error processing event from queue" s1, Return tt).
Proof.
  intros Hs Hp Hd. unfold processEntry, try_catch.
  rewrite bind_get, Hs, Hp, Hd. reflexivity.
Qed.



Lemma syncLoop_throw (env : Env) (fuel : nat) (fromBlock currentBlock : Z)
    (s s' : State) (e : Exn) :
  fromBlock <= currentBlock ->
  syncRound env currentBlock
    (fromBlock, Z.min (fromBlock + syncBatchSize env - 1) currentBlock) s = (s', Throw e) ->
  syncLoop env (S fuel) fromBlock currentBlock s = (s', Throw e).
Proof.
  intros Hle Hround. cbn [syncLoop].
  replace (fromBlock <=? currentBlock) with true by (symmetry; lia).
  apply bind_Throw. exact Hround.
Qed.










(** ** Re-delivery of a swap *)

Lemma fetchTokenDecimals_returns (env : Env) (tokenAddress : string) (s : State) :
  exists decimals s',
    fetchTokenDecimals env tokenAddress s = (s', Return decimals) /\ db s' = db s.
Proof.
  unfold fetchTokenDecimals. rewrite bind_get.
  destruct (tokenDecimalsCache s !! tokenAddress) as [d|].
  - eexists _, _. split; reflexivity.
  - destruct (tokenAddress =? ZERO_ADDRESS)%string.
    + eexists _, _. split; reflexivity.
    + destruct (tokenModel (db s) !! tokenAddress) as [token|].
      * eexists _, _. split; reflexivity.
      * destruct (erc20_decimals env tokenAddress) as [d|];
          eexists _, _; split; reflexivity.
Qed.

Lemma fetchTokenDecimals_quiet (env : Env) (tokenAddress : string) (s : State) :
  exists decimals s',
    fetchTokenDecimals env tokenAddress s = (s', Return decimals)
    /\ db s' = db s /\ emitted s' = emitted s.
Proof.
  unfold fetchTokenDecimals. rewrite bind_get.
  destruct (tokenDecimalsCache s !! tokenAddress) as [d|].
  - eexists _, _. repeat split.
  - destruct (tokenAddress =? ZERO_ADDRESS)%string.
    + eexists _, _. repeat split.
    + destruct (tokenModel (db s) !! tokenAddress) as [token|].
      * eexists _, _. repeat split.
      * destruct (erc20_decimals env tokenAddress) as [d|];
          eexists _, _; repeat split.
Qed.

(** A swap whose [(transactionHash, logIndex)] is already stored, handed
    on with a number as its fee: the insert is rejected and logged as a
    warning, and SwapEvent, Token, the candles and SyncState are as before;
    but the pool row has been written before the insert was tried, with the
    amounts added to its locked values once more. *)
Lemma handleSwapEvent_duplicate (env : Env) (poolId sender : string)
    (amount0 amount1 sqrtPriceX96 liquidity tick fee : Z) (event : Log.t)
    (s : State) (pool : Pool.t) (timestamp : Z) :
  poolModel (db s) !! poolId = Some pool ->
  getBlock env (Log.blockNumber event) = Some timestamp ->
  is_Some (swapEventModel (db s) !! (Log.transactionHash event, Log.index event)) ->
  exists s' prices,
    handleSwapEvent env poolId sender amount0 amount1 sqrtPriceX96 liquidity tick
                    (fee_number fee) event s
    = (add_log WARN ("Duplicate swap event: " +:+ Log.transactionHash event) s', Return tt)
    /\ db s' = set_poolModel
                 (updateOne poolId
                    (poolAfterSwap sqrtPriceX96 tick prices liquidity
                       (Pool.totalValueLockedToken0 pool + amount0)
                       (Pool.totalValueLockedToken1 pool + amount1)))
                 (db s)
    /\ emitted s' = emitted s.
Proof.
  intros Hpool Hblock [old Hold]. unfold handleSwapEvent.
  rewrite bind_get, Hpool, Hblock.
  destruct (fetchTokenDecimals_quiet env (Pool.currency0 pool) s)
    as (d0 & s1 & Hd0 & Hdb1 & He1).
  destruct (fetchTokenDecimals_quiet env (Pool.currency1 pool) s1)
    as (d1 & s2 & Hd1 & Hdb2 & He2).
  rewrite (bind_Return _ _ _ _ _ Hd0), (bind_Return _ _ _ _ _ Hd1).
  rewrite bind_update_db. unfold try_catch.
  cbn [castNumber of_result]. rewrite bind_ret, bind_get.
  unfold create. simpl swapEventModel. rewrite Hdb2, Hdb1.
  unfold SwapEvent.key. simpl. rewrite Hold. simpl.
  eexists _, _. split; [reflexivity|].
  simpl. rewrite Hdb2, Hdb1, He2, He1. split; reflexivity.
Qed.

(** A swap handed on with a [bigint] as its fee, as the live queue does:
    the pool row is written, then the document is rejected by its schema and
    the handler lets the error out. Nothing is stored, emitted or
    aggregated. *)
Lemma handleSwapEvent_bigint_fee (env : Env) (poolId sender : string)
    (amount0 amount1 sqrtPriceX96 liquidity tick fee : Z) (event : Log.t)
    (s : State) (pool : Pool.t) (timestamp : Z) :
  poolModel (db s) !! poolId = Some pool ->
  getBlock env (Log.blockNumber event) = Some timestamp ->
  exists s' token0Decimals token1Decimals,
    handleSwapEvent env poolId sender amount0 amount1 sqrtPriceX96 liquidity tick
                    (fee_bigint fee) event s
    = (s', Throw ValidationError)
    /\ db s' = set_poolModel
                 (updateOne poolId
                    (poolAfterSwap sqrtPriceX96 tick
                       (sqrtPriceX96ToTokenPrices sqrtPriceX96
                          token0Decimals token1Decimals) liquidity
                       (Pool.totalValueLockedToken0 pool + amount0)
                       (Pool.totalValueLockedToken1 pool + amount1)))
                 (db s)
    /\ emitted s' = emitted s.
Proof.
  intros Hpool Hblock. unfold handleSwapEvent.
  rewrite bind_get, Hpool, Hblock.
  destruct (fetchTokenDecimals_quiet env (Pool.currency0 pool) s)
    as (d0 & s1 & Hd0 & Hdb1 & He1).
  destruct (fetchTokenDecimals_quiet env (Pool.currency1 pool) s1)
    as (d1 & s2 & Hd1 & Hdb2 & He2).
  rewrite (bind_Return _ _ _ _ _ Hd0), (bind_Return _ _ _ _ _ Hd1).
  rewrite bind_update_db. unfold try_catch.
  cbn [castNumber of_result]. unfold bind at 1, throw. cbn.
  eexists _, d0, d1. split; [reflexivity|].
  simpl. rewrite Hdb2, Hdb1, He2, He1. split; reflexivity.
Qed.

(** What the rewriting of a pool row by a swap leaves of the database. *)
Lemma pool_rewritten (poolId : string) (f : Pool.t -> Pool.t) (pool : Pool.t) (d d' : Store) :
  poolModel d !! poolId = Some pool ->
  d' = set_poolModel (updateOne poolId f) d ->
  poolModel d' !! poolId = Some (f pool)
  /\ (forall other, other <> poolId -> poolModel d' !! other = poolModel d !! other)
  /\ swapEventModel d' = swapEventModel d
  /\ tokenModel d' = tokenModel d
  /\ syncStateModel d' = syncStateModel d
  /\ (forall i, getModelByInterval i d' = getModelByInterval i d).
Proof.
  intros Hpool ->. unfold updateOne. simpl.
  rewrite lookup_alter_eq, Hpool.
  refine (conj eq_refl (conj _ (conj eq_refl (conj eq_refl (conj eq_refl _))))).
  - intros other Hne. apply lookup_alter_ne. congruence.
  - intros []; reflexivity.
Qed.

(** C1 fails on the code. Take a Swap event whose
    [(transactionHash, logIndex)] is already stored, for a pool that has a row,
    in a block the node returns. Handed on by the backfill, the duplicate is
    detected and logged as a warning and the handler returns, with SwapEvent,
    Token, the candles and SyncState as before; but the pool row was written
    before the insert was tried, and its locked amounts have grown by the
    amounts of the swap once more. Handed on by the live queue the pool row is
    written in the same way, and the handler fails on the insert. So when one
    of the two amounts is not 0 the Pool collection is not what it was before
    the re-delivery. *)
Theorem C1_duplicate_swap_changes_pool (env : Env) (poolId sender : string)
    (amount0 amount1 sqrtPriceX96 liquidity tick fee : Z) (event : Log.t)
    (s : State) (pool : Pool.t) (timestamp : Z) :
  poolModel (db s) !! poolId = Some pool ->
  getBlock env (Log.blockNumber event) = Some timestamp ->
  is_Some (swapEventModel (db s) !! (Log.transactionHash event, Log.index event)) ->
  let backfill :=
    handleSwapEvent env poolId sender amount0 amount1 sqrtPriceX96 liquidity tick
                    (fee_number fee) event s in
  let live :=
    handleSwapEventFromLog env poolId sender amount0 amount1 sqrtPriceX96 liquidity tick
                           fee event s in
  snd backfill = Return tt
  /\ (exists l,
        logged (fst backfill)
        = l ++ [(WARN, "Duplicate swap event: " +:+ Log.transactionHash event)])
  /\ snd live = Throw ValidationError
  /\ (forall s', s' = fst backfill \/ s' = fst live ->
        (exists pool',
           poolModel (db s') !! poolId = Some pool'
           /\ Pool.totalValueLockedToken0 pool' = Pool.totalValueLockedToken0 pool + amount0
           /\ Pool.totalValueLockedToken1 pool' = Pool.totalValueLockedToken1 pool + amount1)
        /\ (amount0 <> 0 \/ amount1 <> 0 -> poolModel (db s') <> poolModel (db s))
        /\ swapEventModel (db s') = swapEventModel (db s)
        /\ tokenModel (db s') = tokenModel (db s)
        /\ syncStateModel (db s') = syncStateModel (db s)
        /\ (forall i, getModelByInterval i (db s') = getModelByInterval i (db s))).
Proof.
  intros Hpool Hblock Hdup backfill live.
  destruct (handleSwapEvent_duplicate env poolId sender amount0 amount1 sqrtPriceX96
              liquidity tick fee event s pool timestamp Hpool Hblock Hdup)
    as (s1 & prices1 & Hrun1 & Hdb1 & _).
  destruct (handleSwapEvent_bigint_fee env poolId sender amount0 amount1 sqrtPriceX96
              liquidity tick fee event s pool timestamp Hpool Hblock)
    as (s2 & d0 & d1 & Hrun2 & Hdb2 & _).
  subst backfill live. unfold handleSwapEventFromLog. rewrite Hrun1, Hrun2. cbn [fst snd].
  split; [reflexivity|]. split; [exists (logged s1); reflexivity|].
  split; [reflexivity|].
  assert (G : forall prices d',
             d' = set_poolModel
                    (updateOne poolId
                       (poolAfterSwap sqrtPriceX96 tick prices liquidity
                          (Pool.totalValueLockedToken0 pool + amount0)
                          (Pool.totalValueLockedToken1 pool + amount1))) (db s) ->
             (exists pool',
                poolModel d' !! poolId = Some pool'
                /\ Pool.totalValueLockedToken0 pool'
                   = Pool.totalValueLockedToken0 pool + amount0
                /\ Pool.totalValueLockedToken1 pool'
                   = Pool.totalValueLockedToken1 pool + amount1)
             /\ (amount0 <> 0 \/ amount1 <> 0 -> poolModel d' <> poolModel (db s))
             /\ swapEventModel d' = swapEventModel (db s)
             /\ tokenModel d' = tokenModel (db s)
             /\ syncStateModel d' = syncStateModel (db s)
             /\ (forall i, getModelByInterval i d' = getModelByInterval i (db s))).
  { intros prices d' Hd'.
    destruct (pool_rewritten poolId _ pool (db s) d' Hpool Hd')
      as (Hrow & _ & Hs & Ht & Hy & Hc).
    split; [eexists; split; [exact Hrow|split; reflexivity]|].
    split; [|repeat split; assumption].
    intros Hne Heq. rewrite Heq, Hpool in Hrow.
    injection Hrow as Hrow.
    assert (H0 : Pool.totalValueLockedToken0 pool
                 = Pool.totalValueLockedToken0 pool + amount0)
      by (rewrite Hrow at 1; reflexivity).
    assert (H1 : Pool.totalValueLockedToken1 pool
                 = Pool.totalValueLockedToken1 pool + amount1)
      by (rewrite Hrow at 1; reflexivity).
    lia. }
  intros s' [-> | ->]; cbn [db add_log].
  - apply (G prices1). exact Hdb1.
  - apply (G (sqrtPriceX96ToTokenPrices sqrtPriceX96 d0 d1)). exact Hdb2.
Qed.

(** S2 once more, in the state the backfill of S1 and S2 has left. *)
Lemma C1_duplicate_swap_changes_pool_witness :
  let backfill :=
    handleSwapEvent (Scenario.envAt 101 [Scenario.S1; Scenario.S2]) Scenario.poolA
      "0xsender" 1000000000000000000 (-2000000000000000000)
      79228162514264337593543950336 5000000000000000000 100 (fee_number 3000)
      Scenario.S2 Scenario.afterS2 in
  snd backfill = Return tt
  /\ (exists l, logged (fst backfill) = l ++ [(WARN, "Duplicate swap event: 0xtx2")])
  /\ (exists pool',
        poolModel (db (fst backfill)) !! Scenario.poolA = Some pool'
        /\ Pool.totalValueLockedToken0 pool' = 2000000000000000000
        /\ Pool.totalValueLockedToken1 pool' = -4000000000000000000)
  /\ poolModel (db (fst backfill)) <> poolModel (db Scenario.afterS2)
  /\ swapEventModel (db (fst backfill)) = swapEventModel (db Scenario.afterS2)
  /\ (let live :=
        handleSwapEventFromLog (Scenario.envAt 101 [Scenario.S1; Scenario.S2])
          Scenario.poolA "0xsender" 1000000000000000000 (-2000000000000000000)
          79228162514264337593543950336 5000000000000000000 100 3000
          Scenario.S2 Scenario.afterS2 in
      snd live = Throw ValidationError
      /\ poolModel (db (fst live)) <> poolModel (db Scenario.afterS2)).
Proof.
  destruct (poolModel (db Scenario.afterS2) !! Scenario.poolA) as [pool|] eqn:Hpool;
    [|vm_compute in Hpool; discriminate].
  destruct (C1_duplicate_swap_changes_pool
              (Scenario.envAt 101 [Scenario.S1; Scenario.S2]) Scenario.poolA
              "0xsender" 1000000000000000000 (-2000000000000000000)
              79228162514264337593543950336 5000000000000000000 100 3000
              Scenario.S2 Scenario.afterS2 pool 1700001212 Hpool eq_refl)
    as (Hret & Hlog & Hlive & Hdb).
  - vm_compute. eexists. reflexivity.
  - destruct (Hdb _ (or_introl eq_refl)) as ((pool' & Hrow & H0 & H1) & Hne & Hs & _).
    destruct (Hdb _ (or_intror eq_refl)) as (_ & Hne' & _).
    vm_compute in Hpool. injection Hpool as <-.
    split; [exact Hret|]. split; [exact Hlog|].
    split; [exists pool'; split; [exact Hrow|split; assumption]|].
    split; [apply Hne; left; discriminate|].
    split; [exact Hs|].
    split; [exact Hlive | apply Hne'; left; discriminate].
Defined.

(** S4, the same log stream delivered again in a second run of its batch:
    two warnings, and the locked amounts of the pool counted twice. *)
Example S4_duplicate_replay :
  let before := Scenario.afterS2 in
  let after := Scenario.afterS4 in
  logged after
  = logged before ++ [(LOG, "Found 2 events in blocks 100-101");
                      (WARN, "Duplicate pool initialization: 0xaa");
                      (WARN, "Duplicate swap event: 0xtx2")]
  /\ map_to_list (swapEventModel (db after)) = map_to_list (swapEventModel (db before))
  /\ map_to_list (tokenModel (db after)) = map_to_list (tokenModel (db before))
  /\ map_to_list (syncStateModel (db after)) = map_to_list (syncStateModel (db before))
  /\ (fun p => (Pool.totalValueLockedToken0 p, Pool.totalValueLockedToken1 p))
       <$> poolModel (db before) !! Scenario.poolA
     = Some (1000000000000000000, -2000000000000000000)
  /\ (fun p => (Pool.totalValueLockedToken0 p, Pool.totalValueLockedToken1 p))
       <$> poolModel (db after) !! Scenario.poolA
     = Some (2000000000000000000, -4000000000000000000).
Proof. vm_compute. repeat split; reflexivity. Qed.

(** ** Folding a swap into a candle *)

(** The call [updateCurrentRecord] makes for one interval, for the token on
    side [isToken0] of [swap] and the derived price [price]. *)
Definition candleFold (swap : SwapEvent.t) (isToken0 : bool) (price : JS.number)
    (tokenAddress : string) (interval : TimeInterval) : M unit :=
  let amount := if isToken0 then SwapEvent.amount0 swap else SwapEvent.amount1 swap in
  let amountUSD := 0%float in
  let feePercentage := (JS.Number_of_BigInt (SwapEvent.fee swap) / 10000)%float in
  updateOrCreateCurrentRecord tokenAddress interval (SwapEvent.blockTimestamp swap)
    (abs amount) amountUSD (amountUSD * feePercentage)%float price 0 0%float.

(** A returning [updateCurrentRecord] has run the three folds, in a row,
    with one price. *)
Lemma updateCurrentRecord_folds env swap tokenAddress isToken0 s s' :
  updateCurrentRecord env swap tokenAddress isToken0 s = (s', Return tt) ->
  exists price s1 s2 s3,
    candleFold swap isToken0 price tokenAddress MINUTE s1 = (s2, Return tt)
    /\ candleFold swap isToken0 price tokenAddress HOUR s2 = (s3, Return tt)
    /\ candleFold swap isToken0 price tokenAddress DAY s3 = (s', Return tt).
Proof.
  unfold updateCurrentRecord. intros H.
  apply bind_inv in H as (s0 & s1 & _ & H).
  apply bind_inv in H as (t1 & s2 & _ & H).
  apply bind_inv in H as (t2 & s3 & _ & H).
  destruct t2 as [token|]; [|discriminate].
  apply bind_inv in H as (derivedBTC & s4 & _ & H).
  apply bind_inv in H as (? & s5 & _ & H).
  apply Promise_all3_inv in H as (s6 & s7 & H1 & H2 & H3).
  exists derivedBTC, s5, s6, s7. repeat split; assumption.
Qed.

Lemma alter_as_insert {K} `{Countable K} {V} (f : V -> V) (k : K) (v : V) (m : gmap K V) :
  m !! k = Some v -> alter f k m = <[k := f v]> m.
Proof.
  intros Hk. apply map_eq. intros j.
  destruct (decide (k = j)) as [<-|Hne].
  - rewrite lookup_alter_eq, lookup_insert_eq, Hk. reflexivity.
  - rewrite lookup_alter_ne, lookup_insert_ne by exact Hne. reflexivity.
Qed.

Lemma getModelByInterval_set_same i f d :
  getModelByInterval i (set_candleModel i f d) = f (getModelByInterval i d).
Proof. destruct i; reflexivity. Qed.

Lemma parseFloat_positive_not_zero_string (x : string) :
  (0 <? JS.parseFloat x)%float = true -> (x =? "0")%string = false.
Proof.
  intros Hpos. destruct (x =? "0")%string eqn:Hx; [|reflexivity].
  apply String.eqb_eq in Hx. subst x. vm_compute in Hpos. discriminate.
Qed.

Lemma parseFloat_nonzero_not_zero_string (x : string) :
  (JS.parseFloat x =? 0)%float = false -> (x =? "0")%string = false.
Proof.
  intros Hnz. destruct (x =? "0")%string eqn:Hx; [|reflexivity].
  apply String.eqb_eq in Hx. subst x. vm_compute in Hnz. discriminate.
Qed.

(** C4 fails where a bucket is already finalized: no current row exists
    for the token and the minute, yet the fold creates none; it is rejected
    and the finalized row stays as it is. *)
Lemma C4_counterexample_finalized_bucket :
  let s := Scenario.afterS3 in
  findOneCurrent (tokenMinuteModel (db s)) Scenario.weth Scenario.minute101 = None
  /\ updateOrCreateCurrentRecord Scenario.weth MINUTE 1700001212000
       500000000000000000 0%float 0%float 1%float 0 0%float s
     = (s, Throw DuplicateKey)
  /\ (fun c => (Candle.status c, Candle.volume c, Candle.txCount c))
       <$> tokenMinuteModel (db s) !! (Scenario.weth, Scenario.minute101)
     = Some (FINALIZED, 1000000000000000000, 1).
Proof.
  intros s. split; [vm_compute; reflexivity|]. split; [|vm_compute; reflexivity].
  apply (updateOrCreateCurrentRecord_finalized Scenario.weth MINUTE 1700001212000
           500000000000000000 0%float 0%float 1%float 0 0%float s C5_row).
  - vm_compute. reflexivity.
  - reflexivity.
Qed.

(** The other departure from C4: rows are written with six decimals, so a
    low of zero reads ["0.000000"], which is not the string ["0"] the code
    tests for, and the minimum with zero is taken: the low stays at zero
    instead of becoming the price. *)
Example low_of_zero_is_kept :
  let row := Candle.mk Scenario.weth Scenario.minute101 CURRENT 1 "0.000000" "0.000000" 0
                       "0.000000" "0.000000" "0.000000" "0.000000" "0.000000"
                       "0.000000" "0.000000" 1 in
  let s := mkState (set_candleModel MINUTE <[(Scenario.weth, Scenario.minute101) := row]>
                                    emptyStore) ∅ false 0 [] [] in
  let s' := fst (updateOrCreateCurrentRecord Scenario.weth MINUTE 1700001212000
                   1 0%float 0%float 1%float 0 0%float s) in
  (fun c => (Candle.open c, Candle.high c, Candle.low c, Candle.close c))
    <$> tokenMinuteModel (db s') !! (Scenario.weth, Scenario.minute101)
  = Some ("0.000000", "1.000000", "0.000000", "1.000000").
Proof. vm_compute. reflexivity. Qed.

(** C4, amended. A fold into interval [interval] at price [price]:
    - when the bucket has no row at all, a row is created with status
      current, open, high, low and close all equal to the price printed with
      six decimals, the volume of the fold and a count of 1;
    - when the bucket has a current row, its volume grows by the volume of
      the fold, its fees are its parsed fees plus the fee of the fold, its
      count grows by 1, its high is the maximum of its parsed high and the
      price, its low is the minimum of its parsed low and the price when that
      low is positive, its close is the price and its open keeps its parsed
      value when that is not zero, all printed with six decimals;
    - when the bucket has a finalized row the fold is rejected and nothing
      changes.
    For a swap the volume of the fold is [|amount|] and its fee is
    [amountUSD * (fee / 10000)] with [amountUSD = 0]. *)
Theorem C4_candle_fold (tokenAddress : string) (interval : TimeInterval)
    (timestamp volumeDelta : Z) (volumeUSDDelta feesDelta price : JS.number)
    (tvl : Z) (tvlUSD : JS.number) (s : State) :
  let key := (tokenAddress, roundTimestamp timestamp interval) in
  let model := getModelByInterval interval (db s) in
  let fold := updateOrCreateCurrentRecord tokenAddress interval timestamp volumeDelta
                volumeUSDDelta feesDelta price tvl tvlUSD in
  (model !! key = None ->
   exists s' r,
     fold s = (s', Return tt)
     /\ getModelByInterval interval (db s') = <[key := r]> model
     /\ Candle.status r = CURRENT
     /\ Candle.open r = JS.toFixed 6 price
     /\ Candle.high r = JS.toFixed 6 price
     /\ Candle.low r = JS.toFixed 6 price
     /\ Candle.close r = JS.toFixed 6 price
     /\ Candle.volume r = volumeDelta
     /\ Candle.txCount r = 1)
  /\ (forall r,
        model !! key = Some r -> Candle.status r = CURRENT ->
        exists s' r',
          fold s = (s', Return tt)
          /\ getModelByInterval interval (db s') = <[key := r']> model
          /\ Candle.status r' = CURRENT
          /\ Candle.volume r' = Candle.volume r + volumeDelta
          /\ Candle.feesUSD r'
             = JS.toFixed 6 (JS.parseFloat (Candle.feesUSD r) + feesDelta)%float
          /\ Candle.txCount r' = Candle.txCount r + 1
          /\ Candle.high r'
             = JS.toFixed 6 (JS.Math_max (JS.parseFloat (Candle.high r)) price)
          /\ ((0 <? JS.parseFloat (Candle.low r))%float = true ->
              Candle.low r'
              = JS.toFixed 6 (JS.Math_min (JS.parseFloat (Candle.low r)) price))
          /\ Candle.close r' = JS.toFixed 6 price
          /\ ((JS.parseFloat (Candle.open r) =? 0)%float = false ->
              Candle.open r' = JS.toFixed 6 (JS.parseFloat (Candle.open r))))
  /\ (forall r,
        model !! key = Some r -> Candle.status r = FINALIZED ->
        fold s = (s, Throw DuplicateKey))
  /\ (forall swap isToken0,
        candleFold swap isToken0 price tokenAddress interval
        = updateOrCreateCurrentRecord tokenAddress interval (SwapEvent.blockTimestamp swap)
            (abs (if isToken0 then SwapEvent.amount0 swap else SwapEvent.amount1 swap))
            0%float (0 * (JS.Number_of_BigInt (SwapEvent.fee swap) / 10000))%float
            price 0 0%float).
Proof.
  intros key model fold. split; [|split; [|split]].
  - intros Hnone. unfold fold, updateOrCreateCurrentRecord, findOneCurrent.
    rewrite bind_get. fold model. fold key. rewrite Hnone.
    unfold create. rewrite Hnone. cbn [of_result]. rewrite bind_ret.
    eexists _, _. split; [reflexivity|].
    split.
    { cbn [db set_db fst]. rewrite getModelByInterval_set_same. reflexivity. }
    repeat split.
  - intros r Hr Hcur. unfold fold, updateOrCreateCurrentRecord, findOneCurrent.
    rewrite bind_get. fold model. fold key. rewrite Hr, Hcur. cbn [RecordStatus_eqb].
    eexists _, _. split; [reflexivity|].
    split.
    { cbn [db set_db fst]. rewrite getModelByInterval_set_same. fold model.
      unfold updateOne. apply alter_as_insert. exact Hr. }
    cbn [Candle.status Candle.volume Candle.feesUSD Candle.txCount Candle.high
         Candle.low Candle.close Candle.open].
    split; [exact Hcur|]. repeat split.
    + intros Hpos. rewrite (parseFloat_positive_not_zero_string _ Hpos). reflexivity.
    + intros Hnz. rewrite (parseFloat_nonzero_not_zero_string _ Hnz). reflexivity.
  - intros r Hr Hfin. eapply updateOrCreateCurrentRecord_finalized; eassumption.
  - reflexivity.
Qed.

Definition C4_row : Candle.t :=
  Candle.mk Scenario.weth Scenario.minute101 CURRENT 1000000000000000000
            "0.000000" "0.000000" 0 "0.000000" "1.000000" "0.000000"
            "1.000000" "1.000000" "1.000000" "1.000000" 1.

Lemma C4_candle_fold_witness :
  (exists s' r,
     updateOrCreateCurrentRecord Scenario.weth MINUTE 1700001212000
       1000000000000000000 0%float 0%float 1%float 0 0%float Scenario.afterS1
     = (s', Return tt)
     /\ Candle.status r = CURRENT /\ Candle.open r = "1.000000"
     /\ Candle.volume r = 1000000000000000000 /\ Candle.txCount r = 1)
  /\ (exists s' r',
        updateOrCreateCurrentRecord Scenario.weth MINUTE 1700001212000
          500000000000000000 0%float 0%float 2.5%float 0 0%float Scenario.afterS2
        = (s', Return tt)
        /\ Candle.volume r' = 1500000000000000000 /\ Candle.txCount r' = 2
        /\ Candle.high r' = "2.500000" /\ Candle.low r' = "1.000000"
        /\ Candle.close r' = "2.500000" /\ Candle.open r' = "1.000000")
  /\ updateOrCreateCurrentRecord Scenario.weth MINUTE 1700001212000
       500000000000000000 0%float 0%float 2.5%float 0 0%float Scenario.afterS3
     = (Scenario.afterS3, Throw DuplicateKey).
Proof.
  split; [|split].
  - destruct (C4_candle_fold Scenario.weth MINUTE 1700001212000 1000000000000000000
                0%float 0%float 1%float 0 0%float Scenario.afterS1)
      as (Hcreate & _).
    destruct Hcreate as (s' & r & Hrun & _ & Hst & Hopen & _ & _ & _ & Hvol & Hcount).
    + vm_compute. reflexivity.
    + exists s', r. repeat split; assumption.
  - destruct (C4_candle_fold Scenario.weth MINUTE 1700001212000 500000000000000000
                0%float 0%float 2.5%float 0 0%float Scenario.afterS2)
      as (_ & Hupdate & _).
    destruct (Hupdate C4_row) as
      (s' & r' & Hrun & _ & _ & Hvol & _ & Hcount & Hhigh & Hlow & Hclose & Hopen).
    + vm_compute. reflexivity.
    + reflexivity.
    + exists s', r'. split; [exact Hrun|].
      split; [exact Hvol|]. split; [exact Hcount|].
      split; [rewrite Hhigh; vm_compute; reflexivity|].
      split; [rewrite Hlow; vm_compute; reflexivity|].
      split; [exact Hclose|].
      rewrite Hopen; vm_compute; reflexivity.
  - destruct (C4_candle_fold Scenario.weth MINUTE 1700001212000 500000000000000000
                0%float 0%float 2.5%float 0 0%float Scenario.afterS3)
      as (_ & _ & Hfinal & _).
    apply (Hfinal C5_row).
    + vm_compute. reflexivity.
    + reflexivity.
Defined.

(** ** Token statistics against the stored swaps *)

(** [Σ |amount_i|] and the count over the stored swaps that touch a token:
    [amount0] where it is token0, [amount1] where it is token1. *)
Definition swapAmounts (tokenAddress : string) (e : SwapEvent.t) : list Z :=
  (if (SwapEvent.token0Address e =? tokenAddress)%string then [SwapEvent.amount0 e] else [])
  ++ (if (SwapEvent.token1Address e =? tokenAddress)%string then [SwapEvent.amount1 e] else []).

Definition touches (tokenAddress : string) (e : SwapEvent.t) : bool :=
  (SwapEvent.token0Address e =? tokenAddress)%string
  || (SwapEvent.token1Address e =? tokenAddress)%string.

Definition swapVolume (d : Store) (tokenAddress : string) : Z :=
  map_fold (fun _ e acc => acc + fold_right (fun a b => abs a + b) 0 (swapAmounts tokenAddress e))
           0 (swapEventModel d).

Definition swapCount (d : Store) (tokenAddress : string) : Z :=
  map_fold (fun _ e acc => acc + (if touches tokenAddress e then 1 else 0))
           0 (swapEventModel d).

(** C3 fails on the code. After the backfill of S2 and the finalization of
    its minute, the backfill of the next block finds a second swap of that
    minute. The swap is stored, but its aggregation stops at the rejected
    candle of token0: token1 is never updated. Two stored swaps touch the
    token with amounts 2e18 and 1e18, and the token shows one swap and a
    volume of 2e18. *)
Theorem C3_late_swap_leaves_token1_behind :
  let s := Scenario.lateSwap Scenario.afterS3 in
  swapCount (db s) Scenario.dai = 2
  /\ swapVolume (db s) Scenario.dai = 3000000000000000000
  /\ (fun t => (Token.volume t, Token.txCount t)) <$> tokenModel (db s) !! Scenario.dai
     = Some (2000000000000000000, 1)
  /\ swapCount (db s) Scenario.weth = 2
  /\ swapVolume (db s) Scenario.weth = 1500000000000000000
  /\ (fun t => (Token.volume t, Token.txCount t)) <$> tokenModel (db s) !! Scenario.weth
     = Some (1500000000000000000, 2).
Proof. vm_compute. repeat split; reflexivity. Qed.

(** Without the finalizer in between the same two swaps add up. *)
Example C3_two_swaps_in_time :
  let s := Scenario.lateSwap Scenario.afterS2 in
  swapCount (db s) Scenario.dai = 2
  /\ swapVolume (db s) Scenario.dai = 3000000000000000000
  /\ (fun t => (Token.volume t, Token.txCount t)) <$> tokenModel (db s) !! Scenario.dai
     = Some (3000000000000000000, 2).
Proof. vm_compute. repeat split; reflexivity. Qed.

(** ** Binary64: a number times its reciprocal

    The product [1 / x * x] of IEEE-754 binary64 arithmetic, from the
    specification of the primitive operations: for a positive normal [x]
    below [2^1022] it is 1 or the double just below 1. *)

Lemma digits2_pos_size p : digits2_pos p = Pos.size p.
Proof. induction p; simpl; congruence. Qed.

Lemma Zdigits2_bounds (p : positive) :
  2 ^ (Zpos (digits2_pos p) - 1) <= Zpos p < 2 ^ Zpos (digits2_pos p).
Proof.
  rewrite digits2_pos_size.
  pose proof (Z.log2_spec (Zpos p) ltac:(lia)) as H.
  assert (Hl : Z.log2 (Zpos p) = Zpos (Pos.size p) - 1).
  { destruct p; cbn [Z.log2 Pos.size]; lia. }
  rewrite Hl in H. replace (Z.succ (Zpos (Pos.size p) - 1)) with (Zpos (Pos.size p)) in H by lia.
  exact H.
Qed.

Lemma Zdigits2_unique (p : positive) (n : Z) :
  2 ^ (n - 1) <= Zpos p < 2 ^ n -> Zpos (digits2_pos p) = n.
Proof.
  intros [Hlo Hhi]. pose proof (Zdigits2_bounds p) as [Hlo' Hhi'].
  assert (0 < n). { destruct (Z.lt_ge_cases 0 n); [assumption|]. rewrite (Z.pow_neg_r 2 (n-1)) in Hlo by lia. 
    destruct (Z.eq_dec n 0). subst. simpl in Hhi. lia. rewrite Z.pow_neg_r in Hhi by lia. lia. }
  destruct (Z.lt_trichotomy (Zpos (digits2_pos p)) n) as [Hlt|[Heq|Hgt]]; [|exact Heq|].
  - exfalso. assert (2 ^ Zpos (digits2_pos p) <= 2 ^ (n - 1)) by (apply Z.pow_le_mono_r; lia). lia.
  - exfalso. assert (2 ^ n <= 2 ^ (Zpos (digits2_pos p) - 1)) by (apply Z.pow_le_mono_r; lia). lia.
Qed.

Lemma shr_1_spec m r s : 0 <= m ->
  shr_1 (Build_shr_record m r s) = Build_shr_record (Z.div2 m) (Z.odd m) (r || s).
Proof. intros Hm. destruct m as [|[p|p|]|p]; try lia; reflexivity. Qed.


Lemma iter_pos_comm {A} (f : A -> A) p x : SpecFloat.iter_pos f p (f x) = f (SpecFloat.iter_pos f p x).
Proof.
  revert x. induction p as [p IH|p IH|]; intros x; cbn [SpecFloat.iter_pos].
  - rewrite !IH. reflexivity.
  - rewrite !IH. reflexivity.
  - reflexivity.
Qed.

Lemma iter_pos_succ {A} (f : A -> A) p x : SpecFloat.iter_pos f (Pos.succ p) x = f (SpecFloat.iter_pos f p x).
Proof.
  revert x. induction p as [p IH|p IH|]; intros x.
  - change (Pos.succ (xI p)) with (xO (Pos.succ p)). cbn [SpecFloat.iter_pos].
    rewrite !IH. rewrite !iter_pos_comm. reflexivity.
  - change (Pos.succ (xO p)) with (xI p). cbn [SpecFloat.iter_pos].
    rewrite !iter_pos_comm. reflexivity.
  - reflexivity.
Qed.

(** After [p] steps of [shr_1] from an exact record: the quotient by [2^p],
    the last bit shifted out, and whether any lower bit was set. *)
Lemma shr_iter_spec (m : Z) (p : positive) :
  0 <= m ->
  SpecFloat.iter_pos shr_1 p (Build_shr_record m false false)
  = Build_shr_record (m / 2 ^ Zpos p) (Z.testbit m (Zpos p - 1))
                     (negb (m mod 2 ^ (Zpos p - 1) =? 0)).
Proof.
  intros Hm. induction p as [|p IH] using Pos.peano_ind.
  - cbn [SpecFloat.iter_pos]. rewrite shr_1_spec by exact Hm.
    rewrite Z.div2_div. change (2 ^ 1) with 2. change (1 - 1) with 0.
    rewrite Z.bit0_odd. rewrite Z.pow_0_r, Z.mod_1_r. reflexivity.
  - rewrite iter_pos_succ, IH.
    rewrite shr_1_spec by (apply Z.div_pos; lia).
    rewrite Z.div2_div, Z.div_div by lia.
    replace (2 ^ Zpos p * 2) with (2 ^ Zpos (Pos.succ p)) by (rewrite Pos2Z.inj_succ, Z.pow_succ_r; lia).
    replace (Zpos (Pos.succ p) - 1) with (Zpos p) by lia.
    f_equal.
    + rewrite <- Z.bit0_odd. rewrite Z.div_pow2_bits by lia. f_equal.
    + pose proof (Z.testbit_spec' m (Zpos p - 1) ltac:(lia)) as Hbit.
      assert (Hsplit : m mod 2 ^ Zpos p
                       = m mod 2 ^ (Zpos p - 1)
                         + 2 ^ (Zpos p - 1) * ((m / 2 ^ (Zpos p - 1)) mod 2)).
      { replace (Zpos p) with (Z.succ (Zpos p - 1)) at 1 by lia.
        rewrite Z.pow_succ_r by lia. rewrite (Z.mul_comm 2).
        rewrite Z.rem_mul_r by lia. lia. }
      rewrite Hsplit, <- Hbit.
      assert (0 <= m mod 2 ^ (Zpos p - 1) < 2 ^ (Zpos p - 1))
        by (apply Z.mod_pos_bound; lia).
      destruct (Z.testbit m (Zpos p - 1)); cbn [Z.b2z orb].
      * symmetry. apply negb_true_iff, Z.eqb_neq. lia.
      * f_equal. f_equal. lia.
Qed.

Definition P52 : Z := 4503599627370496.
Definition P53 : Z := 9007199254740992.
Definition P105 : Z := 40564819207303340847894502572032.

Lemma Prim2SF_one : Prim2SF 1 = S754_finite false 4503599627370496 (-52).
Proof. reflexivity. Qed.

Lemma fexp_normal e : -1021 <= e -> fexp prec emax e = e - 53.
Proof. intros H. unfold fexp, emin, prec, emax. lia. Qed.

(** The mantissa the division rounds to. *)
Definition rne (q r d : Z) : Z :=
  if r =? 0 then q
  else match 2 * r ?= d with
       | Lt => q
       | Eq => if Z.even q then q else q + 1
       | Gt => q + 1
       end.

Lemma new_location_rne (d r q : Z) :
  round_nearest_even q (new_location d r) = rne q r d.
Proof.
  unfold new_location, new_location_even, new_location_odd, rne.
  destruct (Z.even d) eqn:Hev; destruct (r =? 0); try reflexivity.
  destruct (Z.compare_spec (2 * r + 1) d) as [H1|H1|H1];
    destruct (Z.compare_spec (2 * r) d) as [H2|H2|H2];
    try reflexivity; try lia;
    subst d; rewrite Z.even_mul in Hev; discriminate.
Qed.

Lemma Zdigits2_pos (p : positive) : Zdigits2 (Zpos p) = Zpos (digits2_pos p).
Proof. reflexivity. Qed.

(** The last step of a rounding: a mantissa of 53 bits stays, [2^53] is
    renormalized. *)
Definition finish (m e : Z) : spec_float :=
  let '(mrs, e') := shr_fexp prec emax m e loc_Exact in
  match shr_m mrs with
  | Z0 => S754_zero false
  | Zpos p => if e' <=? emax - prec then S754_finite false p e' else S754_infinity false
  | Zneg _ => S754_nan
  end.

Lemma binary_round_aux_finish (m e : Z) (l : location) :
  binary_round_aux prec emax false m e l
  = let '(mrs, e') := shr_fexp prec emax m e l in
    finish (round_nearest_even (shr_m mrs) (loc_of_shr_record mrs)) e'.
Proof.
  unfold binary_round_aux, finish.
  destruct (shr_fexp prec emax m e l) as [mrs e'].
  destruct (shr_fexp prec emax _ e' loc_Exact) as [mrs' e'']. reflexivity.
Qed.

Lemma finish_53 (p : positive) (e : Z) :
  Zpos (digits2_pos p) = 53 -> -1074 <= e <= 971 ->
  finish (Zpos p) e = S754_finite false p e.
Proof.
  intros Hd He. unfold finish, shr_fexp. rewrite Zdigits2_pos, Hd.
  replace (fexp prec emax (53 + e) - e) with 0
    by (unfold fexp, emin, prec, emax; lia).
  cbn [shr shr_record_of_loc shr_m].
  replace (e <=? emax - prec) with true by (symmetry; apply Z.leb_le; unfold emax, prec; lia).
  reflexivity.
Qed.

Lemma finish_2_53 (e : Z) :
  -1075 <= e <= 970 ->
  finish 9007199254740992 e = S754_finite false 4503599627370496 (e + 1).
Proof.
  intros He. unfold finish, shr_fexp.
  change (Zdigits2 9007199254740992) with 54.
  replace (fexp prec emax (54 + e) - e) with 1
    by (unfold fexp, emin, prec, emax; lia).
  cbn [shr shr_record_of_loc shr_m SpecFloat.iter_pos shr_1].
  replace (e + 1 <=? emax - prec) with true
    by (symmetry; apply Z.leb_le; unfold emax, prec; lia).
  reflexivity.
Qed.

(** Rounding an exact mantissa with more than 53 bits: [k] bits are
    shifted out. *)
Lemma shr_fexp_exact (m : positive) (e : Z) (k : positive) :
  Zpos (digits2_pos m) = 53 + Zpos k -> -1074 <= e + Zpos k ->
  shr_fexp prec emax (Zpos m) e loc_Exact
  = (Build_shr_record (Zpos m / 2 ^ Zpos k) (Z.testbit (Zpos m) (Zpos k - 1))
                      (negb (Zpos m mod 2 ^ (Zpos k - 1) =? 0)),
     e + Zpos k).
Proof.
  intros Hd He. unfold shr_fexp. rewrite Zdigits2_pos, Hd.
  replace (fexp prec emax (53 + Zpos k + e) - e) with (Zpos k)
    by (unfold fexp, emin, prec, emax; lia).
  cbn [shr shr_record_of_loc]. rewrite shr_iter_spec by lia. reflexivity.
Qed.

Lemma shr_fexp_none (m : positive) (e : Z) (l : location) :
  Zpos (digits2_pos m) = 53 -> -1074 <= e ->
  shr_fexp prec emax (Zpos m) e l = (shr_record_of_loc (Zpos m) l, e).
Proof.
  intros Hd He. unfold shr_fexp. rewrite Zdigits2_pos, Hd.
  replace (fexp prec emax (53 + e) - e) with 0
    by (unfold fexp, emin, prec, emax; lia).
  reflexivity.
Qed.

Lemma loc_of_shr_record_of_loc m l : loc_of_shr_record (shr_record_of_loc m l) = l.
Proof. destruct l as [|[]]; reflexivity. Qed.

Lemma shr_m_of_loc m l : shr_m (shr_record_of_loc m l) = m.
Proof. destruct l as [|[]]; reflexivity. Qed.

Lemma rne_cases (q r d : Z) :
  0 <= r < d ->
  (rne q r d = q /\ 2 * r <= d) \/ (rne q r d = q + 1 /\ d <= 2 * r).
Proof.
  intros Hr. unfold rne.
  destruct (Z.eqb_spec r 0) as [->|Hnz]; [left; lia|].
  destruct (Z.compare_spec (2 * r) d).
  - destruct (Z.even q); [left | right]; lia.
  - left; lia.
  - right; lia.
Qed.

Lemma digits_of_range (z n : Z) :
  1 <= n -> 2 ^ (n - 1) <= z < 2 ^ n ->
  exists p, z = Zpos p /\ Zpos (digits2_pos p) = n.
Proof.
  intros Hn Hz.
  assert (0 < 2 ^ (n - 1)) by (apply Z.pow_pos_nonneg; lia).
  destruct z as [|p|p]; try lia. exists p. split; [reflexivity|].
  apply Zdigits2_unique. exact Hz.
Qed.

Lemma reciprocal_spec (mx : positive) (ex : Z) :
  Zpos (digits2_pos mx) = 53 -> -1074 <= ex <= 969 -> Zpos mx <> P52 ->
  exists my : positive,
    SFdiv prec emax (S754_finite false 4503599627370496 (-52)) (S754_finite false mx ex)
    = S754_finite false my (-105 - ex)
    /\ Zpos (digits2_pos my) = 53
    /\ (- Zpos mx <= 2 * (Zpos my * Zpos mx - P105) <= Zpos mx).
Proof.
  intros Hd He Hne.
  pose proof (Zdigits2_bounds mx) as Hmx. rewrite Hd in Hmx.
  change (2 ^ (53 - 1)) with P52 in Hmx. change (2 ^ 53) with P53 in Hmx.
  unfold SFdiv, SFdiv_core_binary. rewrite !Zdigits2_pos, Hd.
  change (Zpos (digits2_pos 4503599627370496)) with 53.
  replace (Z.min (fexp prec emax (53 + -52 - (53 + ex))) (-52 - ex)) with (-105 - ex)
    by (unfold fexp, emin, prec, emax; lia).
  replace (-52 - ex - (-105 - ex)) with 53 by lia.
  change (Z.shiftl 4503599627370496 53) with P105.
  pose proof (Z.div_mod P105 (Zpos mx) ltac:(lia)) as Hdm.
  pose proof (Z.mod_pos_bound P105 (Zpos mx) ltac:(lia)) as Hr.
  unfold Z.div, Z.modulo in Hdm, Hr.
  destruct (Z.div_eucl P105 (Zpos mx)) as [q r]. cbn [fst snd] in *.
  assert (Hq : P52 <= q < P53 - 1).
  { unfold P52, P53, P105 in *. nia. }
  destruct (digits_of_range q 53) as (pq & -> & Hdq); [lia| |].
  { change (2 ^ (53 - 1)) with P52. change (2 ^ 53) with P53. lia. }
  rewrite binary_round_aux_finish, shr_fexp_none by lia.
  rewrite shr_m_of_loc, loc_of_shr_record_of_loc, new_location_rne.
  destruct (rne_cases (Zpos pq) r (Zpos mx) Hr) as [[Hrne Hhalf]|[Hrne Hhalf]];
    rewrite Hrne.
  - exists pq. split; [apply finish_53; [exact Hdq | lia]|].
    split; [exact Hdq|]. unfold P105 in *. lia.
  - destruct (digits_of_range (Zpos pq + 1) 53) as (pm & Hpm & Hdm'); [lia| |].
    { change (2 ^ (53 - 1)) with P52. change (2 ^ 53) with P53. lia. }
    rewrite Hpm. exists pm. split; [apply finish_53; [exact Hdm' | lia]|].
    split; [exact Hdm'|]. rewrite <- Hpm. unfold P105 in *. lia.
Qed.

Definition SF_one : spec_float := S754_finite false 4503599627370496 (-52).
Definition SF_below_one : spec_float := S754_finite false 9007199254740991 (-53).

Lemma product_spec (my mx : positive) (e1 e2 : Z) :
  Zpos (digits2_pos mx) = 53 ->
  e1 + e2 = -105 ->
  - Zpos mx <= 2 * (Zpos my * Zpos mx - P105) <= Zpos mx ->
  SFmul prec emax (S754_finite false my e1) (S754_finite false mx e2) = SF_one
  \/ SFmul prec emax (S754_finite false my e1) (S754_finite false mx e2) = SF_below_one.
Proof.
  intros Hdx He HD.
  pose proof (Zdigits2_bounds mx) as Hmx. rewrite Hdx in Hmx.
  change (2 ^ (53 - 1)) with P52 in Hmx. change (2 ^ 53) with P53 in Hmx.
  unfold SFmul. rewrite He. cbn [xorb].
  rewrite binary_round_aux_finish.
  set (P := (my * mx)%positive).
  assert (HP : Zpos P = Zpos my * Zpos mx) by apply Pos2Z.inj_mul.
  rewrite <- HP in HD.
  destruct (Z.le_gt_cases P105 (Zpos P)) as [Hge|Hlt].
  - (* the product is at least 2^105: 53 bits are shifted out *)
    assert (Hdig : Zpos (digits2_pos P) = 53 + 53).
    { apply Zdigits2_unique. change (2 ^ (53 + 53 - 1)) with P105.
      change (2 ^ (53 + 53)) with (2 * P105). unfold P105, P52, P53 in *. lia. }
    rewrite (shr_fexp_exact P (-105) 53 Hdig) by lia.
    cbn [shr_m loc_of_shr_record].
    assert (Hquot : Zpos P / 2 ^ 53 = P52).
    { symmetry. apply (Z.div_unique _ _ _ (Zpos P - P105)); unfold P105, P52, P53 in *; lia. }
    assert (Hbit : Z.testbit (Zpos P) (53 - 1) = false).
    { apply Z.testbit_false; [lia|].
      assert (Hq : Zpos P / 2 ^ (53 - 1) = P53).
      { symmetry. apply (Z.div_unique _ _ _ (Zpos P - P105));
          unfold P105, P52, P53 in *; lia. }
      rewrite Hq. reflexivity. }
    rewrite Hquot, Hbit. left.
    destruct (negb (Zpos P mod 2 ^ (53 - 1) =? 0)); reflexivity.
  - (* the product is below 2^105: 52 bits are shifted out *)
    assert (Hdig : Zpos (digits2_pos P) = 53 + 52).
    { apply Zdigits2_unique. change (2 ^ (53 + 52)) with P105.
      change (2 ^ (53 + 52 - 1)) with (P105 / 2). unfold P105, P52, P53 in *.
      change (40564819207303340847894502572032 / 2) with 20282409603651670423947251286016.
      lia. }
    rewrite (shr_fexp_exact P (-105) 52 Hdig) by lia.
    cbn [shr_m loc_of_shr_record].
    assert (Hquot : Zpos P / 2 ^ 52 = P53 - 1).
    { symmetry. apply (Z.div_unique _ _ _ (Zpos P - (P105 - P52)));
        unfold P105, P52, P53 in *; lia. }
    rewrite Hquot.
    destruct (Z.testbit (Zpos P) (52 - 1));
      destruct (negb (Zpos P mod 2 ^ (52 - 1) =? 0)); cbn; auto.
Qed.

Lemma reciprocal_pow2 (ex : Z) :
  -1074 <= ex <= 969 ->
  SFdiv prec emax (S754_finite false 4503599627370496 (-52))
        (S754_finite false 4503599627370496 ex)
  = S754_finite false 4503599627370496 (-104 - ex).
Proof.
  intros He. unfold SFdiv, SFdiv_core_binary.
  change (Zdigits2 4503599627370496) with 53.
  replace (Z.min (fexp prec emax (53 + -52 - (53 + ex))) (-52 - ex)) with (-105 - ex)
    by (unfold fexp, emin, prec, emax; lia).
  replace (-52 - ex - (-105 - ex)) with 53 by lia.
  change (Z.div_eucl (Z.shiftl 4503599627370496 53) 4503599627370496)
    with (9007199254740992, 0).
  change (new_location 4503599627370496 0) with loc_Exact. cbn [xorb].
  rewrite binary_round_aux_finish. unfold shr_fexp.
  change (Zdigits2 9007199254740992) with 54.
  replace (fexp prec emax (54 + (-105 - ex)) - (-105 - ex)) with 1
    by (unfold fexp, emin, prec, emax; lia).
  cbn [shr shr_record_of_loc SpecFloat.iter_pos shr_1 shr_m loc_of_shr_record round_nearest_even].
  replace (-105 - ex + 1) with (-104 - ex) by lia.
  apply finish_53; [reflexivity | lia].
Qed.

Lemma product_pow2 (e1 e2 : Z) :
  e1 + e2 = -104 ->
  SFmul prec emax (S754_finite false 4503599627370496 e1)
        (S754_finite false 4503599627370496 e2) = SF_one.
Proof. intros He. unfold SFmul. rewrite He. reflexivity. Qed.

(** Positive normal doubles below [2^1022]: their reciprocal is a normal
    double too. *)
Definition reciprocal_safe (x : float) : bool :=
  match Prim2SF x with
  | S754_finite false m e => (Zpos (digits2_pos m) =? 53) && (e <=? 969)
  | _ => false
  end.

Definition below_one : float := Eval cbv in SF2Prim SF_below_one.

Theorem reciprocal_product (x : float) :
  reciprocal_safe x = true ->
  (1 / x * x = 1 \/ 1 / x * x = below_one)%float.
Proof.
  unfold reciprocal_safe. intros Hsafe.
  pose proof (Prim2SF_valid x) as Hvalid.
  destruct (Prim2SF x) as [| | |[] mx ex] eqn:Hx; try discriminate.
  apply andb_true_iff in Hsafe. destruct Hsafe as [Hd He].
  apply Z.eqb_eq in Hd. apply Z.leb_le in He.
  assert (Hlo : -1074 <= ex).
  { unfold valid_binary, bounded, canonical_mantissa in Hvalid.
    apply andb_true_iff in Hvalid. destruct Hvalid as [Hc _].
    apply Z.eqb_eq in Hc. rewrite Hd in Hc.
    unfold fexp, emin, prec, emax in Hc. lia. }
  assert (Hdiv : Prim2SF (1 / x) = SFdiv prec emax SF_one (S754_finite false mx ex)).
  { rewrite div_spec, Hx. reflexivity. }
  assert (Hmul : Prim2SF (1 / x * x) = SF_one \/ Prim2SF (1 / x * x) = SF_below_one).
  { rewrite mul_spec, Hx, Hdiv. unfold SF64mul.
    destruct (Z.eq_dec (Zpos mx) P52) as [Heq|Hne].
    - injection Heq as ->. unfold SF_one at 1. rewrite reciprocal_pow2 by lia.
      left. apply product_pow2. lia.
    - destruct (reciprocal_spec mx ex Hd ltac:(lia) Hne) as (my & Hy & _ & HD).
      unfold SF_one at 1 3. rewrite Hy. apply product_spec; [exact Hd | lia | exact HD]. }
  destruct Hmul as [H1|H1]; [left | right]; apply Prim2SF_inj; rewrite H1; reflexivity.
Qed.

(** *** Normal results

    The operations of the price conversion keep their results among the
    positive normal doubles, with an exponent that moves by a bounded
    amount. *)

(** [x = m * 2^e] with a mantissa of 53 bits and [lo <= e <= hi]. *)
Definition normal_between (lo hi : Z) (x : float) : bool :=
  match Prim2SF x with
  | S754_finite false m e => (Zpos (digits2_pos m) =? 53) && (lo <=? e) && (e <=? hi)
  | _ => false
  end.

Lemma normal_between_inv (lo hi : Z) (x : float) :
  normal_between lo hi x = true ->
  exists m e, Prim2SF x = S754_finite false m e
              /\ Zpos (digits2_pos m) = 53 /\ lo <= e <= hi.
Proof.
  unfold normal_between. destruct (Prim2SF x) as [| | |[] m e]; try discriminate.
  intros H. apply andb_true_iff in H. destruct H as [H Hhi].
  apply andb_true_iff in H. destruct H as [Hd Hlo].
  exists m, e. split; [reflexivity|]. split; [apply Z.eqb_eq; exact Hd|]. lia.
Qed.

Lemma normal_between_intro (lo hi : Z) (x : float) (m : positive) (e : Z) :
  Prim2SF x = S754_finite false m e ->
  Zpos (digits2_pos m) = 53 -> lo <= e <= hi ->
  normal_between lo hi x = true.
Proof.
  intros Hx Hd He. unfold normal_between. rewrite Hx, Hd.
  change (53 =? 53) with true. cbn [andb].
  apply andb_true_iff. split; lia.
Qed.

Lemma normal_between_weaken (lo hi lo' hi' : Z) (x : float) :
  normal_between lo hi x = true -> lo' <= lo -> hi <= hi' ->
  normal_between lo' hi' x = true.
Proof.
  intros H Hlo Hhi. destruct (normal_between_inv _ _ _ H) as (m & e & Hx & Hd & He).
  apply (normal_between_intro _ _ _ m e); [assumption | assumption | lia].
Qed.

Lemma shr_m_shr_1 (mrs : shr_record) :
  0 <= shr_m mrs -> shr_m (shr_1 mrs) = shr_m mrs / 2.
Proof.
  destruct mrs as [m r s]. cbn [shr_m]. intros Hm.
  rewrite shr_1_spec by exact Hm. cbn [shr_m]. apply Z.div2_div.
Qed.

Lemma shr_m_iter (p : positive) (mrs : shr_record) :
  0 <= shr_m mrs ->
  shr_m (SpecFloat.iter_pos shr_1 p mrs) = shr_m mrs / 2 ^ Zpos p.
Proof.
  intros Hm. induction p as [|p IH] using Pos.peano_ind.
  - cbn [SpecFloat.iter_pos]. rewrite shr_m_shr_1 by exact Hm. reflexivity.
  - rewrite iter_pos_succ. rewrite shr_m_shr_1; rewrite IH.
    + rewrite Z.div_div by lia. f_equal.
      rewrite Pos2Z.inj_succ, Z.pow_succ_r; lia.
    + apply Z.div_pos; lia.
Qed.

Lemma round_nearest_even_cases (m : Z) (l : location) :
  round_nearest_even m l = m \/ round_nearest_even m l = m + 1.
Proof.
  destruct l as [|[]]; cbn [round_nearest_even]; auto.
  destruct (Z.even m); auto.
Qed.

Lemma finish_normal (v e : Z) :
  P52 <= v <= P53 -> -1074 <= e <= 970 ->
  exists m e', finish v e = S754_finite false m e'
               /\ Zpos (digits2_pos m) = 53 /\ e <= e' <= e + 1.
Proof.
  intros Hv He. destruct (Z.eq_dec v P53) as [->|Hne].
  - exists 4503599627370496%positive, (e + 1). split; [apply finish_2_53; lia|].
    split; [reflexivity | lia].
  - destruct (digits_of_range v 53) as (m & -> & Hd); [lia| |].
    { change (2 ^ (53 - 1)) with P52. change (2 ^ 53) with P53. lia. }
    exists m, e. split; [apply finish_53; [exact Hd | lia]|].
    split; [exact Hd | lia].
Qed.

(** Rounding a mantissa of at least 53 bits in the normal range. *)
Lemma round_normal (q : positive) (e : Z) (l : location) :
  53 <= Zpos (digits2_pos q) ->
  -1074 <= e + Zpos (digits2_pos q) - 53 <= 970 ->
  exists m e', binary_round_aux prec emax false (Zpos q) e l = S754_finite false m e'
               /\ Zpos (digits2_pos m) = 53
               /\ e + Zpos (digits2_pos q) - 53 <= e' <= e + Zpos (digits2_pos q) - 52.
Proof.
  intros Hd He. pose proof (Zdigits2_bounds q) as Hq.
  set (d := Zpos (digits2_pos q)) in *.
  rewrite binary_round_aux_finish. unfold shr_fexp. rewrite Zdigits2_pos. fold d.
  replace (fexp prec emax (d + e) - e) with (d - 53)
    by (unfold fexp, emin, prec, emax; lia).
  assert (Hshr : exists mrs,
             shr (shr_record_of_loc (Zpos q) l) e (d - 53) = (mrs, e + (d - 53))
             /\ P52 <= shr_m mrs < P53).
  { destruct (d - 53) as [|k|k] eqn:Hk; try lia.
    - exists (shr_record_of_loc (Zpos q) l). cbn [shr]. split; [f_equal; lia|].
      rewrite shr_m_of_loc. replace d with 53 in Hq by lia.
      change (2 ^ (53 - 1)) with P52 in Hq. change (2 ^ 53) with P53 in Hq. exact Hq.
    - exists (SpecFloat.iter_pos shr_1 k (shr_record_of_loc (Zpos q) l)).
      cbn [shr]. split; [reflexivity|].
      rewrite shr_m_iter by (rewrite shr_m_of_loc; lia). rewrite shr_m_of_loc.
      replace d with (53 + Zpos k) in Hq by lia.
      replace (53 + Zpos k - 1) with (52 + Zpos k) in Hq by lia.
      rewrite !Z.pow_add_r in Hq by lia.
      change (2 ^ 52) with P52 in Hq. change (2 ^ 53) with P53 in Hq.
      assert (0 < 2 ^ Zpos k) by (apply Z.pow_pos_nonneg; lia).
      split.
      + apply Z.div_le_lower_bound; lia.
      + apply Z.div_lt_upper_bound; lia. }
  destruct Hshr as (mrs & -> & Hm).
  destruct (round_nearest_even_cases (shr_m mrs) (loc_of_shr_record mrs)) as [Hr|Hr];
    rewrite Hr;
    (destruct (finish_normal (round_nearest_even (shr_m mrs) (loc_of_shr_record mrs))
                             (e + (d - 53)))
      as (m & e' & Hf & Hdm & He'); [rewrite Hr; lia | lia |]);
    rewrite Hr in Hf; exists m, e'; (split; [exact Hf|]); (split; [exact Hdm | lia]).
Qed.

Lemma digits_at_least (p : positive) (n : Z) :
  2 ^ (n - 1) <= Zpos p -> n <= Zpos (digits2_pos p).
Proof.
  intros Hlo. pose proof (Zdigits2_bounds p) as [_ Hhi].
  destruct (Z.le_gt_cases n (Zpos (digits2_pos p))) as [H|H]; [exact H|].
  exfalso.
  assert (2 ^ Zpos (digits2_pos p) <= 2 ^ (n - 1)) by (apply Z.pow_le_mono_r; lia).
  lia.
Qed.

Lemma digits_at_most (p : positive) (n : Z) :
  Zpos p < 2 ^ n -> Zpos (digits2_pos p) <= n.
Proof.
  intros Hhi. pose proof (Zdigits2_bounds p) as [Hlo _].
  destruct (Z.le_gt_cases (Zpos (digits2_pos p)) n) as [H|H]; [exact H|].
  exfalso.
  assert (2 ^ n <= 2 ^ (Zpos (digits2_pos p) - 1)) by (apply Z.pow_le_mono_r; lia).
  lia.
Qed.

Lemma SFmul_normal (mx my : positive) (ex ey : Z) :
  Zpos (digits2_pos mx) = 53 -> Zpos (digits2_pos my) = 53 ->
  -1074 <= ex + ey + 52 -> ex + ey + 54 <= 971 ->
  exists m e, SFmul prec emax (S754_finite false mx ex) (S754_finite false my ey)
              = S754_finite false m e
              /\ Zpos (digits2_pos m) = 53 /\ ex + ey + 52 <= e <= ex + ey + 54.
Proof.
  intros Hdx Hdy Hlo Hhi.
  pose proof (Zdigits2_bounds mx) as Hmx. rewrite Hdx in Hmx.
  pose proof (Zdigits2_bounds my) as Hmy. rewrite Hdy in Hmy.
  change (2 ^ (53 - 1)) with P52 in *. change (2 ^ 53) with P53 in *.
  unfold SFmul. cbn [xorb].
  assert (Hd : 105 <= Zpos (digits2_pos (mx * my)) <= 106).
  { split.
    - apply digits_at_least. rewrite Pos2Z.inj_mul.
      change (2 ^ (105 - 1)) with (P52 * P52).
      apply Z.mul_le_mono_nonneg; unfold P52 in *; lia.
    - apply digits_at_most. rewrite Pos2Z.inj_mul.
      change (2 ^ 106) with (P53 * P53).
      apply Z.mul_lt_mono_nonneg; lia. }
  destruct (round_normal (mx * my) (ex + ey) loc_Exact) as (m & e & Hr & Hdm & He);
    [lia | lia |].
  exists m, e. split; [exact Hr|]. split; [exact Hdm | lia].
Qed.

Lemma SFdiv_normal (mx my : positive) (ex ey : Z) :
  Zpos (digits2_pos mx) = 53 -> Zpos (digits2_pos my) = 53 ->
  -1074 <= ex - ey - 53 -> ex - ey - 51 <= 971 ->
  exists m e, SFdiv prec emax (S754_finite false mx ex) (S754_finite false my ey)
              = S754_finite false m e
              /\ Zpos (digits2_pos m) = 53 /\ ex - ey - 53 <= e <= ex - ey - 51.
Proof.
  intros Hdx Hdy Hlo Hhi.
  pose proof (Zdigits2_bounds mx) as Hmx. rewrite Hdx in Hmx.
  pose proof (Zdigits2_bounds my) as Hmy. rewrite Hdy in Hmy.
  change (2 ^ (53 - 1)) with P52 in *. change (2 ^ 53) with P53 in *.
  unfold SFdiv, SFdiv_core_binary. rewrite !Zdigits2_pos, Hdx, Hdy. cbn [xorb].
  replace (Z.min (fexp prec emax (53 + ex - (53 + ey))) (ex - ey)) with (ex - ey - 53)
    by (unfold fexp, emin, prec, emax; lia).
  replace (ex - ey - (ex - ey - 53)) with 53 by lia.
  rewrite Z.shiftl_mul_pow2 by lia. change (2 ^ 53) with P53.
  pose proof (Z.div_mod (Zpos mx * P53) (Zpos my) ltac:(lia)) as Hdm.
  pose proof (Z.mod_pos_bound (Zpos mx * P53) (Zpos my) ltac:(lia)) as Hr.
  unfold Z.div, Z.modulo in Hdm, Hr.
  destruct (Z.div_eucl (Zpos mx * P53) (Zpos my)) as [q r]. cbn [fst snd] in *.
  assert (Hq : P52 <= q < 2 * P53).
  { unfold P52, P53 in *. nia. }
  destruct q as [|q|q]; try (unfold P52 in Hq; lia).
  assert (Hd : 53 <= Zpos (digits2_pos q) <= 54).
  { split.
    - apply digits_at_least. change (2 ^ (53 - 1)) with P52. lia.
    - apply digits_at_most. change (2 ^ 54) with (2 * P53). lia. }
  destruct (round_normal q (ex - ey - 53) (new_location (Zpos my) r))
    as (m & e & Hround & Hdm' & He); [lia | lia |].
  exists m, e. split; [exact Hround|]. split; [exact Hdm' | lia].
Qed.

Lemma mul_normal (lo1 hi1 lo2 hi2 : Z) (x y : float) :
  normal_between lo1 hi1 x = true -> normal_between lo2 hi2 y = true ->
  -1074 <= lo1 + lo2 + 52 -> hi1 + hi2 + 54 <= 971 ->
  normal_between (lo1 + lo2 + 52) (hi1 + hi2 + 54) (x * y) = true.
Proof.
  intros Hx Hy Hlo Hhi.
  destruct (normal_between_inv _ _ _ Hx) as (mx & ex & Ex & Hdx & Hex).
  destruct (normal_between_inv _ _ _ Hy) as (my & ey & Ey & Hdy & Hey).
  destruct (SFmul_normal mx my ex ey Hdx Hdy) as (m & e & Hmul & Hd & He);
    [lia | lia |].
  apply (normal_between_intro _ _ _ m e); [|exact Hd | lia].
  rewrite mul_spec, Ex, Ey. exact Hmul.
Qed.

Lemma div_normal (lo1 hi1 lo2 hi2 : Z) (x y : float) :
  normal_between lo1 hi1 x = true -> normal_between lo2 hi2 y = true ->
  -1074 <= lo1 - hi2 - 53 -> hi1 - lo2 - 51 <= 971 ->
  normal_between (lo1 - hi2 - 53) (hi1 - lo2 - 51) (x / y) = true.
Proof.
  intros Hx Hy Hlo Hhi.
  destruct (normal_between_inv _ _ _ Hx) as (mx & ex & Ex & Hdx & Hex).
  destruct (normal_between_inv _ _ _ Hy) as (my & ey & Ey & Hdy & Hey).
  destruct (SFdiv_normal mx my ex ey Hdx Hdy) as (m & e & Hdiv & Hd & He);
    [lia | lia |].
  apply (normal_between_intro _ _ _ m e); [|exact Hd | lia].
  rewrite div_spec, Ex, Ey. exact Hdiv.
Qed.

Lemma div_eucl_1 (n : Z) : Z.div_eucl n 1 = (n, 0).
Proof.
  pose proof (Z.div_mod n 1 ltac:(lia)) as Hdm.
  pose proof (Z.mod_pos_bound n 1 ltac:(lia)) as Hr.
  unfold Z.div, Z.modulo in Hdm, Hr.
  destruct (Z.div_eucl n 1) as [q r]. cbn [fst snd] in *. f_equal; lia.
Qed.

(** [Number(b)] of a BigInt of more than 53 bits. *)
Lemma Number_of_BigInt_normal (b n : Z) :
  54 <= n <= 1023 -> 2 ^ (n - 1) <= b < 2 ^ n ->
  normal_between (n - 53) (n - 52) (JS.Number_of_BigInt b) = true.
Proof.
  intros Hn Hb.
  destruct (digits_of_range b n) as (p & -> & Hd); [lia | exact Hb |].
  unfold JS.Number_of_BigInt, JS.number_of_ratio.
  change (Z.abs (Zpos p)) with (Zpos p). change (Zpos p <? 0) with false. cbv iota.
  unfold SFdiv, SFdiv_core_binary. rewrite Zdigits2_pos, Hd.
  change (Zdigits2 1) with 1. cbn [xorb].
  replace (Z.min (fexp prec emax (n + 0 - (1 + 0))) (0 - 0)) with 0
    by (unfold fexp, emin, prec, emax; lia).
  change (0 - 0 - 0) with 0. cbv iota. rewrite div_eucl_1.
  change (new_location 1 0) with loc_Exact.
  destruct (round_normal p 0 loc_Exact) as (m & e & Hr & Hdm & He);
    [lia | lia |].
  rewrite Hr.
  apply (normal_between_intro _ _ _ m e); [|exact Hdm | lia].
  apply Prim2SF_SF2Prim. unfold SpecFloat.valid_binary, bounded, canonical_mantissa.
  rewrite Hdm. apply andb_true_iff. split.
  - apply Z.eqb_eq. unfold fexp, emin, prec, emax. lia.
  - apply Z.leb_le. unfold prec, emax. lia.
Qed.

Lemma pow10_normal (d : Z) :
  0 <= d < 256 -> normal_between (-52) 795 (exponentToBigDecimal d) = true.
Proof.
  apply (range_forallb (fun d => normal_between (-52) 795 (exponentToBigDecimal d)) 256).
  vm_compute. reflexivity.
Qed.

(** The price of token1 of a [uint160] square-root price of at least [2^32]
    is a normal double between [2^-977] and [2^980]. *)
Lemma price1_normal (sqrtPriceX96 d0 d1 : Z) :
  2 ^ 32 <= sqrtPriceX96 < 2 ^ 160 -> 0 <= d0 < 256 -> 0 <= d1 < 256 ->
  normal_between (-1029) 927 (snd (tokenPrices sqrtPriceX96 d0 d1)) = true.
Proof.
  intros Hp Hd0 Hd1. unfold tokenPrices. cbv zeta. cbn [snd].
  assert (Hnum : normal_between 12 268
                   (JS.Number_of_BigInt (sqrtPriceX96 * sqrtPriceX96)) = true).
  { change (2 ^ 32) with 4294967296 in Hp.
    change (2 ^ 160) with 1461501637330902918203684832716283019655932542976 in Hp.
    assert (Hsq : 2 ^ 64 <= sqrtPriceX96 * sqrtPriceX96 < 2 ^ 320).
    { change (2 ^ 64) with (4294967296 * 4294967296).
      change (2 ^ 320) with (1461501637330902918203684832716283019655932542976
                             * 1461501637330902918203684832716283019655932542976).
      nia. }
    assert (Hlog := Z.log2_spec (sqrtPriceX96 * sqrtPriceX96) ltac:(lia)).
    set (n := Z.succ (Z.log2 (sqrtPriceX96 * sqrtPriceX96))) in *.
    assert (Hn : 65 <= n <= 320).
    { split.
      - destruct (Z.le_gt_cases 65 n) as [H|H]; [exact H|]. exfalso.
        assert (2 ^ n <= 2 ^ 64) by (apply Z.pow_le_mono_r; lia). lia.
      - destruct (Z.le_gt_cases n 320) as [H|H]; [exact H|]. exfalso.
        assert (2 ^ 320 <= 2 ^ (n - 1)) by (apply Z.pow_le_mono_r; lia).
        replace (n - 1) with (Z.log2 (sqrtPriceX96 * sqrtPriceX96)) in * by (unfold n; lia).
        lia. }
    apply (normal_between_weaken (n - 53) (n - 52)); [|lia|lia].
    apply Number_of_BigInt_normal; [lia|].
    replace (n - 1) with (Z.log2 (sqrtPriceX96 * sqrtPriceX96)) by (unfold n; lia).
    exact Hlog. }
  assert (Hden : normal_between 140 140 (JS.Number_of_BigInt Q192) = true)
    by (vm_compute; reflexivity).
  pose proof (div_normal _ _ _ _ _ _ Hnum Hden ltac:(lia) ltac:(lia)) as Hq.
  pose proof (mul_normal _ _ _ _ _ _ Hq (pow10_normal d0 Hd0) ltac:(lia) ltac:(lia)) as Hm.
  pose proof (div_normal _ _ _ _ _ _ Hm (pow10_normal d1 Hd1) ltac:(lia) ltac:(lia)) as Hr.
  apply (normal_between_weaken _ _ _ _ _ Hr); lia.
Qed.

Lemma normal_reciprocal_safe (lo hi : Z) (x : float) :
  normal_between lo hi x = true -> hi <= 969 -> reciprocal_safe x = true.
Proof.
  intros H Hhi. destruct (normal_between_inv _ _ _ H) as (m & e & Hx & Hd & He).
  unfold reciprocal_safe. rewrite Hx, Hd. apply andb_true_iff.
  split; [reflexivity | apply Z.leb_le; lia].
Qed.

(** ** The product of the two prices *)

(** [|z - 1| <= 1e-12] *)
Definition within_1e12_of_one (z : JS.number) : bool :=
  (PrimFloat.abs (z - 1) <=? JS.parseFloat "1e-12")%float.

(** C2, as stated, fails at the end of the range of the decimals: with
    [sqrtPriceX96 = 1], [d0 = 0] and [d1 = 255] the price of token1 is a
    subnormal number, its reciprocal overflows, and the product of the two
    prices is infinite. *)
Lemma C2_counterexample_overflow :
  sqrtPriceX96ToTokenPrices 1 0 255 = mkPrices "Infinity" "1.59309191114e-313"
  /\ (fst (tokenPrices 1 0 255) * snd (tokenPrices 1 0 255))%float = infinity
  /\ within_1e12_of_one (fst (tokenPrices 1 0 255) * snd (tokenPrices 1 0 255))%float
     = false.
Proof. vm_compute. repeat split; reflexivity. Qed.

Lemma reciprocal_safe_nonzero (x : float) :
  reciprocal_safe x = true -> (x =? 0)%float = false.
Proof.
  unfold reciprocal_safe. intros Hsafe. rewrite FloatAxioms.eqb_spec.
  destruct (Prim2SF x) as [| | |[] m e]; try discriminate. reflexivity.
Qed.

Lemma price_product_of_safe (sqrtPriceX96 d0 d1 : Z) :
  let price0 := fst (tokenPrices sqrtPriceX96 d0 d1) in
  let price1 := snd (tokenPrices sqrtPriceX96 d0 d1) in
  reciprocal_safe price1 = true ->
  ((price0 * price1)%float = 1%float \/ (price0 * price1)%float = below_one)
  /\ within_1e12_of_one (price0 * price1)%float = true.
Proof.
  intros price0 price1 Hsafe.
  assert (Hp0 : price0 = (1 / price1)%float).
  { unfold price0, price1, tokenPrices in *. cbv zeta in *. cbn [fst snd] in *.
    unfold safeDiv. rewrite (reciprocal_safe_nonzero _ Hsafe). reflexivity. }
  rewrite Hp0.
  destruct (reciprocal_product price1 Hsafe) as [H|H]; rewrite H;
    (split; [auto | vm_compute; reflexivity]).
Qed.

(** C2, amended. For every [uint160] square-root price of at least [2^32]
    (every price a pool can have lies in this range) and all decimals in
    [0..255], the product of the two numeric prices is exactly 1 or the
    double just below 1, [1 - 2^-53], and so within 1e-12 of 1. *)
Theorem C2_price_product (sqrtPriceX96 d0 d1 : Z) :
  let price0 := fst (tokenPrices sqrtPriceX96 d0 d1) in
  let price1 := snd (tokenPrices sqrtPriceX96 d0 d1) in
  2 ^ 32 <= sqrtPriceX96 < 2 ^ 160 -> 0 <= d0 < 256 -> 0 <= d1 < 256 ->
  ((price0 * price1)%float = 1%float \/ (price0 * price1)%float = below_one)
  /\ within_1e12_of_one (price0 * price1)%float = true.
Proof.
  intros price0 price1 Hp Hd0 Hd1.
  apply price_product_of_safe.
  apply (normal_reciprocal_safe (-1029) 927); [|lia].
  apply price1_normal; assumption.
Qed.

Lemma C2_price_product_witness :
  let price0 := fst (tokenPrices 554597137599850363154807652352 6 18) in
  let price1 := snd (tokenPrices 554597137599850363154807652352 6 18) in
  2 ^ 32 <= 554597137599850363154807652352 < 2 ^ 160
  /\ ((price0 * price1)%float = 1%float \/ (price0 * price1)%float = below_one)
  /\ within_1e12_of_one (price0 * price1)%float = true.
Proof.
  split.
  - vm_compute. split; [discriminate | reflexivity].
  - apply (C2_price_product 554597137599850363154807652352 6 18); [|lia|lia].
    vm_compute. split; [discriminate | reflexivity].
Defined.

Example product_below_one :
  (fst (tokenPrices 554597137599850363154807652352 18 18)
   * snd (tokenPrices 554597137599850363154807652352 18 18))%float = below_one.
Proof. vm_compute. reflexivity. Qed.

(** * Further properties of the services *)

(** ** The live queue during the backfill *)

(** X1. While the historical sync is running, [processQueue] takes every
    queued log off the queue and drops it: no handler runs, nothing is
    logged, and the state of the process is as it was. *)
Theorem processQueue_while_syncing (env : Env) (eventQueue : list Log.t) (s : State) :
  isSyncing s = true -> processQueue env eventQueue s = (s, Return tt).
Proof.
  intros Hs. unfold processQueue.
  induction eventQueue as [|log q IH]; [reflexivity|].
  rewrite (for_each_cons log q _ s s); [exact IH|].
  unfold processEntry, try_catch. rewrite bind_get, Hs. reflexivity.
Qed.

Lemma processQueue_while_syncing_witness :
  processQueue Scenario.env [Scenario.S1; Scenario.S2]
               (set_isSyncing true Scenario.initial)
  = (set_isSyncing true Scenario.initial, Return tt).
Proof. apply processQueue_while_syncing. reflexivity. Defined.

(** ** The flag of the historical sync *)

(** X2. However [syncHistoricalEvents] ends, with its result or with the
    exception of a batch, [isSyncing] is false afterwards and the last line
    logged says which of the two it was. *)
Theorem syncHistoricalEvents_resets_isSyncing (env : Env) (fuel : nat)
    (s s' : State) (r : Outcome (option unit)) :
  syncHistoricalEvents env fuel s = (s', r) ->
  r <> Return None ->
  isSyncing s' = false
  /\ exists l,
       logged s'
       = l ++ [match r with
               | Throw _ => (ERROR, "Error during historical sync")
               | Return _ =>
                   (LOG, "Historical sync complete! Ready to listen for new events.")
               end].
Proof.
  unfold syncHistoricalEvents. rewrite bind_modify. unfold try_catch.
  match goal with |- (match ?m ?s0 with _ => _ end) = _ -> _ =>
    destruct (m s0) as [s1 [o|e]] eqn:Hin end.
  - intros [= <- <-] Hsome.
    rewrite bind_get in Hin.
    apply bind_inv in Hin as (st & s2 & _ & Hin).
    apply bind_inv in Hin as (finished & s3 & _ & Hin).
    destruct finished as [[]|].
    + rewrite bind_logger, bind_modify in Hin. injection Hin as <- <-.
      split; [reflexivity|]. eexists. reflexivity.
    + injection Hin as <- <-. congruence.
  - rewrite bind_logger, bind_modify. intros [= <- <-] _.
    split; [reflexivity|]. eexists. reflexivity.
Qed.

Lemma syncHistoricalEvents_resets_isSyncing_witness :
  isSyncing (fst (syncHistoricalEvents (Scenario.envWith [Scenario.S1]) 1 Scenario.initial))
  = false
  /\ exists l,
       logged (fst (syncHistoricalEvents (Scenario.envWith [Scenario.S1]) 1 Scenario.initial))
       = l ++ [(LOG, "Historical sync complete! Ready to listen for new events.")].
Proof.
  apply (syncHistoricalEvents_resets_isSyncing
           (Scenario.envWith [Scenario.S1]) 1 Scenario.initial _ (Return (Some tt))).
  - vm_compute. reflexivity.
  - discriminate.
Defined.

(** ** A pool that is initialized twice *)

(** X3. An Initialize event for a pool id that already has a row is
    rejected by the unique index: the handler logs a warning and returns,
    the database is as it was, and the whitelists are not visited. *)
Theorem handleInitializeEvent_duplicate (env : Env) (id currency0 currency1 : string)
    (fee tickSpacing : Z) (hooks : string) (sqrtPriceX96 tick : Z) (event : Log.t)
    (s : State) (pool : Pool.t) (timestamp : Z) :
  poolModel (db s) !! id = Some pool ->
  getBlock env (Log.blockNumber event) = Some timestamp ->
  exists s',
    handleInitializeEvent env id currency0 currency1 fee tickSpacing hooks
                          sqrtPriceX96 tick event s
    = (add_log WARN ("Duplicate pool initialization: " +:+ id) s', Return tt)
    /\ db s' = db s.
Proof.
  intros Hpool Hblock. unfold handleInitializeEvent, try_catch. rewrite Hblock.
  destruct (fetchTokenDecimals_returns env currency0 s) as (d0 & s1 & Hd0 & Hdb1).
  destruct (fetchTokenDecimals_returns env currency1 s1) as (d1 & s2 & Hd1 & Hdb2).
  rewrite (bind_Return _ _ _ _ _ Hd0), (bind_Return _ _ _ _ _ Hd1).
  rewrite bind_get. unfold create. rewrite Hdb2, Hdb1, Hpool.
  cbn [of_result]. unfold bind, throw. cbn [is_duplicate code Z.eqb Pos.eqb].
  exists s2. split; [reflexivity | congruence].
Qed.

Lemma handleInitializeEvent_duplicate_witness :
  exists s',
    handleInitializeEvent Scenario.env Scenario.poolA Scenario.weth Scenario.dai 3000 60
      ZERO_ADDRESS 79228162514264337593543950336 0 Scenario.S1 Scenario.afterS1
    = (add_log WARN ("Duplicate pool initialization: " +:+ Scenario.poolA) s', Return tt)
    /\ db s' = db Scenario.afterS1.
Proof.
  destruct (poolModel (db Scenario.afterS1) !! Scenario.poolA) as [pool|] eqn:Hpool.
  - apply (handleInitializeEvent_duplicate Scenario.env Scenario.poolA Scenario.weth
             Scenario.dai 3000 60 ZERO_ADDRESS 79228162514264337593543950336 0
             Scenario.S1 Scenario.afterS1 pool 1700001212).
    + exact Hpool.
    + reflexivity.
  - exfalso. vm_compute in Hpool. discriminate.
Defined.

(** ** Buckets *)

Lemma period_pos (i : TimeInterval) : 0 < period i.
Proof. destruct i; reflexivity. Qed.

Lemma roundTimestamp_unique (t d : Z) (i : TimeInterval) :
  d mod period i = 0 -> d <= t < d + period i -> roundTimestamp t i = d.
Proof.
  intros Hd Ht. unfold roundTimestamp.
  pose proof (period_pos i) as Hp.
  apply Z.mod_divide in Hd; [|lia]. destruct Hd as [k ->].
  assert (Hmod : t mod period i = t - k * period i).
  { symmetry. apply (Z.mod_unique_pos _ _ k); lia. }
  lia.
Qed.

(** X4. [roundTimestamp] cuts time into buckets: the start it returns is a
    multiple of the period, the timestamp lies in the period that begins
    there, the timestamps with that start are exactly those of this period,
    and minutes lie inside hours and hours inside days. *)
Theorem roundTimestamp_buckets (timestamp : Z) (interval : TimeInterval) :
  let date := roundTimestamp timestamp interval in
  date mod period interval = 0
  /\ date <= timestamp < date + period interval
  /\ (forall t, roundTimestamp t interval = date <-> date <= t < date + period interval)
  /\ roundTimestamp (roundTimestamp timestamp MINUTE) HOUR = roundTimestamp timestamp HOUR
  /\ roundTimestamp (roundTimestamp timestamp HOUR) DAY = roundTimestamp timestamp DAY.
Proof.
  pose proof (period_pos interval) as Hp.
  pose proof (Z.mod_pos_bound timestamp (period interval) Hp) as Hm.
  assert (Hal : forall t i, roundTimestamp t i mod period i = 0).
  { intros t i. unfold roundTimestamp. pose proof (period_pos i).
    rewrite Zminus_mod, Z.mod_mod, Z.sub_diag by lia. apply Z.mod_0_l. lia. }
  assert (Hin : forall t i, roundTimestamp t i <= t < roundTimestamp t i + period i).
  { intros t i. unfold roundTimestamp.
    pose proof (Z.mod_pos_bound t (period i) (period_pos i)). lia. }
  cbv zeta. split; [apply Hal|]. split; [apply Hin|]. split; [|split].
  - intros t. split.
    + intros <-. apply Hin.
    + intros Ht. apply roundTimestamp_unique; [apply Hal | exact Ht].
  - apply roundTimestamp_unique; [apply Hal|].
    pose proof (Hin timestamp MINUTE) as H1. pose proof (Hin timestamp HOUR) as H2.
    pose proof (Hal timestamp MINUTE) as A1. pose proof (Hal timestamp HOUR) as A2.
    cbn [period] in *.
    apply Z.mod_divide in A1; [|lia]. destruct A1 as [k1 E1].
    apply Z.mod_divide in A2; [|lia]. destruct A2 as [k2 E2].
    rewrite E1, E2 in *. lia.
  - apply roundTimestamp_unique; [apply Hal|].
    pose proof (Hin timestamp HOUR) as H1. pose proof (Hin timestamp DAY) as H2.
    pose proof (Hal timestamp HOUR) as A1. pose proof (Hal timestamp DAY) as A2.
    cbn [period] in *.
    apply Z.mod_divide in A1; [|lia]. destruct A1 as [k1 E1].
    apply Z.mod_divide in A2; [|lia]. destruct A2 as [k2 E2].
    rewrite E1, E2 in *. lia.
Qed.

(** The bucket [finalizeRecords] looks at is the one just before the bucket
    of the time it runs at. *)
Lemma previous_bucket (now : Z) (interval : TimeInterval) :
  roundTimestamp (getPreviousPeriod now interval) interval
  = roundTimestamp now interval - period interval.
Proof.
  unfold roundTimestamp, getPreviousPeriod. pose proof (period_pos interval).
  replace (now - period interval) with (now + (-1) * period interval) by lia.
  rewrite Z.mod_add by lia. lia.
Qed.

(** ** The finalizers *)

(** The candles a finalizer that runs at [now] turns. *)
Definition due (now : Z) (interval : TimeInterval) (r : Candle.t) : bool :=
  (Candle.date r =? roundTimestamp now interval - period interval)
  && RecordStatus_eqb (Candle.status r) CURRENT.

Definition turn (now : Z) (interval : TimeInterval) (r : Candle.t) : Candle.t :=
  if due now interval r then Candle.finalize r else r.

Lemma for_each_emit (f : Candle.t -> Emitted) (rs : list Candle.t) (s : State) :
  for_each rs (fun r => emit (f r)) s
  = (mkState (db s) (tokenDecimalsCache s) (isSyncing s) (clock s) (logged s)
             (emitted s ++ map f rs), Return tt).
Proof.
  revert s. induction rs as [|r rs IH]; intros s.
  - cbn [for_each map]. rewrite app_nil_r. destruct s; reflexivity.
  - cbn [for_each]. unfold emit at 1. rewrite bind_modify, IH.
    cbn [add_emitted db tokenDecimalsCache isSyncing clock logged emitted map].
    rewrite <- app_assoc. reflexivity.
Qed.

Lemma finalizeRecords_run (interval : TimeInterval) (s : State) :
  exists msg,
    finalizeRecords interval s
    = (mkState (set_candleModel interval (fmap (turn (clock s) interval)) (db s))
               (tokenDecimalsCache s) (isSyncing s) (clock s)
               (logged s ++ [(LOG, msg)])
               (emitted s
                ++ map (candle_finalized interval)
                     (List.filter (due (clock s) interval)
                        (map snd (map_to_list (getModelByInterval interval (db s)))))),
       Return tt).
Proof.
  unfold finalizeRecords. eexists.
  erewrite try_catch_Return; [reflexivity|].
  rewrite bind_get, bind_update_db, bind_logger.
  rewrite for_each_emit.
  cbn [add_log set_db db tokenDecimalsCache isSyncing clock logged emitted].
  unfold turn, due. rewrite previous_bucket. reflexivity.
Qed.

Lemma due_turn (now : Z) (interval : TimeInterval) (r : Candle.t) :
  due now interval (turn now interval r) = false.
Proof.
  unfold turn. destruct (due now interval r) eqn:Hd; [|exact Hd].
  unfold due. cbn [Candle.finalize Candle.status RecordStatus_eqb].
  apply andb_false_r.
Qed.

(** X5. A finalizer that runs at [now] never fails. In the collection of
    its interval it turns the current candles dated at the bucket just before
    the bucket of [now] to finalized, their other fields untouched, and leaves
    every other candle alone (those of the running bucket, and older ones a
    missed run left current); the other collections are unchanged, and one
    [candle.finalized] is emitted for each candle turned, and no other. *)
Theorem finalizeRecords_turns_previous_bucket (interval : TimeInterval) (s : State) :
  exists s',
    finalizeRecords interval s = (s', Return tt)
    /\ (forall key,
          getModelByInterval interval (db s') !! key
          = turn (clock s) interval <$> getModelByInterval interval (db s) !! key)
    /\ (forall j, j <> interval ->
          getModelByInterval j (db s') = getModelByInterval j (db s))
    /\ poolModel (db s') = poolModel (db s)
    /\ swapEventModel (db s') = swapEventModel (db s)
    /\ tokenModel (db s') = tokenModel (db s)
    /\ syncStateModel (db s') = syncStateModel (db s)
    /\ emitted s'
       = emitted s
         ++ map (candle_finalized interval)
              (List.filter (due (clock s) interval)
                 (map snd (map_to_list (getModelByInterval interval (db s))))).
Proof.
  destruct (finalizeRecords_run interval s) as (msg & Hrun).
  eexists. split; [exact Hrun|]. cbn [db emitted].
  split; [|split; [|repeat split]].
  - intros key. rewrite getModelByInterval_set_candleModel.
    replace (TimeInterval_eqb interval interval) with true
      by (destruct interval; reflexivity).
    apply lookup_fmap.
  - intros j Hj. rewrite getModelByInterval_set_candleModel.
    destruct (TimeInterval_eqb interval j) eqn:Hij; [|reflexivity].
    apply TimeInterval_eqb_true in Hij. congruence.
  - destruct interval; reflexivity.
  - destruct interval; reflexivity.
  - destruct interval; reflexivity.
  - destruct interval; reflexivity.
Qed.

Lemma filter_none {A} (f : A -> bool) (l : list A) :
  (forall x, In x l -> f x = false) -> List.filter f l = [].
Proof.
  induction l as [|x l IH]; intros H; [reflexivity|].
  cbn [List.filter]. rewrite (H x (or_introl eq_refl)).
  apply IH. intros y Hy. apply H. right. exact Hy.
Qed.

Lemma set_candleModel_twice i f g d :
  set_candleModel i g (set_candleModel i f d) = set_candleModel i (fun m => g (f m)) d.
Proof. destruct i; reflexivity. Qed.

(** X6. Running the same finalizer again at the same time does nothing
    more: the database is as the first run left it and no event is emitted
    a second time. *)
Theorem finalizeRecords_again (interval : TimeInterval) (s : State) :
  let s1 := fst (finalizeRecords interval s) in
  let s2 := fst (finalizeRecords interval s1) in
  db s2 = db s1 /\ emitted s2 = emitted s1 /\ clock s2 = clock s.
Proof.
  cbv zeta.
  destruct (finalizeRecords_run interval s) as (msg & Hrun). rewrite Hrun. cbn [fst].
  match goal with |- context [finalizeRecords interval ?x] =>
    destruct (finalizeRecords_run interval x) as (msg' & Hrun') end.
  rewrite Hrun'. cbn [fst db emitted clock]. split; [|split; [|reflexivity]].
  - rewrite set_candleModel_twice. destruct interval; cbn [set_candleModel]; f_equal;
      rewrite <- map_fmap_compose; apply map_fmap_ext; intros k r _;
      unfold compose; unfold turn at 1; rewrite due_turn; reflexivity.
  - match goal with |- ?a ++ map _ (List.filter ?f ?l) = ?a =>
      rewrite (filter_none f l); [cbn [map]; apply app_nil_r|] end.
    intros r Hr. apply in_map_iff in Hr as ([k r'] & <- & Hin).
    apply list_elem_of_In, elem_of_map_to_list in Hin. cbn [snd].
    rewrite getModelByInterval_set_candleModel in Hin.
    replace (TimeInterval_eqb interval interval) with true in Hin
      by (destruct interval; reflexivity).
    rewrite lookup_fmap in Hin.
    destruct (getModelByInterval interval (db s) !! k) as [r0|]; [|discriminate].
    injection Hin as <-. apply due_turn.
Qed.

(** ** The cache of token decimals *)

(** X7. [fetchTokenDecimals] always returns, leaves the database alone and
    remembers what it returned: the cache holds the result under the token
    and is otherwise as before, and any later call for the token, in whatever
    state still has this entry, returns the same decimals and changes
    nothing, whatever the Token collection or the contract say by then. *)
Theorem fetchTokenDecimals_memoizes (env : Env) (tokenAddress : string) (s : State) :
  exists decimals s',
    fetchTokenDecimals env tokenAddress s = (s', Return decimals)
    /\ db s' = db s
    /\ tokenDecimalsCache s' !! tokenAddress = Some decimals
    /\ (forall other, other <> tokenAddress ->
          tokenDecimalsCache s' !! other = tokenDecimalsCache s !! other)
    /\ (forall env' later,
          tokenDecimalsCache later !! tokenAddress = Some decimals ->
          fetchTokenDecimals env' tokenAddress later = (later, Return decimals)).
Proof.
  assert (Hhit : forall d env' later,
             tokenDecimalsCache later !! tokenAddress = Some d ->
             fetchTokenDecimals env' tokenAddress later = (later, Return d)).
  { intros d env' later Hc. unfold fetchTokenDecimals. rewrite bind_get, Hc. reflexivity. }
  unfold fetchTokenDecimals at 1. rewrite bind_get.
  destruct (tokenDecimalsCache s !! tokenAddress) as [d|] eqn:Hc.
  - exists d, s. repeat split; auto.
  - destruct (tokenAddress =? ZERO_ADDRESS)%string.
    + eexists _, _. split; [reflexivity|]. cbn. split; [reflexivity|].
      split; [apply lookup_insert_eq|]. split; [|apply Hhit].
      intros other Ho. apply lookup_insert_ne. congruence.
    + destruct (tokenModel (db s) !! tokenAddress) as [token|].
      * eexists _, _. split; [reflexivity|]. cbn. split; [reflexivity|].
        split; [apply lookup_insert_eq|]. split; [|apply Hhit].
        intros other Ho. apply lookup_insert_ne. congruence.
      * destruct (erc20_decimals env tokenAddress) as [d|];
          (eexists _, _; split; [reflexivity|]; cbn; split; [reflexivity|];
           split; [apply lookup_insert_eq|]; split; [|apply Hhit];
           intros other Ho; apply lookup_insert_ne; congruence).
Qed.

(** ** The native price and the derived price *)

Lemma truthy_not_NaN (x : JS.number) : JS.truthy x = true -> JS.isNaN x = false.
Proof.
  unfold JS.truthy. destruct (JS.isNaN x); [discriminate | reflexivity].
Qed.

(** X8. [getNativePriceInUSD] always returns a number that is not [NaN],
    without touching the database; when no pool id is configured, or the
    configured pool has no row, the number is 0 and a warning is logged. *)
Theorem getNativePriceInUSD_never_NaN (env : Env) (s : State) :
  exists s' nativePriceUSD,
    getNativePriceInUSD env s = (s', Return nativePriceUSD)
    /\ db s' = db s
    /\ JS.isNaN nativePriceUSD = false
    /\ (stablecoinWrappedNativePoolId env = EmptyString
        \/ poolModel (db s) !! stablecoinWrappedNativePoolId env = None ->
        nativePriceUSD = 0%float
        /\ exists msg, logged s' = logged s ++ [(WARN, msg)]).
Proof.
  unfold getNativePriceInUSD.
  destruct (stablecoinWrappedNativePoolId env =? EmptyString)%string eqn:Hid.
  - eexists _, _. split; [reflexivity|]. split; [reflexivity|].
    split; [reflexivity|]. intros _. split; [reflexivity|]. eexists. reflexivity.
  - rewrite bind_get. apply String.eqb_neq in Hid.
    destruct (poolModel (db s) !! stablecoinWrappedNativePoolId env) as [pool|].
    + eexists _, _. split; [reflexivity|]. split; [reflexivity|]. split.
      * unfold JS.or_else.
        match goal with |- JS.isNaN (if JS.truthy ?x then _ else _) = _ =>
          destruct (JS.truthy x) eqn:Ht end.
        -- apply truthy_not_NaN. exact Ht.
        -- reflexivity.
      * intros [H|H]; [contradiction | discriminate].
    + eexists _, _. split; [reflexivity|]. split; [reflexivity|].
      split; [reflexivity|]. intros _. split; [reflexivity|]. eexists. reflexivity.
Qed.

(** A whitelisted pool that cannot give a price: it has no row, or its
    liquidity is not positive. *)
Definition no_liquidity (d : Store) (poolAddress : string) : Prop :=
  match poolModel d !! poolAddress with
  | None => True
  | Some pool => Pool.liquidity pool <= 0
  end.

Lemma includes_false (xs : list string) (x : string) :
  ~ In x xs -> includes xs x = false.
Proof.
  intros Hn. unfold includes.
  destruct (existsb (String.eqb x) xs) eqn:He; [|reflexivity].
  apply existsb_exists in He as (y & Hy & Heq).
  apply String.eqb_eq in Heq. subst y. contradiction.
Qed.

(** X9. For a token that is neither the wrapped native token, nor the zero
    address, nor a stablecoin, and all of whose whitelisted pools are missing
    or without liquidity (a token with no whitelisted pool among them),
    [findNativePerToken] returns 0 and changes nothing. *)
Theorem findNativePerToken_without_liquidity (env : Env) (token : Token.t)
    (wrappedNative : string) (stablecoins : list string) (minimumNativeLocked : Z)
    (s : State) :
  Token.address token <> wrappedNative ->
  Token.address token <> ZERO_ADDRESS ->
  ~ In (Token.address token) stablecoins ->
  Forall (no_liquidity (db s)) (Token.whitelistPools token) ->
  findNativePerToken env token wrappedNative stablecoins minimumNativeLocked s
  = (s, Return 0%float).
Proof.
  intros Hw Hz Hst Hall. unfold findNativePerToken.
  apply String.eqb_neq in Hw, Hz. rewrite Hw, Hz. cbn [orb].
  rewrite (includes_false _ _ Hst). rewrite bind_get. unfold ret. do 2 f_equal.
  assert (Hfold : fold_left (scanWhitelistPool (db s) token minimumNativeLocked)
                    (Token.whitelistPools token) (ZERO_BD, ZERO_BD)
                  = (ZERO_BD, ZERO_BD)).
  { induction Hall as [|p ps Hp _ IH]; [reflexivity|].
    cbn [fold_left]. unfold scanWhitelistPool at 2. unfold no_liquidity in Hp.
    destruct (poolModel (db s) !! p) as [pool|]; [|exact IH].
    replace (0 <? Pool.liquidity pool) with false by (symmetry; apply Z.ltb_ge; exact Hp).
    exact IH. }
  rewrite Hfold. reflexivity.
Qed.

Lemma findNativePerToken_without_liquidity_witness :
  findNativePerToken Scenario.env
    (Token.mk Scenario.dai "DAI" "Dai Stablecoin" 18 0 "0" "0" "0" "0" "0" "0" 0
              [Scenario.poolA; "0xmissing"])
    Scenario.weth [] 0 Scenario.afterS1
  = (Scenario.afterS1, Return 0%float).
Proof.
  apply findNativePerToken_without_liquidity.
  - discriminate.
  - discriminate.
  - intros [].
  - repeat constructor; vm_compute; congruence.
Defined.

(** ** What one swap adds to a token *)

Lemma fetchTokenMetadata_returns (env : Env) (tokenAddress : string) (s : State) :
  exists metadata s',
    fetchTokenMetadata env tokenAddress s = (s', Return metadata) /\ db s' = db s.
Proof.
  unfold fetchTokenMetadata.
  destruct ((tokenAddress =? ZERO_ADDRESS)%string
            || (tokenAddress =? wrappedNativeAddress env)%string).
  - eexists _, _. split; reflexivity.
  - destruct (erc20_decimals env tokenAddress); eexists _, _; split; reflexivity.
Qed.

Lemma findNativePerToken_returns (env : Env) (token : Token.t) (w : string)
    (st : list string) (mn : Z) (s : State) :
  exists p s', findNativePerToken env token w st mn s = (s', Return p) /\ db s' = db s.
Proof.
  unfold findNativePerToken.
  destruct ((Token.address token =? w)%string
            || (Token.address token =? ZERO_ADDRESS)%string).
  - eexists _, _. split; reflexivity.
  - destruct (includes st (Token.address token)).
    + destruct (getNativePriceInUSD_returns env s) as (s' & p & Hrun & Hdb & _).
      rewrite (bind_Return _ _ _ _ _ Hrun).
      destruct (negb (JS.truthy p)); eexists _, _; split; try reflexivity; exact Hdb.
    + eexists _, _. split; reflexivity.
Qed.

(** The writes of the candle collections leave the other collections
    alone. *)
Definition besides_candles (d d' : Store) : Prop :=
  poolModel d' = poolModel d /\ swapEventModel d' = swapEventModel d
  /\ tokenModel d' = tokenModel d /\ syncStateModel d' = syncStateModel d.

Lemma besides_candles_refl d : besides_candles d d.
Proof. repeat split. Qed.

Lemma besides_candles_trans a b c :
  besides_candles a b -> besides_candles b c -> besides_candles a c.
Proof.
  intros (H1 & H2 & H3 & H4) (K1 & K2 & K3 & K4).
  repeat split; congruence.
Qed.

Lemma besides_candles_set i f d : besides_candles d (set_candleModel i f d).
Proof. destruct i; repeat split. Qed.

Lemma besides_candles_folds a ts v vu fd cp tvl tvlu s :
  besides_candles (db s)
    (db (fst (Promise_all3
                (updateOrCreateCurrentRecord a MINUTE ts v vu fd cp tvl tvlu)
                (updateOrCreateCurrentRecord a HOUR ts v vu fd cp tvl tvlu)
                (updateOrCreateCurrentRecord a DAY ts v vu fd cp tvl tvlu) s))).
Proof.
  apply (Promise_all3_steps besides_candles besides_candles_refl besides_candles_trans);
    apply (updateOrCreateCurrentRecord_steps besides_candles besides_candles_refl
             besides_candles_trans);
    intros; apply besides_candles_set.
Qed.

(** The end of [updateCurrentRecord], from the derived price on, for the
    token [token] as it is stored in [s]. *)
Lemma updateCurrentRecord_tail (env : Env) (swap : SwapEvent.t) (tokenAddress : string)
    (absAmount : Z) (feesUSD : JS.number) (token : Token.t) (s : State) :
  tokenModel (db s) !! tokenAddress = Some token ->
  let s' :=
    fst ((derivedBTC <- findNativePerToken env token (wrappedNativeAddress env)
                          (stablecoinAddresses env) ZERO_BI ;;
          update_db (set_tokenModel
            (updateOne tokenAddress
               (cumulate token absAmount 0%float feesUSD derivedBTC))) ;;
          Promise_all3
            (updateOrCreateCurrentRecord tokenAddress MINUTE (SwapEvent.blockTimestamp swap)
               absAmount 0%float feesUSD derivedBTC 0 0%float)
            (updateOrCreateCurrentRecord tokenAddress HOUR (SwapEvent.blockTimestamp swap)
               absAmount 0%float feesUSD derivedBTC 0 0%float)
            (updateOrCreateCurrentRecord tokenAddress DAY (SwapEvent.blockTimestamp swap)
               absAmount 0%float feesUSD derivedBTC 0 0%float)) s) in
  (exists token',
     tokenModel (db s') !! tokenAddress = Some token'
     /\ Token.txCount token' = Token.txCount token + 1
     /\ Token.volume token' = Token.volume token + absAmount
     /\ Token.whitelistPools token' = Token.whitelistPools token)
  /\ (forall other, other <> tokenAddress ->
        tokenModel (db s') !! other = tokenModel (db s) !! other)
  /\ poolModel (db s') = poolModel (db s)
  /\ swapEventModel (db s') = swapEventModel (db s)
  /\ syncStateModel (db s') = syncStateModel (db s).
Proof.
  intros Hrow s'. subst s'.
  destruct (findNativePerToken_returns env token (wrappedNativeAddress env)
              (stablecoinAddresses env) ZERO_BI s) as (p & s1 & Hp & Hdb1).
  rewrite (bind_Return _ _ _ _ _ Hp), bind_update_db.
  match goal with |- context [fst (Promise_all3 ?m1 ?m2 ?m3 ?s2)] =>
    destruct (besides_candles_folds tokenAddress (SwapEvent.blockTimestamp swap)
                absAmount 0%float feesUSD p 0 0%float s2) as (Kp & Ks & Kt & Ky)
  end.
  rewrite Kp, Ks, Kt, Ky. cbn [set_db db set_tokenModel tokenModel poolModel
                                 swapEventModel syncStateModel].
  rewrite Hdb1. unfold updateOne. split; [|split; [|repeat split]].
  - rewrite lookup_alter_eq, Hrow. eexists. split; [reflexivity|].
    cbn [cumulate Token.txCount Token.volume Token.whitelistPools]. auto.
  - intros other Ho. apply lookup_alter_ne. congruence.
Qed.

(** X10. Whatever becomes of the candles, [updateCurrentRecord] counts the
    swap in the token: when it ends, with or without an exception, the
    token's row exists, its [txCount] is one more and its [volume] is
    [|amount|] more than before the call (counted from 0 for a token that had
    no row), its whitelist is as before, and the rows of the other tokens,
    the pools, the stored swaps and SyncState are untouched. *)
Theorem updateCurrentRecord_counts_the_swap (env : Env) (swap : SwapEvent.t)
    (tokenAddress : string) (isToken0 : bool) (s : State) :
  let old := tokenModel (db s) !! tokenAddress in
  let amount := if isToken0 then SwapEvent.amount0 swap else SwapEvent.amount1 swap in
  let s' := fst (updateCurrentRecord env swap tokenAddress isToken0 s) in
  (exists token,
     tokenModel (db s') !! tokenAddress = Some token
     /\ Token.txCount token = from_option Token.txCount 0 old + 1
     /\ Token.volume token = from_option Token.volume 0 old + abs amount
     /\ Token.whitelistPools token = from_option Token.whitelistPools [] old)
  /\ (forall other, other <> tokenAddress ->
        tokenModel (db s') !! other = tokenModel (db s) !! other)
  /\ poolModel (db s') = poolModel (db s)
  /\ swapEventModel (db s') = swapEventModel (db s)
  /\ syncStateModel (db s') = syncStateModel (db s).
Proof.
  intros old amount s'. subst s' old amount. unfold updateCurrentRecord.
  rewrite bind_get.
  (* the stored row and the local object after the metadata step *)
  assert (Hmeta : forall (token : Token.t) (s1 : State),
             tokenModel (db s1) !! tokenAddress = Some token ->
             forall k : option Token.t -> M unit,
             exists token2 s2,
               bind (match Some token with
                     | Some token =>
                         if (Token.symbol token =? "UNKNOWN")%string then
                           metadata <- fetchTokenMetadata env tokenAddress ;;
                           update_db (set_tokenModel
                             (updateOne tokenAddress (setMetadata metadata))) ;;
                           ret (Some (setMetadata metadata token))
                         else ret (Some token)
                     | None => ret None
                     end) k s1
               = k (Some token2) s2
               /\ tokenModel (db s2) !! tokenAddress = Some token2
               /\ Token.txCount token2 = Token.txCount token
               /\ Token.volume token2 = Token.volume token
               /\ Token.whitelistPools token2 = Token.whitelistPools token
               /\ (forall other, other <> tokenAddress ->
                     tokenModel (db s2) !! other = tokenModel (db s1) !! other)
               /\ poolModel (db s2) = poolModel (db s1)
               /\ swapEventModel (db s2) = swapEventModel (db s1)
               /\ syncStateModel (db s2) = syncStateModel (db s1)).
  { intros token s1 Hrow k. cbv iota.
    destruct (Token.symbol token =? "UNKNOWN")%string.
    - destruct (fetchTokenMetadata_returns env tokenAddress s1) as (md & s2 & Hmd & Hdb2).
      rewrite bind_assoc, (bind_Return _ _ _ _ _ Hmd), bind_assoc, bind_update_db, bind_ret.
      eexists _, _. split; [reflexivity|].
      cbn [set_db db set_tokenModel tokenModel poolModel swapEventModel syncStateModel].
      rewrite Hdb2. unfold updateOne. rewrite lookup_alter_eq, Hrow.
      repeat split. intros other Ho. apply lookup_alter_ne. congruence.
    - rewrite bind_ret. exists token, s1. repeat split. exact Hrow. }
  destruct (tokenModel (db s) !! tokenAddress) as [token0|] eqn:Hold.
  - rewrite bind_ret.
    match goal with |- context [@bind (option Token.t) unit _ ?k s] =>
      destruct (Hmeta token0 s Hold k)
        as (token2 & s2 & -> & Hrow & Hc & Hv & Hw & Ho & Hp & Hs & Hy) end.
    cbv iota beta.
    pose proof (updateCurrentRecord_tail env swap tokenAddress
                  (abs (if isToken0 then SwapEvent.amount0 swap else SwapEvent.amount1 swap))
                  (0 * (JS.Number_of_BigInt (SwapEvent.fee swap) / 10000))%float
                  token2 s2 Hrow) as (Ht & Ho' & Hp' & Hs' & Hy').
    cbn [from_option].
    split; [|split; [|repeat split]].
    + destruct Ht as (token' & Hrow' & Hc' & Hv' & Hw').
      exists token'. split; [exact Hrow'|]. repeat split; congruence.
    + intros other Hne. rewrite Ho', Ho by exact Hne. reflexivity.
    + congruence.
    + congruence.
    + congruence.
  - destruct (fetchTokenMetadata_returns env tokenAddress s) as (md & s1 & Hmd & Hdb1).
    rewrite bind_assoc, (bind_Return _ _ _ _ _ Hmd).
    match goal with |- context [bind (try_catch ?m ?h) _ s1] =>
      assert (Htc : try_catch m h s1
                    = (set_db (set_tokenModel
                                 (fun _ => <[tokenAddress := newToken tokenAddress md]>
                                             (tokenModel (db s1)))) s1,
                       Return (Some (newToken tokenAddress md))))
    end.
    { erewrite try_catch_Return; [reflexivity|].
      rewrite bind_get. unfold create. rewrite Hdb1, Hold. reflexivity. }
    rewrite (bind_Return _ _ _ _ _ Htc).
    match goal with |- context [@bind (option Token.t) unit _ ?k ?s1'] =>
      assert (Hnew : tokenModel (db s1') !! tokenAddress
                     = Some (newToken tokenAddress md))
        by (cbn [set_db db set_tokenModel tokenModel]; apply lookup_insert_eq);
      destruct (Hmeta (newToken tokenAddress md) s1' Hnew k) as
          (token2 & s2 & -> & Hrow & Hc & Hv & Hw & Ho & Hp & Hs & Hy)
    end.
    cbv iota beta.
    pose proof (updateCurrentRecord_tail env swap tokenAddress
                  (abs (if isToken0 then SwapEvent.amount0 swap else SwapEvent.amount1 swap))
                  (0 * (JS.Number_of_BigInt (SwapEvent.fee swap) / 10000))%float
                  token2 s2 Hrow) as (Ht & Ho' & Hp' & Hs' & Hy').
    cbn [from_option].
    cbn [set_db db set_tokenModel tokenModel poolModel swapEventModel syncStateModel]
      in Ho, Hp, Hs, Hy.
    split; [|split; [|repeat split]].
    + destruct Ht as (token' & Hrow' & Hc' & Hv' & Hw').
      exists token'. split; [exact Hrow'|].
      cbn [newToken Token.txCount Token.volume Token.whitelistPools] in Hc, Hv, Hw.
      repeat split; congruence.
    + intros other Hne. rewrite Ho', Ho by exact Hne.
      rewrite lookup_insert_ne by congruence. rewrite Hdb1. reflexivity.
    + congruence.
    + congruence.
    + congruence.
Qed.

(** ** Whitelists *)

(** The upsert of [processTokenWhitelistUpdate], on the row of the token. *)
Definition whitelisted (tokenAddress poolId : string) (old : option Token.t) : Token.t :=
  match old with
  | Some t =>
      Token.mk (Token.address t) (Token.symbol t) (Token.name t) (Token.decimals t)
        (Token.volume t) (Token.volumeUSD t) (Token.untrackedVolumeUSD t)
        (Token.feesUSD t) (Token.totalValueLocked t) (Token.totalValueLockedUSD t)
        (Token.derivedBTC t) (Token.txCount t)
        (addToSet poolId (Token.whitelistPools t))
  | None =>
      Token.mk tokenAddress "UNKNOWN" "Unknown Token" 18 0 "0" "0" "0" "0" "0" "0" 0 [poolId]
  end.

Lemma processTokenWhitelistUpdate_run (tokenAddress poolId : string) (s : State) :
  processTokenWhitelistUpdate tokenAddress poolId s
  = (add_log LOG ("Updated whitelist for token " +:+ tokenAddress
                  +:+ " with pool " +:+ poolId)
       (set_db (set_tokenModel
                  (fun m => <[tokenAddress := whitelisted tokenAddress poolId
                                                 (m !! tokenAddress)]> m)) s),
     Return tt).
Proof.
  unfold processTokenWhitelistUpdate, try_catch. rewrite bind_update_db.
  unfold logger, modify, add_log, set_db, set_tokenModel. cbv beta.
  cbn [db tokenModel].
  destruct (tokenModel (db s) !! tokenAddress); reflexivity.
Qed.

Lemma updateTokenWhitelist_run (tokenAddress poolId : string) (s : State) :
  updateTokenWhitelist tokenAddress poolId s
  = processTokenWhitelistUpdate tokenAddress poolId s.
Proof.
  unfold updateTokenWhitelist, try_catch.
  rewrite processTokenWhitelistUpdate_run. reflexivity.
Qed.

Lemma includes_In (xs : list string) (x : string) : includes xs x = true <-> In x xs.
Proof.
  unfold includes. rewrite existsb_exists. split.
  - intros (y & Hy & Heq). apply String.eqb_eq in Heq. subst. exact Hy.
  - intros H. exists x. split; [exact H | apply String.eqb_refl].
Qed.

Lemma addToSet_In (x y : string) (xs : list string) :
  In y (addToSet x xs) <-> y = x \/ In y xs.
Proof.
  unfold addToSet. destruct (includes xs x) eqn:Hi.
  - apply includes_In in Hi. split; [auto|]. intros [->|H]; assumption.
  - rewrite in_app_iff. cbn [In]. split; [intros [H|[H|[]]]; auto | intros [H|H]; auto].
Qed.

Lemma addToSet_NoDup (x : string) (xs : list string) :
  List.NoDup xs -> List.NoDup (addToSet x xs).
Proof.
  intros Hnd. unfold addToSet. destruct (includes xs x) eqn:Hi; [exact Hnd|].
  assert (Hn : ~ In x xs).
  { intros H. apply includes_In in H. congruence. }
  clear Hi. induction Hnd as [|y ys Hy Hnd IH]; cbn [app].
  - constructor; [intros [] | constructor].
  - constructor.
    + rewrite in_app_iff. cbn [In]. intros [H|[H|[]]]; [contradiction|].
      subst. apply Hn. left. reflexivity.
    + apply IH. intros H. apply Hn. right. exact H.
Qed.

Lemma addToSet_twice (x : string) (xs : list string) :
  addToSet x (addToSet x xs) = addToSet x xs.
Proof.
  unfold addToSet at 1.
  replace (includes (addToSet x xs) x) with true; [reflexivity|].
  symmetry. apply includes_In, addToSet_In. left. reflexivity.
Qed.

(** X11. [processTokenWhitelistUpdate] never fails. Afterwards the token
    has a row whose whitelist holds the pool; the pools that were listed are
    still listed, in the order they had, with the new pool, if it is new, at
    the end, and a list without repetitions stays so; the other fields of an
    existing row are untouched and a row that had to be created has the
    defaults; the other rows are as before; and a second update with the same
    pool changes nothing in the database. *)
Theorem processTokenWhitelistUpdate_adds_the_pool_once (tokenAddress poolId : string)
    (s : State) :
  let old := tokenModel (db s) !! tokenAddress in
  let r := processTokenWhitelistUpdate tokenAddress poolId s in
  snd r = Return tt
  /\ (exists token,
        tokenModel (db (fst r)) !! tokenAddress = Some token
        /\ In poolId (Token.whitelistPools token)
        /\ (Token.whitelistPools token = from_option Token.whitelistPools [] old
            \/ Token.whitelistPools token
               = from_option Token.whitelistPools [] old ++ [poolId])
        /\ (List.NoDup (from_option Token.whitelistPools [] old) ->
            List.NoDup (Token.whitelistPools token))
        /\ match old with
           | Some t =>
               (Token.address token, Token.symbol token, Token.name token,
                Token.decimals token, Token.volume token, Token.txCount token,
                Token.derivedBTC token)
               = (Token.address t, Token.symbol t, Token.name t,
                  Token.decimals t, Token.volume t, Token.txCount t,
                  Token.derivedBTC t)
           | None =>
               token = Token.mk tokenAddress "UNKNOWN" "Unknown Token" 18
                                0 "0" "0" "0" "0" "0" "0" 0 [poolId]
           end)
  /\ (forall other, other <> tokenAddress ->
        tokenModel (db (fst r)) !! other = tokenModel (db s) !! other)
  /\ db (fst (processTokenWhitelistUpdate tokenAddress poolId (fst r))) = db (fst r).
Proof.
  cbv zeta. rewrite !processTokenWhitelistUpdate_run. cbn [fst snd].
  cbn [add_log set_db db set_tokenModel tokenModel].
  split; [reflexivity|]. split; [|split].
  - eexists. split; [apply lookup_insert_eq|].
    destruct (tokenModel (db s) !! tokenAddress) as [t|];
      cbn [whitelisted Token.whitelistPools from_option].
    + split; [apply addToSet_In; left; reflexivity|].
      split; [unfold addToSet; destruct (includes (Token.whitelistPools t) poolId); auto|].
      split; [apply addToSet_NoDup | reflexivity].
    + split; [left; reflexivity|]. split; [right; reflexivity|].
      split; [|reflexivity]. intros _. constructor; [intros [] | constructor].
  - intros other Ho. apply lookup_insert_ne. congruence.
  - unfold set_tokenModel. cbn [tokenModel poolModel swapEventModel syncStateModel
           tokenMinuteModel tokenHourModel tokenDayModel]. f_equal.
    rewrite lookup_insert_eq. rewrite insert_insert_eq. f_equal.
    destruct (tokenModel (db s) !! tokenAddress) as [t|]; cbn [whitelisted];
      cbn [Token.address Token.symbol Token.name Token.decimals Token.volume
           Token.volumeUSD Token.untrackedVolumeUSD Token.feesUSD
           Token.totalValueLocked Token.totalValueLockedUSD Token.derivedBTC
           Token.txCount Token.whitelistPools].
    + rewrite addToSet_twice. reflexivity.
    + unfold addToSet, includes. cbn [existsb]. rewrite String.eqb_refl. reflexivity.
Qed.

(** One of the two conditional updates of [updateTokenWhitelists]. *)
Lemma updateTokenWhitelist_if (b : bool) (tokenAddress poolId : string) (s : State) :
  exists s',
    (if b then updateTokenWhitelist tokenAddress poolId else ret tt) s = (s', Return tt)
    /\ poolModel (db s') = poolModel (db s)
    /\ swapEventModel (db s') = swapEventModel (db s)
    /\ syncStateModel (db s') = syncStateModel (db s)
    /\ (forall i, getModelByInterval i (db s') = getModelByInterval i (db s))
    /\ (b = true ->
        exists t, tokenModel (db s') !! tokenAddress = Some t
                  /\ In poolId (Token.whitelistPools t))
    /\ (b = false -> tokenModel (db s') = tokenModel (db s))
    /\ (forall other,
          (exists t, tokenModel (db s) !! other = Some t
                     /\ In poolId (Token.whitelistPools t)) ->
          exists t, tokenModel (db s') !! other = Some t
                    /\ In poolId (Token.whitelistPools t)).
Proof.
  destruct b.
  - rewrite updateTokenWhitelist_run, processTokenWhitelistUpdate_run.
    eexists. split; [reflexivity|].
    cbn [add_log set_db db set_tokenModel tokenModel poolModel swapEventModel
         syncStateModel].
    split; [reflexivity|]. split; [reflexivity|]. split; [reflexivity|].
    split; [intros []; reflexivity|].
    assert (Hadd : In poolId (Token.whitelistPools
                                (whitelisted tokenAddress poolId
                                   (tokenModel (db s) !! tokenAddress)))).
    { destruct (tokenModel (db s) !! tokenAddress) as [t|];
        cbn [whitelisted Token.whitelistPools].
      - apply addToSet_In. left. reflexivity.
      - left. reflexivity. }
    split; [|split; [discriminate|]].
    + intros _. eexists. split; [apply lookup_insert_eq | exact Hadd].
    + intros other (t & Ht & Hin).
      destruct (decide (tokenAddress = other)) as [->|Hne].
      * eexists. split; [apply lookup_insert_eq | exact Hadd].
      * exists t. split; [|exact Hin]. rewrite lookup_insert_ne by exact Hne. exact Ht.
  - exists s. repeat split; auto. discriminate.
Qed.

Lemma updateTokenWhitelists_run (env : Env) (poolId currency0 currency1 : string)
    (s : State) :
  exists s',
    updateTokenWhitelists env poolId currency0 currency1 s = (s', Return tt)
    /\ poolModel (db s') = poolModel (db s)
    /\ swapEventModel (db s') = swapEventModel (db s)
    /\ syncStateModel (db s') = syncStateModel (db s)
    /\ (forall i, getModelByInterval i (db s') = getModelByInterval i (db s))
    /\ (In currency0 (whitelistTokens env) ->
        exists t, tokenModel (db s') !! currency1 = Some t
                  /\ In poolId (Token.whitelistPools t))
    /\ (In currency1 (whitelistTokens env) ->
        exists t, tokenModel (db s') !! currency0 = Some t
                  /\ In poolId (Token.whitelistPools t))
    /\ (~ In currency0 (whitelistTokens env) -> ~ In currency1 (whitelistTokens env) ->
        tokenModel (db s') = tokenModel (db s)).
Proof.
  unfold updateTokenWhitelists.
  destruct (updateTokenWhitelist_if (includes (whitelistTokens env) currency0)
              currency1 poolId s)
    as (s1 & H1 & Kp1 & Ks1 & Ky1 & Kc1 & Kt1 & Kf1 & Kk1).
  destruct (updateTokenWhitelist_if (includes (whitelistTokens env) currency1)
              currency0 poolId s1)
    as (s2 & H2 & Kp2 & Ks2 & Ky2 & Kc2 & Kt2 & Kf2 & Kk2).
  exists s2. split; [rewrite (bind_Return _ _ _ _ _ H1); exact H2|].
  split; [congruence|]. split; [congruence|]. split; [congruence|].
  split; [intros i; rewrite Kc2; apply Kc1|].
  split; [|split].
  - intros Hin. apply Kk2, Kt1, includes_In, Hin.
  - intros Hin. apply Kt2, includes_In, Hin.
  - intros Hn0 Hn1. rewrite Kf2, Kf1; [reflexivity | |];
      apply includes_false; assumption.
Qed.

(** X12. The Initialize event of a pool that has no row yet, in a block the
    node returns: the handler returns, the pool is stored under its id with
    the fields of the event, the prices of its square-root price, no
    liquidity and nothing locked; the pool is listed in the whitelist of a
    currency whose partner is one of the configured whitelist tokens, and
    when neither currency is one the Token collection is as before; swaps,
    candles and SyncState are not touched. *)
Theorem handleInitializeEvent_creates_the_pool (env : Env) (id currency0 currency1 : string)
    (fee tickSpacing : Z) (hooks : string) (sqrtPriceX96 tick : Z) (event : Log.t)
    (s : State) (timestamp : Z) :
  poolModel (db s) !! id = None ->
  getBlock env (Log.blockNumber event) = Some timestamp ->
  exists s' token0Decimals token1Decimals,
    handleInitializeEvent env id currency0 currency1 fee tickSpacing hooks
                          sqrtPriceX96 tick event s = (s', Return tt)
    /\ poolModel (db s')
       = <[id := let prices := sqrtPriceX96ToTokenPrices sqrtPriceX96
                                 token0Decimals token1Decimals in
                 Pool.mk id currency0 currency1 fee tickSpacing hooks sqrtPriceX96 tick
                   (Log.blockNumber event) (timestamp * 1000) (Log.transactionHash event)
                   (token0Price prices) (token1Price prices) 0 0 0]> (poolModel (db s))
    /\ (In currency0 (whitelistTokens env) ->
        exists t, tokenModel (db s') !! currency1 = Some t
                  /\ In id (Token.whitelistPools t))
    /\ (In currency1 (whitelistTokens env) ->
        exists t, tokenModel (db s') !! currency0 = Some t
                  /\ In id (Token.whitelistPools t))
    /\ (~ In currency0 (whitelistTokens env) -> ~ In currency1 (whitelistTokens env) ->
        tokenModel (db s') = tokenModel (db s))
    /\ swapEventModel (db s') = swapEventModel (db s)
    /\ syncStateModel (db s') = syncStateModel (db s)
    /\ (forall i, getModelByInterval i (db s') = getModelByInterval i (db s)).
Proof.
  intros Hpool Hblock. unfold handleInitializeEvent. rewrite Hblock.
  destruct (fetchTokenDecimals_returns env currency0 s) as (d0 & s1 & Hd0 & Hdb1).
  destruct (fetchTokenDecimals_returns env currency1 s1) as (d1 & s2 & Hd1 & Hdb2).
  match goal with |- context [try_catch ?m ?h s] =>
    destruct (updateTokenWhitelists_run env id currency0 currency1
                (add_log LOG ("New pool initialized: " +:+ id)
                   (set_db (set_poolModel
                              (fun _ => <[id := let prices := sqrtPriceX96ToTokenPrices
                                                                sqrtPriceX96 d0 d1 in
                                                Pool.mk id currency0 currency1 fee tickSpacing
                                                  hooks sqrtPriceX96 tick
                                                  (Log.blockNumber event) (timestamp * 1000)
                                                  (Log.transactionHash event)
                                                  (token0Price prices) (token1Price prices)
                                                  0 0 0]> (poolModel (db s2)))) s2)))
      as (s3 & Hw & Kp & Ks & Ky & Kc & K0 & K1 & Kn);
    assert (Hrun : m s = (s3, Return tt))
  end.
  { rewrite (bind_Return _ _ _ _ _ Hd0), (bind_Return _ _ _ _ _ Hd1).
    rewrite bind_get. unfold create. rewrite Hdb2, Hdb1, Hpool.
    cbn [of_result]. rewrite bind_ret, bind_update_db, bind_logger.
    rewrite <- Hw. rewrite Hdb2, Hdb1. reflexivity. }
  exists s3, d0, d1. split; [apply try_catch_Return; exact Hrun|].
  cbn [add_log set_db db set_poolModel poolModel tokenModel swapEventModel
       syncStateModel] in *.
  rewrite Hdb2, Hdb1 in *.
  split; [exact Kp|]. split; [exact K0|]. split; [exact K1|].
  split; [exact Kn|]. split; [exact Ks|]. split; [exact Ky|].
  intros i. rewrite Kc. destruct i; reflexivity.
Qed.

Lemma handleInitializeEvent_creates_the_pool_witness :
  exists s' token0Decimals token1Decimals,
    handleInitializeEvent Scenario.env Scenario.poolA Scenario.weth Scenario.dai 3000 60
      ZERO_ADDRESS 79228162514264337593543950336 0 Scenario.S1 Scenario.initial
    = (s', Return tt)
    /\ poolModel (db s')
       = <[Scenario.poolA :=
             let prices := sqrtPriceX96ToTokenPrices 79228162514264337593543950336
                             token0Decimals token1Decimals in
             Pool.mk Scenario.poolA Scenario.weth Scenario.dai 3000 60 ZERO_ADDRESS
               79228162514264337593543950336 0
               (Log.blockNumber Scenario.S1) (1700001212 * 1000)
               (Log.transactionHash Scenario.S1)
               (token0Price prices) (token1Price prices) 0 0 0]>
           (poolModel (db Scenario.initial))
    /\ (In Scenario.weth (whitelistTokens Scenario.env) ->
        exists t, tokenModel (db s') !! Scenario.dai = Some t
                  /\ In Scenario.poolA (Token.whitelistPools t))
    /\ (In Scenario.dai (whitelistTokens Scenario.env) ->
        exists t, tokenModel (db s') !! Scenario.weth = Some t
                  /\ In Scenario.poolA (Token.whitelistPools t))
    /\ (~ In Scenario.weth (whitelistTokens Scenario.env) ->
        ~ In Scenario.dai (whitelistTokens Scenario.env) ->
        tokenModel (db s') = tokenModel (db Scenario.initial))
    /\ swapEventModel (db s') = swapEventModel (db Scenario.initial)
    /\ syncStateModel (db s') = syncStateModel (db Scenario.initial)
    /\ (forall i, getModelByInterval i (db s') = getModelByInterval i (db Scenario.initial)).
Proof.
  apply (handleInitializeEvent_creates_the_pool Scenario.env Scenario.poolA Scenario.weth
           Scenario.dai 3000 60 ZERO_ADDRESS 79228162514264337593543950336 0
           Scenario.S1 Scenario.initial 1700001212).
  - reflexivity.
  - reflexivity.
Defined.

(** ** Liquidity *)

(** X13. A ModifyLiquidity event for a pool that has a row either ends
    with the row's liquidity increased by [liquidityDelta] and its locked
    amounts by the amounts of the liquidity math, or, when the liquidity math
    fails, logs the error, passes it on and leaves the row as it was. In both
    cases the prices and the other fields of the row, the other pools and the
    other collections are untouched. *)
Theorem handleModifyLiquidityEvent_updates_liquidity (env : Env) (poolId sender : string)
    (tickLower tickUpper liquidityDelta : Z) (salt : string) (event : Log.t)
    (s : State) (pool : Pool.t) :
  poolModel (db s) !! poolId = Some pool ->
  let r := handleModifyLiquidityEvent env poolId sender tickLower tickUpper
                                      liquidityDelta salt event s in
  let amount0 := getAmount0 env tickLower tickUpper (Pool.tick pool) liquidityDelta
                            (Pool.sqrtPriceX96 pool) in
  let amount1 := getAmount1 env tickLower tickUpper (Pool.tick pool) liquidityDelta
                            (Pool.sqrtPriceX96 pool) in
  match amount0, amount1 with
  | inr a0, inr a1 =>
      snd r = Return tt
      /\ poolModel (db (fst r))
         = <[poolId := poolAfterModifyLiquidity
                         (Pool.liquidity pool + liquidityDelta)
                         (Pool.totalValueLockedToken0 pool + a0)
                         (Pool.totalValueLockedToken1 pool + a1) pool]>
             (poolModel (db s))
  | inl e, _ | inr _, inl e =>
      snd r = Throw e
      /\ db (fst r) = db s
      /\ logged (fst r) = logged s ++ [(ERROR, "Error handling ModifyLiquidity event")]
  end
  /\ swapEventModel (db (fst r)) = swapEventModel (db s)
  /\ tokenModel (db (fst r)) = tokenModel (db s)
  /\ syncStateModel (db (fst r)) = syncStateModel (db s)
  /\ (forall i, getModelByInterval i (db (fst r)) = getModelByInterval i (db s)).
Proof.
  intros Hpool. cbv zeta. unfold handleModifyLiquidityEvent, try_catch.
  rewrite bind_get, Hpool.
  destruct (getAmount0 env tickLower tickUpper (Pool.tick pool) liquidityDelta
              (Pool.sqrtPriceX96 pool)) as [e|a0]; cbn [of_result].
  - unfold bind at 1. cbn [throw]. rewrite bind_logger. cbn [fst snd throw add_log db logged].
    repeat split.
  - rewrite bind_ret.
    destruct (getAmount1 env tickLower tickUpper (Pool.tick pool) liquidityDelta
                (Pool.sqrtPriceX96 pool)) as [e|a1]; cbn [of_result].
    + unfold bind at 1. cbn [throw]. rewrite bind_logger.
      cbn [fst snd throw add_log db logged]. repeat split.
    + rewrite bind_ret, bind_update_db.
      cbn [logger modify fst snd add_log set_db db set_poolModel poolModel
           swapEventModel tokenModel syncStateModel].
      split; [split; [reflexivity|]|].
      * unfold updateOne. apply map_eq. intros k.
        destruct (decide (k = poolId)) as [->|Hne].
        -- rewrite lookup_alter_eq, lookup_insert_eq, Hpool. reflexivity.
        -- rewrite lookup_alter_ne, lookup_insert_ne by congruence. reflexivity.
      * repeat split.
Qed.

Lemma handleModifyLiquidityEvent_updates_liquidity_witness :
  exists pool,
    poolModel (db Scenario.afterS1) !! Scenario.poolA = Some pool
    /\ snd (handleModifyLiquidityEvent Scenario.env Scenario.poolA "0xsender" (-60) 60
              1000 "0x00" Scenario.S2 Scenario.afterS1) = Return tt
    /\ poolModel (db (fst (handleModifyLiquidityEvent Scenario.env Scenario.poolA
                             "0xsender" (-60) 60 1000 "0x00" Scenario.S2
                             Scenario.afterS1)))
       = <[Scenario.poolA := poolAfterModifyLiquidity (Pool.liquidity pool + 1000)
                               (Pool.totalValueLockedToken0 pool + 0)
                               (Pool.totalValueLockedToken1 pool + 0) pool]>
           (poolModel (db Scenario.afterS1)).
Proof.
  destruct (poolModel (db Scenario.afterS1) !! Scenario.poolA) as [pool|] eqn:Hpool.
  - exists pool. split; [reflexivity|].
    exact (proj1 (handleModifyLiquidityEvent_updates_liquidity Scenario.env Scenario.poolA
                    "0xsender" (-60) 60 1000 "0x00" Scenario.S2 Scenario.afterS1 pool
                    Hpool)).
  - exfalso. vm_compute in Hpool. discriminate.
Defined.

(** ** A swap that is stored *)

(** The writes of the aggregation leave pools, stored swaps and SyncState
    alone. *)
Definition besides_aggregates (d d' : Store) : Prop :=
  poolModel d' = poolModel d /\ swapEventModel d' = swapEventModel d
  /\ syncStateModel d' = syncStateModel d.

Lemma processSwapEvent_returns (env : Env) (swap : SwapEvent.t) (s : State) :
  exists s', processSwapEvent env swap s = (s', Return tt)
             /\ besides_aggregates (db s) (db s').
Proof.
  assert (Hframe : besides_aggregates (db s) (db (fst (processSwapEvent env swap s)))).
  { apply (processSwapEvent_steps besides_aggregates).
    - intros d. repeat split.
    - intros a b c (H1 & H2 & H3) (K1 & K2 & K3). repeat split; congruence.
    - intros f d. repeat split.
    - intros i k v d _. destruct i; repeat split.
    - intros i k f r d _ _. destruct i; repeat split. }
  unfold processSwapEvent, try_catch in *.
  match goal with |- exists _, match ?m s with _ => _ end = _ /\ _ =>
    destruct (m s) as [s1 [[]|e]] end.
  - exists s1. split; [reflexivity | exact Hframe].
  - eexists. split; [reflexivity | exact Hframe].
Qed.

(** X14. A Swap event of a pool that has a row, in a block the node
    returns, whose [(transactionHash, logIndex)] is not stored yet.
    Handed on by [syncBatch], with a number as its fee, the handler returns;
    the swap is stored under that key with the currencies of the pool, the
    sender also as recipient, the amounts, price, liquidity, tick and fee of
    the event and the time of its block; the pool's row takes the price, tick
    and liquidity of the event and its locked amounts grow by the two amounts;
    the other pools and stored swaps are as before; and the row of SyncState,
    if there is one, has [lastSyncedBlock] and [currentBlock] set to the block
    of the event.
    Handed on by the live queue, through [handleSwapEventFromLog] and with the
    [bigint] fee of the log, the handler writes the pool's row in the same way
    and then fails on the insert with a validation error: no swap is stored,
    no event is emitted, nothing is aggregated and SyncState is not touched;
    the queue logs the error and goes on. *)
Theorem handleSwapEvent_stores_the_swap (env : Env) (poolId sender : string)
    (amount0 amount1 sqrtPriceX96 liquidity tick fee : Z) (event : Log.t)
    (s : State) (pool : Pool.t) (timestamp : Z) :
  poolModel (db s) !! poolId = Some pool ->
  getBlock env (Log.blockNumber event) = Some timestamp ->
  swapEventModel (db s) !! (Log.transactionHash event, Log.index event) = None ->
  (exists s' token0Decimals token1Decimals,
     handleSwapEvent env poolId sender amount0 amount1 sqrtPriceX96 liquidity tick
                     (fee_number fee) event s = (s', Return tt)
     /\ swapEventModel (db s')
        = <[(Log.transactionHash event, Log.index event) :=
              SwapEvent.mk poolId (Pool.currency0 pool) (Pool.currency1 pool)
                (Log.transactionHash event) (Log.blockNumber event) (timestamp * 1000)
                sender sender amount0 amount1 sqrtPriceX96 liquidity tick
                (Log.index event) fee "0"]> (swapEventModel (db s))
     /\ poolModel (db s')
        = <[poolId := poolAfterSwap sqrtPriceX96 tick
                        (sqrtPriceX96ToTokenPrices sqrtPriceX96
                           token0Decimals token1Decimals)
                        liquidity
                        (Pool.totalValueLockedToken0 pool + amount0)
                        (Pool.totalValueLockedToken1 pool + amount1) pool]>
            (poolModel (db s))
     /\ (exists now,
           syncStateModel (db s')
           = alter (fun st => SyncState.mk (SyncState.poolManagerAddress st)
                                (Log.blockNumber event) (Log.blockNumber event)
                                (SyncState.isInitialSyncComplete st) (Some now))
                   (uniswapV4PoolManagerAddress env) (syncStateModel (db s))))
  /\ (exists s' token0Decimals token1Decimals,
        handleSwapEventFromLog env poolId sender amount0 amount1 sqrtPriceX96 liquidity
                               tick fee event s = (s', Throw ValidationError)
        /\ poolModel (db s')
           = <[poolId := poolAfterSwap sqrtPriceX96 tick
                           (sqrtPriceX96ToTokenPrices sqrtPriceX96
                              token0Decimals token1Decimals)
                           liquidity
                           (Pool.totalValueLockedToken0 pool + amount0)
                           (Pool.totalValueLockedToken1 pool + amount1) pool]>
               (poolModel (db s))
        /\ swapEventModel (db s') = swapEventModel (db s)
        /\ tokenModel (db s') = tokenModel (db s)
        /\ syncStateModel (db s') = syncStateModel (db s)
        /\ (forall i, getModelByInterval i (db s') = getModelByInterval i (db s))
        /\ emitted s' = emitted s
        /\ (isSyncing s = false ->
            Log.parsed event
            = Some (Swap poolId sender amount0 amount1 sqrtPriceX96 liquidity tick fee) ->
            forall rest,
              processQueue env (event :: rest) s
              = processQueue env rest
                  (add_log ERROR "Error processing event from queue" s'))).
Proof.
  intros Hpool Hblock Hnew. split; cycle 1.
  { destruct (handleSwapEvent_bigint_fee env poolId sender amount0 amount1 sqrtPriceX96
                liquidity tick fee event s pool timestamp Hpool Hblock)
      as (s' & d0 & d1 & Hrun & Hdb & Hemit).
    destruct (pool_rewritten poolId _ pool (db s) (db s') Hpool Hdb)
      as (Hrow & Hothers & Hs & Ht & Hy & Hc).
    exists s', d0, d1. split; [exact Hrun|].
    split; [|repeat split; try assumption].
    - apply map_eq. intros k. destruct (decide (k = poolId)) as [->|Hne].
      + rewrite lookup_insert_eq. exact Hrow.
      + rewrite lookup_insert_ne by congruence. apply Hothers. exact Hne.
    - intros Hsync Hparsed rest. unfold processQueue. apply for_each_cons.
      apply (processEntry_throw env event _ s s' ValidationError Hsync Hparsed).
      exact Hrun. }
  unfold handleSwapEvent.
  rewrite bind_get, Hpool, Hblock.
  destruct (fetchTokenDecimals_returns env (Pool.currency0 pool) s)
    as (d0 & s1 & Hd0 & Hdb1).
  destruct (fetchTokenDecimals_returns env (Pool.currency1 pool) s1)
    as (d1 & s2 & Hd1 & Hdb2).
  rewrite (bind_Return _ _ _ _ _ Hd0), (bind_Return _ _ _ _ _ Hd1).
  rewrite bind_update_db. cbn [castNumber of_result].
  match goal with |- context [try_catch ?m ?h ?s3] =>
    set (body := m); set (handler := h); set (s3' := s3) end.
  set (swapEvent := SwapEvent.mk poolId (Pool.currency0 pool) (Pool.currency1 pool)
                      (Log.transactionHash event) (Log.blockNumber event)
                      (timestamp * 1000) sender sender amount0 amount1 sqrtPriceX96
                      liquidity tick (Log.index event) fee "0") in *.
  destruct (processSwapEvent_returns env swapEvent
              (add_emitted (swap_created swapEvent)
                 (add_log LOG ("New swap event: " +:+ Log.transactionHash event)
                    (set_db (set_swapEventModel
                               (fun _ => <[SwapEvent.key swapEvent := swapEvent]>
                                           (swapEventModel (db s3')))) s3'))))
    as (s4 & Hagg & Kp & Ks & Ky).
  assert (Hbody : body s3'
                  = (set_db (set_syncStateModel
                               (updateOne (uniswapV4PoolManagerAddress env)
                                  (syncAfterSwap (Log.blockNumber event) (clock s4)))) s4,
                     Return tt)).
  { subst body. rewrite bind_ret, bind_get. unfold create.
    replace (swapEventModel (db s3') !! SwapEvent.key swapEvent) with (@None SwapEvent.t)
      by (subst s3'; cbn [set_db db set_poolModel swapEventModel];
          rewrite Hdb2, Hdb1; symmetry; exact Hnew).
    cbn [of_result]. rewrite bind_ret, bind_update_db, bind_logger.
    unfold emit at 1. rewrite bind_modify.
    rewrite (bind_Return _ _ _ _ _ Hagg). rewrite bind_get. reflexivity. }
  eexists _, d0, d1. split; [apply try_catch_Return; exact Hbody|].
  cbn [set_db db set_syncStateModel swapEventModel poolModel syncStateModel].
  cbn [add_emitted add_log set_db db set_swapEventModel swapEventModel poolModel
       syncStateModel] in Kp, Ks, Ky.
  subst s3'. cbn [set_db db set_poolModel swapEventModel poolModel syncStateModel]
    in Kp, Ks, Ky.
  rewrite Hdb2, Hdb1 in Kp, Ks, Ky.
  split; [exact Ks|]. split.
  - rewrite Kp. unfold updateOne. apply map_eq. intros k.
    destruct (decide (k = poolId)) as [->|Hne].
    + rewrite lookup_alter_eq, lookup_insert_eq, Hpool. reflexivity.
    + rewrite lookup_alter_ne, lookup_insert_ne by congruence. reflexivity.
  - exists (clock s4). rewrite Ky. reflexivity.
Qed.

Lemma handleSwapEvent_stores_the_swap_witness :
  exists pool s' token0Decimals token1Decimals,
    poolModel (db Scenario.afterS1) !! Scenario.poolA = Some pool
    /\ handleSwapEvent Scenario.env Scenario.poolA "0xsender" 1000000000000000000
         (-2000000000000000000) 79228162514264337593543950336 5000000000000000000
         100 (fee_number 3000) Scenario.S2 Scenario.afterS1 = (s', Return tt)
    /\ swapEventModel (db s')
       = <[(Log.transactionHash Scenario.S2, Log.index Scenario.S2) :=
             SwapEvent.mk Scenario.poolA (Pool.currency0 pool) (Pool.currency1 pool)
               (Log.transactionHash Scenario.S2) (Log.blockNumber Scenario.S2)
               (1700001212 * 1000) "0xsender" "0xsender" 1000000000000000000
               (-2000000000000000000) 79228162514264337593543950336
               5000000000000000000 100 (Log.index Scenario.S2) 3000 "0"]>
           (swapEventModel (db Scenario.afterS1))
    /\ poolModel (db s')
       = <[Scenario.poolA :=
             poolAfterSwap 79228162514264337593543950336 100
               (sqrtPriceX96ToTokenPrices 79228162514264337593543950336
                  token0Decimals token1Decimals)
               5000000000000000000
               (Pool.totalValueLockedToken0 pool + 1000000000000000000)
               (Pool.totalValueLockedToken1 pool + -2000000000000000000) pool]>
           (poolModel (db Scenario.afterS1))
    /\ (exists live,
          handleSwapEventFromLog Scenario.env Scenario.poolA "0xsender"
            1000000000000000000 (-2000000000000000000) 79228162514264337593543950336
            5000000000000000000 100 3000 Scenario.S2 Scenario.afterS1
          = (live, Throw ValidationError)
          /\ swapEventModel (db live) = swapEventModel (db Scenario.afterS1)
          /\ processQueue Scenario.env [Scenario.S2] Scenario.afterS1
             = (add_log ERROR "Error processing event from queue" live, Return tt)).
Proof.
  destruct (poolModel (db Scenario.afterS1) !! Scenario.poolA) as [pool|] eqn:Hpool.
  - destruct (handleSwapEvent_stores_the_swap Scenario.env Scenario.poolA "0xsender"
                1000000000000000000 (-2000000000000000000)
                79228162514264337593543950336 5000000000000000000 100 3000
                Scenario.S2 Scenario.afterS1 pool 1700001212 Hpool eq_refl)
      as ((s' & d0 & d1 & Hrun & Hswap & Hp & _)
          & (live & _ & _ & Hlive & _ & Hkept & _ & _ & _ & _ & Hqueue)).
    + vm_compute. reflexivity.
    + exists pool, s', d0, d1.
      refine (conj eq_refl (conj Hrun (conj Hswap (conj Hp _)))).
      exists live. refine (conj Hlive (conj Hkept _)).
      apply (Hqueue eq_refl eq_refl []).
  - exfalso. vm_compute in Hpool. discriminate.
Defined.

(** ** A batch whose logs cannot be fetched *)

(** X15. When the node fails to return the logs of the first batch, the
    historical sync logs the failure of the batch and of the sync and ends
    with the node's error; the database is as it was, so the progress recorded
    in SyncState stays where it was, and [isSyncing] is false again. *)
Theorem syncHistoricalEvents_getLogs_fails (env : Env) (fuel : nat) (s : State)
    (syncState : SyncState.t) (error : Exn) :
  syncStateModel (db s) !! uniswapV4PoolManagerAddress env = Some syncState ->
  let fromBlock := SyncState.lastSyncedBlock syncState + 1 in
  let toBlock := Z.min (fromBlock + syncBatchSize env - 1) (getBlockNumber env) in
  fromBlock <= getBlockNumber env ->
  getLogs env fromBlock toBlock = inl error ->
  exists s' l,
    syncHistoricalEvents env (S fuel) s = (s', Throw error)
    /\ db s' = db s
    /\ isSyncing s' = false
    /\ logged s'
       = l ++ [(ERROR, "Error syncing batch " +:+ show_Z fromBlock +:+ "-"
                       +:+ show_Z toBlock);
               (ERROR, "Error during historical sync")].
Proof.
  intros Hrow fromBlock toBlock Hle Hlogs.
  unfold syncHistoricalEvents. rewrite bind_modify.
  match goal with |- context [try_catch ?m ?h ?s0] =>
    assert (Hbody : exists s1 l,
               m s0 = (s1, Throw error) /\ db s1 = db s
               /\ logged s1 = l ++ [(ERROR, "Error syncing batch " +:+ show_Z fromBlock
                                            +:+ "-" +:+ show_Z toBlock)])
  end.
  { rewrite bind_get. cbn [set_isSyncing db]. rewrite Hrow.
    assert (Hloop : forall s0,
               syncLoop env (S fuel) fromBlock (getBlockNumber env) s0
               = (add_log ERROR ("Error syncing batch " +:+ show_Z fromBlock +:+ "-"
                                 +:+ show_Z toBlock)
                    (add_log LOG ("Syncing blocks " +:+ show_Z fromBlock +:+ " to "
                                  +:+ show_Z toBlock) s0),
                  Throw error)).
    { intros s0. apply syncLoop_throw; [exact Hle|]. fold toBlock.
      unfold syncRound. rewrite bind_logger. apply bind_Throw.
      unfold syncBatch. erewrite try_catch_Throw; [reflexivity|].
      rewrite Hlogs. reflexivity. }
    destruct (SyncState.isInitialSyncComplete syncState);
      rewrite bind_assoc, bind_logger, bind_ret;
      fold fromBlock; erewrite bind_Throw by apply Hloop;
      eexists _, _; (split; [reflexivity|]);
      cbn [add_log db logged]; (split; [reflexivity|]); reflexivity. }
  destruct Hbody as (s1 & l & Hbody & Hdb & Hlog).
  erewrite try_catch_Throw by exact Hbody.
  rewrite bind_logger, bind_modify. eexists _, _. split; [reflexivity|].
  cbn [set_isSyncing add_log db isSyncing logged]. split; [exact Hdb|].
  split; [reflexivity|]. rewrite Hlog, <- app_assoc. reflexivity.
Qed.

(** A node that answers every [getLogs] with an error, and a process that
    has synced up to block 99. *)
Definition offline_env : Env :=
  mkEnv "0xpm" 100 1000 EmptyString false Scenario.weth [Scenario.weth] [] 105
        (fun b => Some (1700000000 + 12 * b))
        (fun _ _ => inl (OtherError "request timed out"))
        (fun _ => Some 18) (fun _ => Some "DAI") (fun _ => Some "Dai Stablecoin")
        (fun _ _ _ _ _ => inr 0) (fun _ _ _ _ _ => inr 0).

Definition synced_to_99 : State :=
  set_db (set_syncStateModel <["0xpm" := SyncState.mk "0xpm" 99 99 true None]>)
         Scenario.initial.

Lemma syncHistoricalEvents_getLogs_fails_witness :
  exists s' l,
    syncHistoricalEvents offline_env 1 synced_to_99
    = (s', Throw (OtherError "request timed out"))
    /\ db s' = db synced_to_99
    /\ isSyncing s' = false
    /\ logged s'
       = l ++ [(ERROR, "Error syncing batch " +:+ show_Z (99 + 1) +:+ "-"
                       +:+ show_Z (Z.min (99 + 1 + 1000 - 1) 105));
               (ERROR, "Error during historical sync")].
Proof.
  apply (syncHistoricalEvents_getLogs_fails offline_env 0 synced_to_99
           (SyncState.mk "0xpm" 99 99 true None) (OtherError "request timed out")).
  - reflexivity.
  - vm_compute. discriminate.
  - reflexivity.
Defined.

(** ** Every write, as the services make it

    The services change the state of the process through the writes
    listed below, each with what is known where it is made: an insert follows
    a lookup that found nothing, a candle is updated where a current row was
    found, the cache is filled where it had no entry. A preorder on states
    that each of these writes respects is respected by every operation. *)

Section Writes.

Variable R : State -> State -> Prop.

Hypothesis R_refl : forall s, R s s.
Hypothesis R_trans : forall a b c, R a b -> R b c -> R a c.
Hypothesis R_log : forall l msg s, R s (add_log l msg s).
Hypothesis R_emit : forall e s, R s (add_emitted e s).
Hypothesis R_isSyncing : forall b s, R s (set_isSyncing b s).
Hypothesis R_cache : forall a d s,
  tokenDecimalsCache s !! a = None -> R s (set_cache <[a := d]> s).
Hypothesis R_pool_create : forall id p s,
  poolModel (db s) !! id = None -> Pool.poolId p = id ->
  R s (set_db (set_poolModel (fun _ => <[id := p]> (poolModel (db s)))) s).
Hypothesis R_pool_swap : forall id sqrtPriceX96 tick prices liquidity tvl0 tvl1 s,
  R s (set_db (set_poolModel
                 (updateOne id (poolAfterSwap sqrtPriceX96 tick prices liquidity tvl0 tvl1)))
         s).
Hypothesis R_pool_liquidity : forall id liquidity tvl0 tvl1 s,
  R s (set_db (set_poolModel (updateOne id (poolAfterModifyLiquidity liquidity tvl0 tvl1)))
         s).
Hypothesis R_swap_create : forall e s,
  swapEventModel (db s) !! SwapEvent.key e = None ->
  R s (set_db (set_swapEventModel
                 (fun _ => <[SwapEvent.key e := e]> (swapEventModel (db s)))) s).
Hypothesis R_token_create : forall a metadata s,
  tokenModel (db s) !! a = None ->
  R s (set_db (set_tokenModel
                 (fun _ => <[a := newToken a metadata]> (tokenModel (db s)))) s).
Hypothesis R_token_metadata : forall a metadata s,
  R s (set_db (set_tokenModel (updateOne a (setMetadata metadata))) s).
Hypothesis R_token_cumulate : forall a token absAmount amountUSD feesUSD derivedBTC s,
  R s (set_db (set_tokenModel
                 (updateOne a (cumulate token absAmount amountUSD feesUSD derivedBTC))) s).
Hypothesis R_token_whitelist : forall a poolId s,
  R s (set_db (set_tokenModel (fun m => <[a := whitelisted a poolId (m !! a)]> m)) s).
Hypothesis R_sync_create : forall k v s,
  syncStateModel (db s) !! k = None ->
  R s (set_db (set_syncStateModel <[k := v]>) s).
Hypothesis R_sync_swap : forall k blockNumber now s,
  R s (set_db (set_syncStateModel (updateOne k (syncAfterSwap blockNumber now))) s).
Hypothesis R_sync_commit : forall k toBlock currentBlock now s,
  R s (set_db (set_syncStateModel (updateOne k (commitBatch toBlock currentBlock now))) s).
Hypothesis R_candle_create : forall i a timestamp r s,
  getModelByInterval i (db s) !! (a, roundTimestamp timestamp i) = None ->
  Candle.tokenAddress r = a -> Candle.date r = roundTimestamp timestamp i ->
  Candle.status r = CURRENT ->
  R s (set_db (set_candleModel i
                 (fun _ => <[(a, roundTimestamp timestamp i) := r]>
                             (getModelByInterval i (db s)))) s).
Hypothesis R_candle_update : forall i k f r s,
  getModelByInterval i (db s) !! k = Some r -> Candle.status r = CURRENT ->
  (forall c, Candle.tokenAddress (f c) = Candle.tokenAddress c
             /\ Candle.date (f c) = Candle.date c
             /\ Candle.status (f c) = Candle.status c) ->
  R s (set_db (set_candleModel i (updateOne k f)) s).
Hypothesis R_candle_finalize : forall i date s,
  R s (set_db (set_candleModel i
                 (fmap (fun r => if (Candle.date r =? date)
                                    && RecordStatus_eqb (Candle.status r) CURRENT
                                 then Candle.finalize r else r))) s).

Definition moves {A} (m : M A) (s : State) : Prop := R s (fst (m s)).

Definition always_moves {A} (m : M A) : Prop := forall s, moves m s.

Lemma moves_ret {A} (a : A) s : moves (ret a) s.
Proof. apply R_refl. Qed.

Lemma moves_throw {A} (e : Exn) s : moves (@throw A e) s.
Proof. apply R_refl. Qed.

Lemma moves_of_result {A} (r : Exn + A) s : moves (of_result r) s.
Proof. destruct r; apply R_refl. Qed.

Lemma moves_logger l msg s : moves (logger l msg) s.
Proof. apply R_log. Qed.

Lemma moves_emit e s : moves (emit e) s.
Proof. apply R_emit. Qed.

Lemma moves_isSyncing b s : moves (modify (set_isSyncing b)) s.
Proof. apply R_isSyncing. Qed.

Lemma moves_bind {A B} (m : M A) (k : A -> M B) s :
  moves m s ->
  (forall a s', m s = (s', Return a) -> moves (k a) s') ->
  moves (bind m k) s.
Proof.
  unfold moves, bind. intros Hm Hk.
  destruct (m s) as [s' [a|e]] eqn:Hrun; cbn [fst] in *.
  - eapply R_trans; [exact Hm|]. apply Hk. reflexivity.
  - exact Hm.
Qed.

Lemma moves_bind_get {B} (k : State -> M B) s : moves (k s) s -> moves (bind get k) s.
Proof. unfold moves, bind, get. trivial. Qed.

Lemma moves_bind_ret {A B} (a : A) (k : A -> M B) s :
  moves (k a) s -> moves (bind (ret a) k) s.
Proof. unfold moves, bind, ret. trivial. Qed.

Lemma moves_try_catch {A} (m : M A) (h : Exn -> M A) s :
  moves m s ->
  (forall e s', m s = (s', Throw e) -> moves (h e) s') ->
  moves (try_catch m h) s.
Proof.
  unfold moves, try_catch. intros Hm Hh.
  destruct (m s) as [s' [a|e]] eqn:Hrun; cbn [fst] in *.
  - exact Hm.
  - eapply R_trans; [exact Hm|]. apply Hh. reflexivity.
Qed.

Lemma moves_for_each {A} (xs : list A) (body : A -> M unit) :
  (forall x, always_moves (body x)) -> always_moves (for_each xs body).
Proof.
  intros Hb. induction xs as [|x xs IH]; intros s.
  - apply moves_ret.
  - cbn [for_each]. apply moves_bind; [apply Hb | intros; apply IH].
Qed.

Lemma moves_settle {A} (m : M A) s : moves m s -> moves (settle m) s.
Proof. unfold moves, settle. destruct (m s). trivial. Qed.

Lemma moves_resume {A} (r : Outcome A) s : moves (resume r) s.
Proof. apply R_refl. Qed.

Lemma moves_Promise_all3 (m1 m2 m3 : M unit) :
  always_moves m1 -> always_moves m2 -> always_moves m3 ->
  always_moves (Promise_all3 m1 m2 m3).
Proof.
  intros H1 H2 H3 s. unfold Promise_all3.
  apply moves_bind; [apply moves_settle, H1 | intros r1 s1 _].
  apply moves_bind; [apply moves_settle, H2 | intros r2 s2 _].
  apply moves_bind; [apply moves_settle, H3 | intros r3 s3 _].
  apply moves_bind; [apply moves_resume | intros _ s4 _].
  apply moves_bind; [apply moves_resume | intros _ s5 _].
  apply moves_resume.
Qed.

(** One step through a term of the monad. *)
Ltac move_on :=
  lazymatch goal with
  | |- always_moves _ => intros ?
  | |- moves (bind get _) _ => apply moves_bind_get
  | |- moves (bind _ _) _ => apply moves_bind; [|intros ? ? ?]
  | |- moves (try_catch _ _) _ => apply moves_try_catch; [|intros ? ? ?]
  | |- moves (ret _) _ => apply moves_ret
  | |- moves (throw _) _ => apply moves_throw
  | |- moves null_token _ => apply moves_throw
  | |- moves null_block _ => apply moves_throw
  | |- moves (of_result _) _ => apply moves_of_result
  | |- moves (logger _ _) _ => apply moves_logger
  | |- moves (emit _) _ => apply moves_emit
  | |- moves (modify (set_isSyncing _)) _ => apply moves_isSyncing
  | |- moves (if ?b then _ else _) _ => destruct b eqn:?
  | |- moves (match ?x with _ => _ end) _ => destruct x eqn:?
  end.

Context (env : Env).

Lemma fetchTokenMetadata_moves a : always_moves (fetchTokenMetadata env a).
Proof. unfold fetchTokenMetadata. repeat move_on. Qed.

Lemma getNativePriceInUSD_moves : always_moves (getNativePriceInUSD env).
Proof. unfold getNativePriceInUSD. repeat move_on. Qed.

Lemma findNativePerToken_moves t w st mn : always_moves (findNativePerToken env t w st mn).
Proof.
  unfold findNativePerToken. repeat move_on. apply getNativePriceInUSD_moves.
Qed.

Lemma fetchTokenDecimals_moves a : always_moves (fetchTokenDecimals env a).
Proof.
  intros s. unfold fetchTokenDecimals. apply moves_bind_get.
  destruct (tokenDecimalsCache s !! a) as [d|] eqn:Hc; [apply moves_ret|].
  assert (Hset : forall d, moves (modify (set_cache <[a := d]>)) s).
  { intros d. apply R_cache. exact Hc. }
  destruct (a =? ZERO_ADDRESS)%string.
  - apply moves_bind; [apply Hset | intros; apply moves_ret].
  - destruct (tokenModel (db s) !! a) as [token|].
    + apply moves_bind; [apply Hset | intros].
      apply moves_bind; [apply moves_logger | intros; apply moves_ret].
    + destruct (erc20_decimals env a) as [d|].
      * apply moves_bind; [apply Hset | intros].
        apply moves_bind; [apply moves_logger | intros; apply moves_ret].
      * apply moves_bind; [apply moves_logger | intros [] s1 Hs1].
        injection Hs1 as <-.
        apply moves_bind; [|intros; apply moves_ret].
        apply R_cache. exact Hc.
Qed.

Lemma updateOrCreateCurrentRecord_moves a i ts v vu fd cp tvl tvlu :
  always_moves (updateOrCreateCurrentRecord a i ts v vu fd cp tvl tvlu).
Proof.
  intros s. unfold updateOrCreateCurrentRecord, findOneCurrent.
  apply moves_bind_get.
  destruct (getModelByInterval i (db s) !! (a, roundTimestamp ts i)) as [r|] eqn:Hr.
  - destruct (RecordStatus_eqb (Candle.status r) CURRENT) eqn:Hst.
    + eapply R_candle_update; [exact Hr | |].
      * destruct (Candle.status r); [reflexivity | discriminate].
      * intros c. repeat split.
    + unfold create. rewrite Hr. cbn [of_result].
      unfold moves, bind, throw. cbn [fst]. apply R_refl.
  - unfold create. rewrite Hr. cbn [of_result]. apply moves_bind_ret.
    apply R_candle_create; [exact Hr | reflexivity | reflexivity | reflexivity].
Qed.

Lemma updateCurrentRecord_moves swap a b : always_moves (updateCurrentRecord env swap a b).
Proof.
  intros s. unfold updateCurrentRecord. apply moves_bind_get.
  apply moves_bind.
  { destruct (tokenModel (db s) !! a) as [token|] eqn:Hrow; [apply moves_ret|].
    apply moves_bind; [apply fetchTokenMetadata_moves | intros md s1 Hmd].
    destruct (fetchTokenMetadata_returns env a s) as (md' & s1' & Hmd' & Hdb1).
    rewrite Hmd in Hmd'. injection Hmd' as <- <-.
    apply moves_try_catch.
    - apply moves_bind_get. unfold create. rewrite Hdb1, Hrow. cbn [of_result].
      apply moves_bind_ret. apply moves_bind; [|intros; apply moves_ret].
      rewrite <- Hdb1. apply R_token_create. rewrite Hdb1. exact Hrow.
    - intros e s2 _. destruct (is_duplicate e); [|apply moves_throw].
      apply moves_bind_get. apply moves_ret. }
  intros token1 s1 _.
  apply moves_bind.
  { destruct token1 as [token|]; [|apply moves_ret].
    destruct (Token.symbol token =? "UNKNOWN")%string; [|apply moves_ret].
    apply moves_bind; [apply fetchTokenMetadata_moves | intros md s2 _].
    apply moves_bind; [apply R_token_metadata | intros; apply moves_ret]. }
  intros token2 s2 _.
  destruct token2 as [token|]; [|apply moves_throw].
  apply moves_bind; [apply findNativePerToken_moves | intros derivedBTC s3 _].
  apply moves_bind; [apply R_token_cumulate | intros [] s4 _].
  apply moves_Promise_all3; apply updateOrCreateCurrentRecord_moves.
Qed.

Lemma processSwapEvent_moves swap : always_moves (processSwapEvent env swap).
Proof.
  unfold processSwapEvent.
  repeat first [ apply updateCurrentRecord_moves | move_on ].
Qed.

Lemma processTokenWhitelistUpdate_moves a p : always_moves (processTokenWhitelistUpdate a p).
Proof.
  intros s. unfold moves. rewrite processTokenWhitelistUpdate_run. cbn [fst].
  eapply R_trans; [apply R_token_whitelist | apply R_log].
Qed.

Lemma finalizeRecords_moves i : always_moves (finalizeRecords i).
Proof.
  unfold finalizeRecords. intros s.
  apply moves_try_catch; [|intros; apply moves_logger].
  apply moves_bind_get.
  apply moves_bind; [apply R_candle_finalize | intros _ s1 _].
  apply moves_bind; [apply moves_logger | intros _ s2 _].
  apply moves_for_each. intros r s3. apply moves_emit.
Qed.

Lemma updateTokenWhitelists_moves p c0 c1 : always_moves (updateTokenWhitelists env p c0 c1).
Proof.
  unfold updateTokenWhitelists, updateTokenWhitelist.
  repeat first [ apply processTokenWhitelistUpdate_moves | move_on ].
Qed.

Lemma handleInitializeEvent_moves id c0 c1 fee ts hooks sp tick ev :
  always_moves (handleInitializeEvent env id c0 c1 fee ts hooks sp tick ev).
Proof.
  intros s. unfold handleInitializeEvent.
  apply moves_try_catch; [|intros e s' _; destruct (is_duplicate e);
                                   [apply moves_logger | apply moves_throw]].
  apply moves_bind; [apply fetchTokenDecimals_moves | intros d0 s1 _].
  apply moves_bind; [apply fetchTokenDecimals_moves | intros d1 s2 _].
  destruct (getBlock env (Log.blockNumber ev)) as [timestamp|]; [|apply moves_throw].
  apply moves_bind_get. unfold create.
  destruct (poolModel (db s2) !! id) eqn:Hrow; cbn [of_result].
  - unfold moves, bind, throw. cbn [fst]. apply R_refl.
  - apply moves_bind_ret.
    apply moves_bind; [apply R_pool_create; [exact Hrow | reflexivity] | intros [] s3 _].
    apply moves_bind; [apply moves_logger | intros [] s4 _].
    apply updateTokenWhitelists_moves.
Qed.

Lemma handleSwapEvent_moves p sd a0 a1 sp liq tick fee ev :
  always_moves (handleSwapEvent env p sd a0 a1 sp liq tick fee ev).
Proof.
  intros s. unfold handleSwapEvent. apply moves_bind_get.
  destruct (poolModel (db s) !! p) as [pool|]; [|apply moves_logger].
  apply moves_bind; [apply fetchTokenDecimals_moves | intros d0 s1 _].
  apply moves_bind; [apply fetchTokenDecimals_moves | intros d1 s2 _].
  apply moves_bind; [apply R_pool_swap | intros [] s3 _].
  destruct (getBlock env (Log.blockNumber ev)) as [timestamp|]; [|apply moves_throw].
  apply moves_try_catch; [|intros e s' _; destruct (is_duplicate e);
                                   [apply moves_logger | apply moves_throw]].
  destruct fee as [fee|fee]; cbn [castNumber of_result];
    [|unfold moves, bind, throw; cbn [fst]; apply R_refl].
  apply moves_bind_ret.
  apply moves_bind_get. unfold create.
  match goal with |- context [swapEventModel (db s3) !! ?k] =>
    destruct (swapEventModel (db s3) !! k) eqn:Hrow end; cbn [of_result].
  - unfold moves, bind, throw. cbn [fst]. apply R_refl.
  - apply moves_bind_ret.
    apply moves_bind; [apply R_swap_create; exact Hrow | intros [] s4 _].
    apply moves_bind; [apply moves_logger | intros [] s5 _].
    apply moves_bind; [apply moves_emit | intros [] s6 _].
    apply moves_bind; [apply processSwapEvent_moves | intros [] s7 _].
    apply moves_bind_get. apply R_sync_swap.
Qed.

Lemma handleModifyLiquidityEvent_moves p sd tl tu ld salt ev :
  always_moves (handleModifyLiquidityEvent env p sd tl tu ld salt ev).
Proof.
  unfold handleModifyLiquidityEvent.
  repeat first [ apply R_pool_liquidity | move_on ].
Qed.

Lemma dispatch_moves pl log : always_moves (dispatch env pl log).
Proof.
  destruct pl; cbn [dispatch].
  - apply handleInitializeEvent_moves.
  - apply handleSwapEvent_moves.
  - apply handleModifyLiquidityEvent_moves.
Qed.

Lemma dispatchFromLog_moves pl log : always_moves (dispatchFromLog env pl log).
Proof.
  destruct pl; cbn [dispatchFromLog].
  - apply handleInitializeEvent_moves.
  - apply handleSwapEvent_moves.
  - apply handleModifyLiquidityEvent_moves.
Qed.

Lemma syncLog_moves log : always_moves (syncLog env log).
Proof.
  unfold syncLog. repeat first [ apply dispatch_moves | move_on ].
Qed.

Lemma syncBatch_moves f t : always_moves (syncBatch env f t).
Proof.
  unfold syncBatch.
  repeat first [ apply moves_for_each; intros ?; apply syncLog_moves | move_on ].
Qed.

Lemma syncRound_moves head w : always_moves (syncRound env head w).
Proof.
  destruct w as [f t]. unfold syncRound.
  repeat first [ apply syncBatch_moves | apply R_sync_commit | move_on ].
Qed.

Lemma syncLoop_moves fuel f head : always_moves (syncLoop env fuel f head).
Proof.
  revert f. induction fuel as [|fuel IH]; intros f s; cbn [syncLoop].
  - destruct (f <=? head); apply moves_ret.
  - destruct (f <=? head); [|apply moves_ret].
    apply moves_bind; [apply syncRound_moves | intros; apply IH].
Qed.

Lemma syncHistoricalEvents_moves fuel : always_moves (syncHistoricalEvents env fuel).
Proof.
  intros s. unfold syncHistoricalEvents.
  apply moves_bind; [apply moves_isSyncing | intros [] s0 _].
  apply moves_try_catch.
  - apply moves_bind_get.
    apply moves_bind.
    + destruct (syncStateModel (db s0) !! uniswapV4PoolManagerAddress env) eqn:Hrow.
      * repeat move_on.
      * apply moves_bind; [apply R_sync_create; exact Hrow | intros].
        repeat move_on.
    + intros st s1 _.
      apply moves_bind; [apply syncLoop_moves | intros].
      repeat move_on.
  - intros. repeat move_on.
Qed.

Lemma processQueue_moves q : always_moves (processQueue env q).
Proof.
  unfold processQueue. apply moves_for_each. intros log.
  unfold processEntry. repeat first [ apply dispatchFromLog_moves | move_on ].
Qed.

End Writes.

(** ** Stored swaps *)

Definition swaps_kept (s s' : State) : Prop :=
  forall key e, swapEventModel (db s) !! key = Some e ->
                swapEventModel (db s') !! key = Some e.

Lemma swaps_kept_refl s : swaps_kept s s.
Proof. intros k e H. exact H. Qed.

Lemma swaps_kept_trans a b c : swaps_kept a b -> swaps_kept b c -> swaps_kept a c.
Proof. intros H1 H2 k e H. apply H2, H1, H. Qed.

Ltac same_swaps :=
  intros;
  lazymatch goal with
  | |- swaps_kept _ (set_db (set_candleModel ?i _) _) =>
      destruct i; let K := fresh in intros ? ? K; exact K
  | |- swaps_kept _ _ => let K := fresh in intros ? ? K; exact K
  end.

Lemma swaps_kept_create e s :
  swapEventModel (db s) !! SwapEvent.key e = None ->
  swaps_kept s (set_db (set_swapEventModel
                          (fun _ => <[SwapEvent.key e := e]> (swapEventModel (db s)))) s).
Proof.
  intros Hnew k e' H. cbn [set_db db set_swapEventModel swapEventModel].
  rewrite lookup_insert_ne; [exact H | congruence].
Qed.

Lemma swaps_kept_run env op s : swaps_kept s (run env op s).
Proof.
  destruct op as [fuel|q|i|now]; cbn [run].
  - apply syncHistoricalEvents_moves;
      first [ exact swaps_kept_refl | exact swaps_kept_trans
            | exact swaps_kept_create | same_swaps ].
  - apply processQueue_moves;
      first [ exact swaps_kept_refl | exact swaps_kept_trans
            | exact swaps_kept_create | same_swaps ].
  - apply finalizeRecords_moves;
      first [ exact swaps_kept_refl | exact swaps_kept_trans
            | exact swaps_kept_create | same_swaps ].
  - intros k e H. exact H.
Qed.

(** X16. The SwapEvent collection only grows: whatever operations run, in
    whatever order (backfills, deliveries of live logs, finalizer runs), a
    swap that is stored stays stored under its key, with every field as it
    was written. *)
Theorem stored_swaps_are_never_changed (env : Env) (ops : list Operation) (s : State)
    (key : string * Z) (e : SwapEvent.t) :
  swapEventModel (db s) !! key = Some e ->
  swapEventModel (db (run_all env ops s)) !! key = Some e.
Proof.
  revert s. induction ops as [|op ops IH]; intros s H; [exact H|].
  cbn [run_all fold_left]. apply IH. apply swaps_kept_run. exact H.
Qed.

Lemma stored_swaps_are_never_changed_witness :
  exists e,
    swapEventModel (db Scenario.afterS2) !! ("0xtx2", 1) = Some e
    /\ swapEventModel
         (db (run_all Scenario.env
                [Deliver [Scenario.S2; Scenario.S2'];
                 Tick Scenario.nextMinute; FinalizeRecords MINUTE; Backfill 1]
                Scenario.afterS2)) !! ("0xtx2", 1) = Some e.
Proof.
  destruct (swapEventModel (db Scenario.afterS2) !! ("0xtx2", 1)) as [e|] eqn:He.
  - exists e. split; [reflexivity|].
    apply stored_swaps_are_never_changed. exact He.
  - exfalso. vm_compute in He. discriminate.
Defined.

(** ** Pools *)

(** What identifies a pool and where it was created. *)
Definition pool_identity (p : Pool.t) :=
  (Pool.poolId p, Pool.currency0 p, Pool.currency1 p, Pool.fee p, Pool.tickSpacing p,
   Pool.hooks p, Pool.blockNumber p, Pool.blockTimestamp p, Pool.transactionHash p).

Definition pools_kept (s s' : State) : Prop :=
  forall id p, poolModel (db s) !! id = Some p ->
               exists p', poolModel (db s') !! id = Some p'
                          /\ pool_identity p' = pool_identity p.

Lemma pools_kept_refl s : pools_kept s s.
Proof. intros id p H. exists p. split; [exact H | reflexivity]. Qed.

Lemma pools_kept_trans a b c : pools_kept a b -> pools_kept b c -> pools_kept a c.
Proof.
  intros H1 H2 id p H. destruct (H1 id p H) as (p1 & Hp1 & E1).
  destruct (H2 id p1 Hp1) as (p2 & Hp2 & E2). exists p2. split; [exact Hp2 | congruence].
Qed.

Ltac same_pools :=
  intros;
  lazymatch goal with
  | |- pools_kept _ (set_db (set_candleModel ?i _) _) =>
      destruct i; let K := fresh in intros ? p K; exists p; split; [exact K | reflexivity]
  | |- pools_kept _ _ =>
      let K := fresh in intros ? p K; exists p; split; [exact K | reflexivity]
  end.

Lemma pools_kept_create id p s :
  poolModel (db s) !! id = None -> Pool.poolId p = id ->
  pools_kept s (set_db (set_poolModel (fun _ => <[id := p]> (poolModel (db s)))) s).
Proof.
  intros Hnew _ k q H. cbn [set_db db set_poolModel poolModel].
  exists q. split; [|reflexivity]. rewrite lookup_insert_ne; [exact H | congruence].
Qed.

Lemma pools_kept_update id f s :
  (forall p, pool_identity (f p) = pool_identity p) ->
  pools_kept s (set_db (set_poolModel (updateOne id f)) s).
Proof.
  intros Hf k q H. cbn [set_db db set_poolModel poolModel]. unfold updateOne.
  destruct (decide (k = id)) as [->|Hne].
  - rewrite lookup_alter_eq, H. eexists. split; [reflexivity | apply Hf].
  - rewrite lookup_alter_ne by congruence. exists q. split; [exact H | reflexivity].
Qed.

Lemma pools_kept_run env op s : pools_kept s (run env op s).
Proof.
  destruct op as [fuel|q|i|now]; cbn [run];
    [ apply syncHistoricalEvents_moves
    | apply processQueue_moves
    | apply finalizeRecords_moves
    | exact (pools_kept_refl s) ];
    first [ exact pools_kept_refl | exact pools_kept_trans
          | exact pools_kept_create
          | intros; apply pools_kept_update; intros; reflexivity
          | same_pools ].
Qed.

(** X17. A pool is never deleted and is never made another pool: whatever
    operations run, its row stays under its id with the same currencies, fee,
    tick spacing and hooks, and the same block, time and transaction of its
    initialization; only price, tick, liquidity and locked amounts move. *)
Theorem pools_keep_their_identity (env : Env) (ops : list Operation) (s : State)
    (id : string) (p : Pool.t) :
  poolModel (db s) !! id = Some p ->
  exists p', poolModel (db (run_all env ops s)) !! id = Some p'
             /\ pool_identity p' = pool_identity p.
Proof.
  revert s p. induction ops as [|op ops IH]; intros s p H.
  - exists p. split; [exact H | reflexivity].
  - cbn [run_all fold_left].
    destruct (pools_kept_run env op s id p H) as (p1 & H1 & E1).
    destruct (IH _ _ H1) as (p2 & H2 & E2).
    exists p2. split; [exact H2 | congruence].
Qed.

Lemma pools_keep_their_identity_witness :
  exists p p',
    poolModel (db Scenario.afterS1) !! Scenario.poolA = Some p
    /\ poolModel
         (db (run_all Scenario.env [Deliver [Scenario.S2; Scenario.S1]; Backfill 1]
                Scenario.afterS1)) !! Scenario.poolA = Some p'
    /\ pool_identity p' = pool_identity p.
Proof.
  destruct (poolModel (db Scenario.afterS1) !! Scenario.poolA) as [p|] eqn:Hp.
  - destruct (pools_keep_their_identity Scenario.env
                [Deliver [Scenario.S2; Scenario.S1]; Backfill 1]
                Scenario.afterS1 Scenario.poolA p Hp) as (p' & Hp' & E).
    exists p, p'. repeat split; assumption.
  - exfalso. vm_compute in Hp. discriminate.
Defined.

(** ** Tokens *)

Definition tokens_kept (s s' : State) : Prop :=
  forall a t, tokenModel (db s) !! a = Some t ->
              exists t', tokenModel (db s') !! a = Some t'
                         /\ Token.address t' = Token.address t
                         /\ Token.txCount t <= Token.txCount t'
                         /\ incl (Token.whitelistPools t) (Token.whitelistPools t').

Lemma tokens_kept_refl s : tokens_kept s s.
Proof.
  intros a t H. exists t. split; [exact H|]. split; [reflexivity|].
  split; [lia | apply incl_refl].
Qed.

Lemma tokens_kept_trans a b c : tokens_kept a b -> tokens_kept b c -> tokens_kept a c.
Proof.
  intros H1 H2 k t H. destruct (H1 k t H) as (t1 & Ht1 & A1 & C1 & W1).
  destruct (H2 k t1 Ht1) as (t2 & Ht2 & A2 & C2 & W2).
  exists t2. split; [exact Ht2|]. split; [congruence|].
  split; [lia | eapply incl_tran; eassumption].
Qed.

Ltac same_tokens :=
  intros;
  lazymatch goal with
  | |- tokens_kept _ (set_db (set_candleModel ?i _) _) =>
      destruct i;
      lazymatch goal with |- tokens_kept ?s _ => exact (tokens_kept_refl s) end
  | |- tokens_kept ?s _ => exact (tokens_kept_refl s)
  end.

Lemma tokens_kept_create a v s :
  tokenModel (db s) !! a = None ->
  tokens_kept s (set_db (set_tokenModel (fun _ => <[a := v]> (tokenModel (db s)))) s).
Proof.
  intros Hnew k t H. cbn [set_db db set_tokenModel tokenModel].
  exists t. rewrite lookup_insert_ne by congruence.
  split; [exact H|]. split; [reflexivity|]. split; [lia | apply incl_refl].
Qed.

Lemma tokens_kept_update a f s :
  (forall t, Token.address (f t) = Token.address t
             /\ Token.txCount t <= Token.txCount (f t)
             /\ incl (Token.whitelistPools t) (Token.whitelistPools (f t))) ->
  tokens_kept s (set_db (set_tokenModel (updateOne a f)) s).
Proof.
  intros Hf k t H. cbn [set_db db set_tokenModel tokenModel]. unfold updateOne.
  destruct (decide (k = a)) as [->|Hne].
  - rewrite lookup_alter_eq, H. eexists. split; [reflexivity | apply Hf].
  - rewrite lookup_alter_ne by congruence. exists t.
    split; [exact H|]. split; [reflexivity|]. split; [lia | apply incl_refl].
Qed.

Lemma tokens_kept_whitelist a poolId s :
  tokens_kept s
    (set_db (set_tokenModel (fun m => <[a := whitelisted a poolId (m !! a)]> m)) s).
Proof.
  intros k t H. cbn [set_db db set_tokenModel tokenModel].
  destruct (decide (k = a)) as [->|Hne].
  - rewrite lookup_insert_eq, H. eexists. split; [reflexivity|].
    cbn [whitelisted Token.address Token.txCount Token.whitelistPools].
    split; [reflexivity|]. split; [lia|].
    intros q Hq. apply addToSet_In. right. exact Hq.
  - rewrite lookup_insert_ne by congruence. exists t.
    split; [exact H|]. split; [reflexivity|]. split; [lia | apply incl_refl].
Qed.

Lemma tokens_kept_run env op s : tokens_kept s (run env op s).
Proof.
  destruct op as [fuel|q|i|now]; cbn [run];
    [ apply syncHistoricalEvents_moves
    | apply processQueue_moves
    | apply finalizeRecords_moves
    | exact (tokens_kept_refl s) ];
    first [ exact tokens_kept_refl | exact tokens_kept_trans
          | exact tokens_kept_whitelist
          | intros; apply tokens_kept_create; assumption
          | intros; apply tokens_kept_update; intros;
            cbn [setMetadata cumulate Token.address Token.txCount Token.whitelistPools];
            (split; [reflexivity|]); (split; [lia | apply incl_refl])
          | same_tokens ].
Qed.

(** X18. A token is never deleted: whatever operations run, its row stays
    under its address, its [txCount] never goes down, and no pool ever leaves
    its whitelist. *)
Theorem tokens_only_grow (env : Env) (ops : list Operation) (s : State)
    (a : string) (t : Token.t) :
  tokenModel (db s) !! a = Some t ->
  exists t', tokenModel (db (run_all env ops s)) !! a = Some t'
             /\ Token.address t' = Token.address t
             /\ Token.txCount t <= Token.txCount t'
             /\ incl (Token.whitelistPools t) (Token.whitelistPools t').
Proof.
  revert s t. induction ops as [|op ops IH]; intros s t H.
  - apply (tokens_kept_refl s). exact H.
  - cbn [run_all fold_left].
    destruct (tokens_kept_run env op s a t H) as (t1 & H1 & A1 & C1 & W1).
    destruct (IH _ _ H1) as (t2 & H2 & A2 & C2 & W2).
    exists t2. split; [exact H2|]. split; [congruence|].
    split; [lia | eapply incl_tran; eassumption].
Qed.

Lemma tokens_only_grow_witness :
  exists t t',
    tokenModel (db Scenario.afterS1) !! Scenario.dai = Some t
    /\ tokenModel
         (db (run_all Scenario.env [Deliver [Scenario.S2]; Backfill 1] Scenario.afterS1))
         !! Scenario.dai = Some t'
    /\ Token.address t' = Token.address t
    /\ Token.txCount t <= Token.txCount t'
    /\ incl (Token.whitelistPools t) (Token.whitelistPools t').
Proof.
  destruct (tokenModel (db Scenario.afterS1) !! Scenario.dai) as [t|] eqn:Ht.
  - destruct (tokens_only_grow Scenario.env [Deliver [Scenario.S2]; Backfill 1]
                Scenario.afterS1 Scenario.dai t Ht) as (t' & Ht' & A & C & W).
    exists t, t'. repeat split; assumption.
  - exfalso. vm_compute in Ht. discriminate.
Defined.

(** ** The cache of decimals, over time *)

Definition cache_kept (s s' : State) : Prop :=
  forall a d, tokenDecimalsCache s !! a = Some d -> tokenDecimalsCache s' !! a = Some d.

Lemma cache_kept_refl s : cache_kept s s.
Proof. intros a d H. exact H. Qed.

Lemma cache_kept_trans a b c : cache_kept a b -> cache_kept b c -> cache_kept a c.
Proof. intros H1 H2 k d H. apply H2, H1, H. Qed.

Lemma cache_kept_fill a d s :
  tokenDecimalsCache s !! a = None -> cache_kept s (set_cache <[a := d]> s).
Proof.
  intros Hnew k v H. cbn [set_cache tokenDecimalsCache].
  rewrite lookup_insert_ne; [exact H | congruence].
Qed.

Lemma cache_kept_run env op s : cache_kept s (run env op s).
Proof.
  destruct op as [fuel|q|i|now]; cbn [run];
    [ apply syncHistoricalEvents_moves
    | apply processQueue_moves
    | apply finalizeRecords_moves
    | intros a d H; exact H ];
    first [ exact cache_kept_refl | exact cache_kept_trans | exact cache_kept_fill
          | intros; let K := fresh in intros ? ? K; exact K ].
Qed.

(** X19. The decimals cached for a token are never replaced or dropped:
    whatever operations run, and whatever the Token collection and the
    contract say in the meantime, [fetchTokenDecimals] keeps returning the
    decimals it cached first. *)
Theorem cached_decimals_are_final (env : Env) (ops : list Operation) (s : State)
    (tokenAddress : string) (decimals : Z) :
  tokenDecimalsCache s !! tokenAddress = Some decimals ->
  let later := run_all env ops s in
  tokenDecimalsCache later !! tokenAddress = Some decimals
  /\ fetchTokenDecimals env tokenAddress later = (later, Return decimals).
Proof.
  intros H later.
  assert (Hc : tokenDecimalsCache later !! tokenAddress = Some decimals).
  { subst later. revert s H. induction ops as [|op ops IH]; intros s H; [exact H|].
    cbn [run_all fold_left]. apply IH. apply cache_kept_run. exact H. }
  split; [exact Hc|].
  unfold fetchTokenDecimals. rewrite bind_get, Hc. reflexivity.
Qed.

Lemma cached_decimals_are_final_witness :
  let later := run_all Scenario.env [Deliver [Scenario.S2]; Backfill 1] Scenario.afterS1 in
  tokenDecimalsCache later !! Scenario.dai = Some 18
  /\ fetchTokenDecimals Scenario.env Scenario.dai later = (later, Return 18).
Proof.
  apply (cached_decimals_are_final Scenario.env [Deliver [Scenario.S2]; Backfill 1]
           Scenario.afterS1 Scenario.dai 18).
  vm_compute. reflexivity.
Defined.

(** ** Candles and their buckets *)













(** ** [swap-events.gateway.ts]: the WebSocket gateway *)

(** The value of [TimeInterval], as it is written into the keys of the
    candle subscriptions. *)
Definition TimeInterval_value (interval : TimeInterval) : string :=
  match interval with
  | MINUTE => "minute"
  | HOUR => "hour"
  | DAY => "day"
  end.

Module Gateway.

(** A [Set<string>] of client ids, in the order of insertion. *)
Definition Set_has (x : string) (xs : list string) : bool := existsb (String.eqb x) xs.

Definition Set_add (x : string) (xs : list string) : list string :=
  if Set_has x xs then xs else xs ++ [x].

Definition Set_delete (x : string) (xs : list string) : list string :=
  List.filter (fun y => negb (y =? x)%string) xs.

(** The two registries: [poolAddress -> clientIds] and
    [tokenAddress:interval -> clientIds]. *)
Record t := mk {
  subscriptions : gmap string (list string);
  candleSubscriptions : gmap string (list string)
}.

Definition empty : t := mk ∅ ∅.

Inductive Payload :=
  | of_pool (poolAddress : string)
  | of_candles (tokenAddress interval : string)
  | of_swap (swapEvent : SwapEvent.t)
  | of_candle (interval : TimeInterval) (candle : Candle.t).

(** What a handler does besides changing the registries: a line of the
    logger, or a message to one client ([client.emit] for the caller,
    [server.to(clientId).emit] for a subscriber). *)
Inductive Output :=
  | Logged (level : Level) (message : string)
  | ToClient (clientId : string) (event : string) (payload : Payload).

(** [payload.poolAddress || 'all'] *)
Definition poolAddress_or_all (poolAddress : option string) : string :=
  match poolAddress with
  | Some p => if (p =? EmptyString)%string then "all" else p
  | None => "all"
  end.

(** [subscriptions.has(key) || subscriptions.set(key, new Set())], then
    [subscriptions.get(key).add(clientId)]. *)
Definition subscribe (key clientId : string) (m : gmap string (list string))
    : gmap string (list string) :=
  let m := match m !! key with
           | Some _ => m
           | None => <[key := []]> m
           end in
  alter (Set_add clientId) key m.

Definition handleConnection (clientId : string) (g : t) : t * list Output :=
  (g, [Logged LOG ("Client connected: " +:+ clientId)]).

Definition handleDisconnect (clientId : string) (g : t) : t * list Output :=
  (mk (Set_delete clientId <$> subscriptions g)
      (Set_delete clientId <$> candleSubscriptions g),
   [Logged LOG ("Client disconnected: " +:+ clientId)]).

Definition handleSubscribe (clientId : string) (payload_poolAddress : option string)
    (g : t) : t * list Output :=
  let poolAddress := poolAddress_or_all payload_poolAddress in
  (mk (subscribe poolAddress clientId (subscriptions g)) (candleSubscriptions g),
   [Logged LOG ("Client " +:+ clientId +:+ " subscribed to " +:+ poolAddress);
    ToClient clientId "subscribed" (of_pool poolAddress)]).

Definition handleUnsubscribe (clientId : string) (payload_poolAddress : option string)
    (g : t) : t * list Output :=
  let poolAddress := poolAddress_or_all payload_poolAddress in
  match subscriptions g !! poolAddress with
  | Some _ =>
      (mk (alter (Set_delete clientId) poolAddress (subscriptions g))
          (candleSubscriptions g),
       [Logged LOG ("Client " +:+ clientId +:+ " unsubscribed from " +:+ poolAddress);
        ToClient clientId "unsubscribed" (of_pool poolAddress)])
  | None => (g, [ToClient clientId "unsubscribed" (of_pool poolAddress)])
  end.

Definition subscriptionKey (tokenAddress interval : string) : string :=
  tokenAddress +:+ ":" +:+ interval.

Definition handleCandleSubscribe (clientId tokenAddress interval : string) (g : t)
    : t * list Output :=
  let subscriptionKey := subscriptionKey tokenAddress interval in
  (mk (subscriptions g) (subscribe subscriptionKey clientId (candleSubscriptions g)),
   [Logged LOG ("Client " +:+ clientId +:+ " subscribed to candles: " +:+ tokenAddress
                +:+ " (" +:+ interval +:+ ")");
    ToClient clientId "candleSubscribed" (of_candles tokenAddress interval)]).

Definition handleCandleUnsubscribe (clientId tokenAddress interval : string) (g : t)
    : t * list Output :=
  let subscriptionKey := subscriptionKey tokenAddress interval in
  match candleSubscriptions g !! subscriptionKey with
  | Some _ =>
      (mk (subscriptions g)
          (alter (Set_delete clientId) subscriptionKey (candleSubscriptions g)),
       [Logged LOG ("Client " +:+ clientId +:+ " unsubscribed from candles: "
                    +:+ tokenAddress +:+ " (" +:+ interval +:+ ")");
        ToClient clientId "candleUnsubscribed" (of_candles tokenAddress interval)])
  | None => (g, [ToClient clientId "candleUnsubscribed" (of_candles tokenAddress interval)])
  end.

(** [clients.forEach((clientId) => this.server.to(clientId).emit(event, payload))]
    for the set under [key], if there is one. *)
Definition broadcast (m : gmap string (list string)) (key event : string)
    (payload : Payload) : list Output :=
  match m !! key with
  | Some clients => map (fun clientId => ToClient clientId event payload) clients
  | None => []
  end.

(** [@OnEvent('swap.created')] *)
Definition handleSwapCreated (swapEvent : SwapEvent.t) (g : t) : t * list Output :=
  (g,
   broadcast (subscriptions g) (SwapEvent.poolAddress swapEvent) "swap" (of_swap swapEvent)
   ++ broadcast (subscriptions g) "all" "swap" (of_swap swapEvent)
   ++ [Logged DEBUG ("Swap event broadcast: " +:+ SwapEvent.transactionHash swapEvent)]).

(** [@OnEvent('candle.finalized')], for the candle [finalizeRecords] emits. *)
Definition handleCandleFinalized (interval : TimeInterval) (candle : Candle.t) (g : t)
    : t * list Output :=
  let tokenAddress := Candle.tokenAddress candle in
  let subscriptionKey := subscriptionKey tokenAddress (TimeInterval_value interval) in
  let allKey := "all:" +:+ TimeInterval_value interval in
  (g,
   match candleSubscriptions g !! subscriptionKey with
   | Some clients =>
       broadcast (candleSubscriptions g) subscriptionKey "candle" (of_candle interval candle)
       ++ [Logged DEBUG ("Candle finalized broadcast: " +:+ tokenAddress +:+ " ("
                         +:+ TimeInterval_value interval +:+ ") - "
                         +:+ show_Z (Z.of_nat (length clients)) +:+ " clients")]
   | None => []
   end
   ++ broadcast (candleSubscriptions g) allKey "candle" (of_candle interval candle)).

(** What the gateway is asked to do: a message of a client, or an event of
    the services. *)
Inductive Request :=
  | Connect (clientId : string)
  | Disconnect (clientId : string)
  | Subscribe (clientId : string) (poolAddress : option string)
  | Unsubscribe (clientId : string) (poolAddress : option string)
  | SubscribeCandle (clientId tokenAddress interval : string)
  | UnsubscribeCandle (clientId tokenAddress interval : string)
  | Event (e : Emitted).

Definition handle (request : Request) (g : t) : t * list Output :=
  match request with
  | Connect clientId => handleConnection clientId g
  | Disconnect clientId => handleDisconnect clientId g
  | Subscribe clientId poolAddress => handleSubscribe clientId poolAddress g
  | Unsubscribe clientId poolAddress => handleUnsubscribe clientId poolAddress g
  | SubscribeCandle clientId tokenAddress interval =>
      handleCandleSubscribe clientId tokenAddress interval g
  | UnsubscribeCandle clientId tokenAddress interval =>
      handleCandleUnsubscribe clientId tokenAddress interval g
  | Event (swap_created swapEvent) => handleSwapCreated swapEvent g
  | Event (candle_finalized interval candle) => handleCandleFinalized interval candle g
  end.

(** The gateway after a sequence of requests, and everything it has put
    out. *)
Fixpoint serve (requests : list Request) (g : t) : t * list Output :=
  match requests with
  | [] => (g, [])
  | request :: rest =>
      let '(g1, out1) := handle request g in
      let '(g2, out2) := serve rest g1 in
      (g2, out1 ++ out2)
  end.

End Gateway.

(** * The gateway *)

Module GatewayFacts.
Import Gateway.

Lemma Set_has_In (x : string) (xs : list string) : Set_has x xs = true <-> In x xs.
Proof.
  unfold Set_has. rewrite existsb_exists. split.
  - intros (y & Hy & Heq). apply String.eqb_eq in Heq. subst. exact Hy.
  - intros H. exists x. split; [exact H | apply String.eqb_refl].
Qed.

Lemma Set_add_In (x y : string) (xs : list string) :
  In y (Set_add x xs) <-> In y xs \/ y = x.
Proof.
  unfold Set_add. destruct (Set_has x xs) eqn:Hh.
  - apply Set_has_In in Hh. split; [auto|]. intros [H| ->]; assumption.
  - rewrite in_app_iff. cbn [In]. split.
    + intros [H|[H|[]]]; auto.
    + intros [H|H]; auto.
Qed.

Lemma Set_delete_In (x y : string) (xs : list string) :
  In y (Set_delete x xs) <-> In y xs /\ y <> x.
Proof.
  unfold Set_delete. rewrite filter_In. split.
  - intros [H Hn]. split; [exact H|]. apply negb_true_iff, String.eqb_neq in Hn. exact Hn.
  - intros [H Hn]. split; [exact H|]. apply negb_true_iff, String.eqb_neq. exact Hn.
Qed.

Lemma Set_add_NoDup (x : string) (xs : list string) :
  List.NoDup xs -> List.NoDup (Set_add x xs).
Proof.
  intros Hnd. unfold Set_add. destruct (Set_has x xs) eqn:Hh; [exact Hnd|].
  assert (Hn : ~ In x xs).
  { intros H. apply Set_has_In in H. congruence. }
  clear Hh. induction Hnd as [|y ys Hy Hnd IH]; cbn [app].
  - constructor; [intros [] | constructor].
  - constructor.
    + rewrite in_app_iff. cbn [In]. intros [H|[H|[]]]; [contradiction|].
      subst. apply Hn. left. reflexivity.
    + apply IH. intros H. apply Hn. right. exact H.
Qed.

Lemma Set_delete_NoDup (x : string) (xs : list string) :
  List.NoDup xs -> List.NoDup (Set_delete x xs).
Proof. apply List.NoDup_filter. Qed.

(** [clientId] is in the set registered under [key]. *)
Definition member (m : gmap string (list string)) (key clientId : string) : Prop :=
  exists clients, m !! key = Some clients /\ In clientId clients.

Lemma member_subscribe m key c k x :
  member (subscribe key c m) k x <-> member m k x \/ (k = key /\ x = c).
Proof.
  unfold member, subscribe. destruct (decide (k = key)) as [->|Hne].
  - rewrite lookup_alter_eq. destruct (m !! key) as [l|] eqn:Hl.
    + rewrite Hl. cbn [fmap option_fmap option_map]. split.
      * intros (l' & [= <-] & Hin). apply Set_add_In in Hin as [H| ->].
        -- left. exists l. split; [reflexivity | exact H].
        -- right. split; reflexivity.
      * intros [(l' & [= <-] & Hin)|[_ ->]]; eexists; (split; [reflexivity|]);
          apply Set_add_In; auto.
    + rewrite lookup_insert_eq. cbn [fmap option_fmap option_map]. split.
      * intros (l' & [= <-] & Hin). apply Set_add_In in Hin as [[]| ->].
        right. split; reflexivity.
      * intros [(l' & Hl' & _)|[_ ->]]; [discriminate|].
        eexists. split; [reflexivity|]. apply Set_add_In. right. reflexivity.
  - rewrite lookup_alter_ne by congruence.
    assert (Hsame : match m !! key with Some _ => m | None => <[key := []]> m end !! k
                    = m !! k).
    { destruct (m !! key); [reflexivity|]. apply lookup_insert_ne. congruence. }
    rewrite Hsame. split; [auto|]. intros [H|[H _]]; [exact H | contradiction].
Qed.

Lemma member_unsubscribe m key c k x :
  member (alter (Set_delete c) key m) k x <-> member m k x /\ ~ (k = key /\ x = c).
Proof.
  unfold member. destruct (decide (k = key)) as [->|Hne].
  - rewrite lookup_alter_eq. destruct (m !! key) as [l|];
      cbn [fmap option_fmap option_map]; split.
    + intros (l' & [= <-] & Hin). apply Set_delete_In in Hin as [H Hn].
      split; [exists l; split; [reflexivity | exact H]|]. intros [_ ->]. contradiction.
    + intros [(l' & [= <-] & Hin) Hn]. eexists. split; [reflexivity|].
      apply Set_delete_In. split; [exact Hin|]. intros ->. apply Hn. split; reflexivity.
    + intros (l' & Hl' & _). discriminate.
    + intros [(l' & Hl' & _) _]. discriminate.
  - rewrite lookup_alter_ne by congruence. split.
    + intros H. split; [exact H|]. intros [H1 _]. contradiction.
    + intros [H _]. exact H.
Qed.

Lemma member_disconnect m c k x :
  member (Set_delete c <$> m) k x <-> member m k x /\ x <> c.
Proof.
  unfold member. rewrite lookup_fmap. destruct (m !! k) as [l|];
    cbn [fmap option_fmap option_map]; split.
  - intros (l' & [= <-] & Hin). apply Set_delete_In in Hin as [H Hn].
    split; [exists l; split; [reflexivity | exact H] | exact Hn].
  - intros [(l' & [= <-] & Hin) Hn]. eexists. split; [reflexivity|].
    apply Set_delete_In. split; assumption.
  - intros (l' & Hl' & _). discriminate.
  - intros [(l' & Hl' & _) _]. discriminate.
Qed.

End GatewayFacts.

(** X21. The two registries of the gateway, read as relations between keys
    and client ids: a subscription adds the pair of its key and its client
    (under ["all"] when no pool address is given) and nothing else, so that
    subscribing twice is subscribing once; an unsubscription removes that one
    pair, so that it undoes the subscription; a disconnection removes every
    pair of the client from both registries; and connections and the events of
    the services change neither. *)
Theorem gateway_registries (request : Gateway.Request) (g : Gateway.t)
    (key clientId : string) :
  let g' := fst (Gateway.handle request g) in
  (GatewayFacts.member (Gateway.subscriptions g') key clientId
   <-> match request with
       | Gateway.Subscribe c p =>
           GatewayFacts.member (Gateway.subscriptions g) key clientId
           \/ (key = Gateway.poolAddress_or_all p /\ clientId = c)
       | Gateway.Unsubscribe c p =>
           GatewayFacts.member (Gateway.subscriptions g) key clientId
           /\ ~ (key = Gateway.poolAddress_or_all p /\ clientId = c)
       | Gateway.Disconnect c =>
           GatewayFacts.member (Gateway.subscriptions g) key clientId /\ clientId <> c
       | _ => GatewayFacts.member (Gateway.subscriptions g) key clientId
       end)
  /\ (GatewayFacts.member (Gateway.candleSubscriptions g') key clientId
      <-> match request with
          | Gateway.SubscribeCandle c tokenAddress interval =>
              GatewayFacts.member (Gateway.candleSubscriptions g) key clientId
              \/ (key = Gateway.subscriptionKey tokenAddress interval /\ clientId = c)
          | Gateway.UnsubscribeCandle c tokenAddress interval =>
              GatewayFacts.member (Gateway.candleSubscriptions g) key clientId
              /\ ~ (key = Gateway.subscriptionKey tokenAddress interval /\ clientId = c)
          | Gateway.Disconnect c =>
              GatewayFacts.member (Gateway.candleSubscriptions g) key clientId
              /\ clientId <> c
          | _ => GatewayFacts.member (Gateway.candleSubscriptions g) key clientId
          end).
Proof.
  cbv zeta. destruct request as [c|c|c p|c p|c t i|c t i|[e|i cd]];
    cbn [Gateway.handle Gateway.handleConnection Gateway.handleDisconnect
         Gateway.handleSubscribe Gateway.handleCandleSubscribe
         Gateway.handleSwapCreated Gateway.handleCandleFinalized fst
         Gateway.subscriptions Gateway.candleSubscriptions];
    try (split; reflexivity).
  - split; apply GatewayFacts.member_disconnect.
  - split; [apply GatewayFacts.member_subscribe | reflexivity].
  - unfold Gateway.handleUnsubscribe.
    destruct (Gateway.subscriptions g !! Gateway.poolAddress_or_all p) as [l|] eqn:Hl;
      cbn [fst Gateway.subscriptions Gateway.candleSubscriptions];
      (split; [|reflexivity]).
    + apply GatewayFacts.member_unsubscribe.
    + split; [|intros [H _]; exact H]. intros H. split; [exact H|].
      intros [-> _]. destruct H as (l & Hl' & _). congruence.
  - split; [reflexivity | apply GatewayFacts.member_subscribe].
  - unfold Gateway.handleCandleUnsubscribe.
    destruct (Gateway.candleSubscriptions g !! Gateway.subscriptionKey t i) as [l|] eqn:Hl;
      cbn [fst Gateway.subscriptions Gateway.candleSubscriptions];
      (split; [reflexivity|]).
    + apply GatewayFacts.member_unsubscribe.
    + split; [|intros [H _]; exact H]. intros H. split; [exact H|].
      intros [-> _]. destruct H as (l & Hl' & _). congruence.
Qed.

Module GatewayBroadcast.
Import Gateway GatewayFacts.

(** How many messages [event] the outputs hold for [clientId]. *)
Definition sent (clientId event : string) (outs : list Output) : nat :=
  length (List.filter (fun o => match o with
                                | ToClient c e _ => (c =? clientId)%string && (e =? event)%string
                                | Logged _ _ => false
                                end) outs).

Definition subscribed (m : gmap string (list string)) (key clientId : string) : bool :=
  match m !! key with
  | Some clients => Set_has clientId clients
  | None => false
  end.

(** No client is twice in a set. *)
Definition sets (g : t) : Prop :=
  (forall key clients, subscriptions g !! key = Some clients -> List.NoDup clients)
  /\ (forall key clients, candleSubscriptions g !! key = Some clients -> List.NoDup clients).

Lemma sent_app c ev o1 o2 : sent c ev (o1 ++ o2) = (sent c ev o1 + sent c ev o2)%nat.
Proof. unfold sent. rewrite List.filter_app, length_app. reflexivity. Qed.

Lemma sent_clients c ev payload clients :
  List.NoDup clients ->
  sent c ev (map (fun clientId => ToClient clientId ev payload) clients)
  = if Set_has c clients then 1%nat else 0%nat.
Proof.
  intros Hnd. unfold sent. induction Hnd as [|x xs Hx Hnd IH]; [reflexivity|].
  cbn [map List.filter]. rewrite String.eqb_refl, andb_true_r.
  unfold Set_has in *. cbn [existsb]. rewrite (String.eqb_sym c x).
  destruct (x =? c)%string eqn:Hxc.
  - apply String.eqb_eq in Hxc. subst x. cbn [length orb]. rewrite IH.
    replace (existsb (String.eqb c) xs) with false; [reflexivity|].
    symmetry. destruct (existsb (String.eqb c) xs) eqn:He; [|reflexivity].
    exfalso. apply Hx. apply Set_has_In. exact He.
  - cbn [orb]. exact IH.
Qed.

Lemma sent_broadcast c ev payload m key :
  (forall clients, m !! key = Some clients -> List.NoDup clients) ->
  sent c ev (broadcast m key ev payload) = if subscribed m key c then 1%nat else 0%nat.
Proof.
  intros Hnd. unfold broadcast, subscribed. destruct (m !! key) as [clients|].
  - apply sent_clients. apply Hnd. reflexivity.
  - reflexivity.
Qed.

Lemma sets_subscribe (key c : string) (m : gmap string (list string)) :
  (forall k l, m !! k = Some l -> List.NoDup l) ->
  forall k l, subscribe key c m !! k = Some l -> List.NoDup l.
Proof.
  intros Hm k l. unfold subscribe. destruct (decide (k = key)) as [->|Hne].
  - rewrite lookup_alter_eq. destruct (m !! key) as [l0|] eqn:Hl0.
    + rewrite Hl0. intros [= <-]. apply Set_add_NoDup. apply (Hm key). exact Hl0.
    + rewrite lookup_insert_eq. intros [= <-]. apply Set_add_NoDup. constructor.
  - rewrite lookup_alter_ne by congruence.
    destruct (m !! key); [apply Hm|]. rewrite lookup_insert_ne by congruence. apply Hm.
Qed.

Lemma sets_unsubscribe (key c : string) (m : gmap string (list string)) :
  (forall k l, m !! k = Some l -> List.NoDup l) ->
  forall k l, alter (Set_delete c) key m !! k = Some l -> List.NoDup l.
Proof.
  intros Hm k l. destruct (decide (k = key)) as [->|Hne].
  - rewrite lookup_alter_eq. destruct (m !! key) as [l0|] eqn:Hl0; [|discriminate].
    intros [= <-]. apply Set_delete_NoDup. apply (Hm key). exact Hl0.
  - rewrite lookup_alter_ne by congruence. apply Hm.
Qed.

Lemma sets_disconnect (c : string) (m : gmap string (list string)) :
  (forall k l, m !! k = Some l -> List.NoDup l) ->
  forall k l, (Set_delete c <$> m) !! k = Some l -> List.NoDup l.
Proof.
  intros Hm k l. rewrite lookup_fmap. destruct (m !! k) as [l0|] eqn:Hl0; [|discriminate].
  intros [= <-]. apply Set_delete_NoDup. apply (Hm k). exact Hl0.
Qed.

Lemma sets_handle request g : sets g -> sets (fst (handle request g)).
Proof.
  intros [Hs Hc]. destruct request as [c|c|c p|c p|c t i|c t i|[e|i cd]];
    cbn [handle handleConnection handleDisconnect handleSubscribe handleCandleSubscribe
         handleSwapCreated handleCandleFinalized fst]; try (split; assumption).
  - split; cbn [subscriptions candleSubscriptions]; apply sets_disconnect; assumption.
  - split; cbn [subscriptions candleSubscriptions]; [apply sets_subscribe|]; assumption.
  - unfold handleUnsubscribe. destruct (subscriptions g !! poolAddress_or_all p);
      cbn [fst]; [|split; assumption].
    split; cbn [subscriptions candleSubscriptions]; [apply sets_unsubscribe|]; assumption.
  - split; cbn [subscriptions candleSubscriptions]; [|apply sets_subscribe]; assumption.
  - unfold handleCandleUnsubscribe.
    destruct (candleSubscriptions g !! subscriptionKey t i); cbn [fst]; [|split; assumption].
    split; cbn [subscriptions candleSubscriptions]; [|apply sets_unsubscribe]; assumption.
Qed.

Lemma serve_cons request rest g :
  serve (request :: rest) g
  = (fst (serve rest (fst (handle request g))),
     snd (handle request g) ++ snd (serve rest (fst (handle request g)))).
Proof.
  cbn [serve]. destruct (handle request g) as [g1 o1]. cbn [fst snd].
  destruct (serve rest g1) as [g2 o2]. reflexivity.
Qed.

Lemma sets_serve requests g : sets g -> sets (fst (serve requests g)).
Proof.
  revert g. induction requests as [|r rest IH]; intros g H; [exact H|].
  rewrite serve_cons. cbn [fst]. apply IH, sets_handle, H.
Qed.

Lemma sets_empty : sets empty.
Proof.
  split; intros k l H; cbn [empty subscriptions candleSubscriptions] in H;
    rewrite lookup_empty in H; discriminate.
Qed.

End GatewayBroadcast.

(** X22. Who receives a broadcast, and how often. In a gateway that has
    served any requests since it started, a stored swap is sent once to each
    client subscribed to its pool and once to each client subscribed to
    ["all"], so twice to a client subscribed to both and not at all to the
    others; a finalized candle is sent once to each client subscribed to its
    token and interval and once to each client subscribed to ["all"] and that
    interval. Neither event changes the registries. *)
Theorem gateway_broadcasts (requests : list Gateway.Request) (clientId : string)
    (swapEvent : SwapEvent.t) (interval : TimeInterval) (candle : Candle.t) :
  let g := fst (Gateway.serve requests Gateway.empty) in
  let once (b : bool) := if b then 1%nat else 0%nat in
  GatewayBroadcast.sent clientId "swap" (snd (Gateway.handleSwapCreated swapEvent g))
  = (once (GatewayBroadcast.subscribed (Gateway.subscriptions g)
             (SwapEvent.poolAddress swapEvent) clientId)
     + once (GatewayBroadcast.subscribed (Gateway.subscriptions g) "all" clientId))%nat
  /\ GatewayBroadcast.sent clientId "candle"
       (snd (Gateway.handleCandleFinalized interval candle g))
     = (once (GatewayBroadcast.subscribed (Gateway.candleSubscriptions g)
                (Gateway.subscriptionKey (Candle.tokenAddress candle)
                   (TimeInterval_value interval)) clientId)
        + once (GatewayBroadcast.subscribed (Gateway.candleSubscriptions g)
                  ("all:" +:+ TimeInterval_value interval) clientId))%nat
  /\ fst (Gateway.handleSwapCreated swapEvent g) = g
  /\ fst (Gateway.handleCandleFinalized interval candle g) = g.
Proof.
  cbv zeta.
  destruct (GatewayBroadcast.sets_serve requests Gateway.empty GatewayBroadcast.sets_empty)
    as [Hs Hc].
  set (g := fst (Gateway.serve requests Gateway.empty)) in *.
  split; [|split; [|split; reflexivity]].
  - unfold Gateway.handleSwapCreated. cbn [snd].
    rewrite !GatewayBroadcast.sent_app, !GatewayBroadcast.sent_broadcast
      by (intros l; apply Hs).
    cbn. lia.
  - unfold Gateway.handleCandleFinalized. cbn [snd].
    rewrite GatewayBroadcast.sent_app.
    rewrite (GatewayBroadcast.sent_broadcast clientId "candle" _
               (Gateway.candleSubscriptions g) ("all:" +:+ TimeInterval_value interval))
      by (intros l; apply Hc).
    f_equal.
    unfold GatewayBroadcast.subscribed at 1.
    destruct (Gateway.candleSubscriptions g
                !! Gateway.subscriptionKey (Candle.tokenAddress candle)
                     (TimeInterval_value interval)) as [clients|] eqn:Hk; [|reflexivity].
    rewrite GatewayBroadcast.sent_app.
    unfold Gateway.broadcast. rewrite Hk.
    rewrite GatewayBroadcast.sent_clients by (apply (Hc _ _ Hk)).
    cbn. lia.
Qed.

Module GatewaySilence.
Import Gateway GatewayFacts.

(** The client a request comes from. *)
Definition from (clientId : string) (request : Request) : bool :=
  match request with
  | Connect c | Disconnect c | Subscribe c _ | Unsubscribe c _
  | SubscribeCandle c _ _ | UnsubscribeCandle c _ _ => (c =? clientId)%string
  | Event _ => false
  end.

Definition absent (clientId : string) (g : t) : Prop :=
  forall key, ~ member (subscriptions g) key clientId
              /\ ~ member (candleSubscriptions g) key clientId.

Lemma broadcast_member m key ev payload c ev' payload' :
  In (ToClient c ev' payload') (broadcast m key ev payload) -> member m key c.
Proof.
  unfold broadcast, member. destruct (m !! key) as [clients|]; [|intros []].
  intros H. apply in_map_iff in H as (x & [= -> _ _] & Hin).
  exists clients. split; [reflexivity | exact Hin].
Qed.

Lemma absent_disconnect c g : absent c (fst (handleDisconnect c g)).
Proof.
  intros key. cbn [handleDisconnect fst subscriptions candleSubscriptions].
  split; intros H; apply member_disconnect in H as [_ H]; apply H; reflexivity.
Qed.

Lemma absent_handle c request g :
  absent c g -> from c request = false ->
  absent c (fst (handle request g))
  /\ forall event payload, ~ In (ToClient c event payload) (snd (handle request g)).
Proof.
  intros Habs Hfrom.
  assert (Hs : forall key, ~ member (subscriptions g) key c) by (intros k; apply Habs).
  assert (Hc : forall key, ~ member (candleSubscriptions g) key c) by (intros k; apply Habs).
  destruct request as [x|x|x p|x p|x t i|x t i|[e|i cd]]; cbn [from] in Hfrom;
    try (apply String.eqb_neq in Hfrom);
    cbn [handle handleConnection handleDisconnect handleSubscribe handleCandleSubscribe
         handleSwapCreated handleCandleFinalized fst snd].
  - split; [exact Habs|]. intros ev pl [H|[]]. discriminate.
  - split.
    + intros key. cbn [subscriptions candleSubscriptions].
      split; intros H; apply member_disconnect in H as [H _];
        [exact (Hs key H) | exact (Hc key H)].
    + intros ev pl [H|[]]. discriminate.
  - split.
    + intros key. cbn [subscriptions candleSubscriptions]. split; [|apply Hc].
      intros H. apply member_subscribe in H as [H|[_ H]];
        [exact (Hs key H) | congruence].
    + intros ev pl [H|[H|[]]]; [discriminate | congruence].
  - unfold handleUnsubscribe. destruct (subscriptions g !! poolAddress_or_all p);
      cbn [fst snd].
    + split.
      * intros key. cbn [subscriptions candleSubscriptions]. split; [|apply Hc].
        intros H. apply member_unsubscribe in H as [H _]. exact (Hs key H).
      * intros ev pl [H|[H|[]]]; [discriminate | congruence].
    + split; [exact Habs|]. intros ev pl [H|[]]. congruence.
  - split.
    + intros key. cbn [subscriptions candleSubscriptions]. split; [apply Hs|].
      intros H. apply member_subscribe in H as [H|[_ H]];
        [exact (Hc key H) | congruence].
    + intros ev pl [H|[H|[]]]; [discriminate | congruence].
  - unfold handleCandleUnsubscribe.
    destruct (candleSubscriptions g !! subscriptionKey t i); cbn [fst snd].
    + split.
      * intros key. cbn [subscriptions candleSubscriptions]. split; [apply Hs|].
        intros H. apply member_unsubscribe in H as [H _]. exact (Hc key H).
      * intros ev pl [H|[H|[]]]; [discriminate | congruence].
    + split; [exact Habs|]. intros ev pl [H|[]]. congruence.
  - split; [exact Habs|]. intros ev pl H.
    apply in_app_iff in H as [H|H]; [|apply in_app_iff in H as [H|[H|[]]]].
    + exact (Hs _ (broadcast_member _ _ _ _ _ _ _ H)).
    + exact (Hs _ (broadcast_member _ _ _ _ _ _ _ H)).
    + discriminate.
  - split; [exact Habs|]. intros ev pl H.
    apply in_app_iff in H as [H|H].
    + destruct (candleSubscriptions g
                  !! subscriptionKey (Candle.tokenAddress cd) (TimeInterval_value i))
        as [clients|] eqn:Hk; [|destruct H].
      apply in_app_iff in H as [H|[H|[]]]; [|discriminate].
      exact (Hc _ (broadcast_member _ _ _ _ _ _ _ H)).
    + exact (Hc _ (broadcast_member _ _ _ _ _ _ _ H)).
Qed.

End GatewaySilence.

(** X23. After its disconnection a client is sent nothing: whatever the
    other clients ask for and whatever events the services emit afterwards,
    no output of the gateway is addressed to it, until a request of its own
    arrives. *)
Theorem gateway_silent_after_disconnect (g : Gateway.t) (clientId : string)
    (requests : list Gateway.Request) :
  forallb (fun request => negb (GatewaySilence.from clientId request)) requests = true ->
  forall event payload,
    ~ In (Gateway.ToClient clientId event payload)
         (snd (Gateway.serve requests (fst (Gateway.handleDisconnect clientId g)))).
Proof.
  intros Hothers.
  pose proof (GatewaySilence.absent_disconnect clientId g) as Habs.
  revert Habs. generalize (fst (Gateway.handleDisconnect clientId g)). clear g.
  induction requests as [|r rest IH]; intros g Habs event payload; [intros []|].
  cbn [forallb] in Hothers. apply andb_true_iff in Hothers as [Hr Hrest].
  apply negb_true_iff in Hr.
  destruct (GatewaySilence.absent_handle clientId r g Habs Hr) as [Habs' Hout].
  rewrite GatewayBroadcast.serve_cons. cbn [snd]. rewrite in_app_iff.
  intros [H|H]; [exact (Hout _ _ H) | exact (IH Hrest _ Habs' _ _ H)].
Qed.

Definition a_swap : SwapEvent.t :=
  SwapEvent.mk "0xaa" "0xc0we" "0xdai" "0xtx2" 101 1700001212000 "0xsender" "0xsender"
               1 (-2) 79228162514264337593543950336 5 100 1 3000 "0".

Lemma gateway_silent_after_disconnect_witness :
  ~ In (Gateway.ToClient "alice" "swap" (Gateway.of_swap a_swap))
       (snd (Gateway.serve
               [Gateway.Subscribe "bob" None; Gateway.Event (swap_created a_swap)]
               (fst (Gateway.handleDisconnect "alice"
                       (fst (Gateway.serve [Gateway.Subscribe "alice" None]
                               Gateway.empty)))))).
Proof.
  apply gateway_silent_after_disconnect. reflexivity.
Defined.

Module GatewayKeys.
Import Gateway GatewayFacts GatewayBroadcast.

(** No [":"] in the string. *)
Fixpoint colon_free (s : string) : bool :=
  match s with
  | EmptyString => true
  | String c rest => negb (Ascii.eqb c ":") && colon_free rest
  end.

Lemma subscriptionKey_injective (t t' i i' : string) :
  colon_free t = true -> colon_free t' = true ->
  subscriptionKey t i = subscriptionKey t' i' -> t = t' /\ i = i'.
Proof.
  unfold subscriptionKey. revert t'.
  induction t as [|c t IH]; intros [|c' t'] Ht Ht' H; simpl in *.
  - injection H as H. split; [reflexivity | exact H].
  - injection H as H _. subst c'. discriminate.
  - injection H as H _. subst c. discriminate.
  - injection H as -> H. apply andb_true_iff in Ht as [_ Ht].
    apply andb_true_iff in Ht' as [_ Ht'].
    destruct (IH t' Ht Ht' H) as [-> ->]. split; reflexivity.
Qed.

Lemma subscribed_member m key c : subscribed m key c = true <-> member m key c.
Proof.
  unfold subscribed, member. destruct (m !! key) as [l|]; split.
  - intros H. exists l. split; [reflexivity | apply Set_has_In; exact H].
  - intros (l' & [= <-] & H). apply Set_has_In. exact H.
  - discriminate.
  - intros (l' & H & _). discriminate.
Qed.

Lemma sent_candle (g : t) (c : string) (interval : TimeInterval) (candle : Candle.t) :
  sets g ->
  sent c "candle" (snd (handleCandleFinalized interval candle g))
  = ((if subscribed (candleSubscriptions g)
            (subscriptionKey (Candle.tokenAddress candle) (TimeInterval_value interval)) c
      then 1 else 0)
     + (if subscribed (candleSubscriptions g) ("all:" +:+ TimeInterval_value interval) c
        then 1 else 0))%nat.
Proof.
  intros [_ Hc]. unfold handleCandleFinalized. cbn [snd]. rewrite sent_app.
  rewrite (sent_broadcast c "candle" _ (candleSubscriptions g)
             ("all:" +:+ TimeInterval_value interval)) by (intros l; apply Hc).
  f_equal. unfold subscribed at 1.
  destruct (candleSubscriptions g
              !! subscriptionKey (Candle.tokenAddress candle) (TimeInterval_value interval))
    as [clients|] eqn:Hk; [|reflexivity].
  rewrite sent_app. unfold broadcast. rewrite Hk.
  rewrite sent_clients by (apply (Hc _ _ Hk)). cbn. lia.
Qed.

End GatewayKeys.

(** X24. Candles reach the clients that asked for them. A client that
    holds no candle subscription and subscribes to the candles of
    [tokenAddress] and [interval] is then sent a finalized candle once when
    the candle is of that interval and of that token, or of that interval and
    the client asked for ["all"], and otherwise not at all; token addresses
    are taken without a [":"] and no token is called ["all"]. *)
Theorem gateway_candle_routing (requests : list Gateway.Request)
    (clientId tokenAddress interval : string) (finalized : TimeInterval)
    (candle : Candle.t) :
  forallb (fun request => negb (GatewaySilence.from clientId request)) requests = true ->
  GatewayKeys.colon_free tokenAddress = true ->
  GatewayKeys.colon_free (Candle.tokenAddress candle) = true ->
  Candle.tokenAddress candle <> "all" ->
  let g := fst (Gateway.serve requests Gateway.empty) in
  let g' := fst (Gateway.handleCandleSubscribe clientId tokenAddress interval g) in
  GatewayBroadcast.sent clientId "candle"
    (snd (Gateway.handleCandleFinalized finalized candle g'))
  = if ((tokenAddress =? Candle.tokenAddress candle)%string
        || (tokenAddress =? "all")%string)
       && (interval =? TimeInterval_value finalized)%string
    then 1%nat else 0%nat.
Proof.
  intros Hothers Ht Hc Hall g g'.
  assert (Hsets : GatewayBroadcast.sets g')
    by (apply (GatewayBroadcast.sets_handle
                 (Gateway.SubscribeCandle clientId tokenAddress interval)),
          GatewayBroadcast.sets_serve, GatewayBroadcast.sets_empty).
  assert (Habs : GatewaySilence.absent clientId g).
  { subst g. clear g' Hsets.
    assert (H0 : GatewaySilence.absent clientId Gateway.empty).
    { intros key. split; intros (l & H & _);
        cbn [Gateway.empty Gateway.subscriptions Gateway.candleSubscriptions] in H;
        rewrite lookup_empty in H; discriminate. }
    revert H0. generalize Gateway.empty.
    induction requests as [|r rest IH]; intros g0 H0; [exact H0|].
    cbn [forallb] in Hothers. apply andb_true_iff in Hothers as [Hr Hrest].
    apply negb_true_iff in Hr. rewrite GatewayBroadcast.serve_cons. cbn [fst].
    apply (IH Hrest). apply GatewaySilence.absent_handle; assumption. }
  rewrite (GatewayKeys.sent_candle g' clientId finalized candle Hsets).
  assert (Hsub : forall key,
             GatewayBroadcast.subscribed (Gateway.candleSubscriptions g') key clientId
             = true <-> key = Gateway.subscriptionKey tokenAddress interval).
  { intros key. rewrite GatewayKeys.subscribed_member. subst g'.
    cbn [Gateway.handleCandleSubscribe fst Gateway.candleSubscriptions].
    rewrite GatewayFacts.member_subscribe. split.
    - intros [H|[H _]]; [destruct (proj2 (Habs key) H) | exact H].
    - intros ->. right. split; reflexivity. }
  assert (Hown : GatewayBroadcast.subscribed (Gateway.candleSubscriptions g')
                   (Gateway.subscriptionKey (Candle.tokenAddress candle)
                      (TimeInterval_value finalized)) clientId
                 = (tokenAddress =? Candle.tokenAddress candle)%string
                   && (interval =? TimeInterval_value finalized)%string).
  { apply eq_true_iff_eq. rewrite Hsub, andb_true_iff, !String.eqb_eq. split.
    - intros H. apply GatewayKeys.subscriptionKey_injective in H as [-> ->];
        [split; reflexivity | assumption | assumption].
    - intros [-> ->]. reflexivity. }
  assert (Hany : GatewayBroadcast.subscribed (Gateway.candleSubscriptions g')
                   ("all:" +:+ TimeInterval_value finalized) clientId
                 = (tokenAddress =? "all")%string
                   && (interval =? TimeInterval_value finalized)%string).
  { apply eq_true_iff_eq. rewrite Hsub, andb_true_iff, !String.eqb_eq. split.
    - intros H. change ("all:" +:+ TimeInterval_value finalized)
        with (Gateway.subscriptionKey "all" (TimeInterval_value finalized)) in H.
      apply GatewayKeys.subscriptionKey_injective in H as [<- <-];
        [split; reflexivity | reflexivity | assumption].
    - intros [-> ->]. reflexivity. }
  rewrite Hown, Hany.
  destruct (tokenAddress =? Candle.tokenAddress candle)%string eqn:E1;
    destruct (tokenAddress =? "all")%string eqn:E2;
    destruct (interval =? TimeInterval_value finalized)%string; try reflexivity.
  apply String.eqb_eq in E1, E2. congruence.
Qed.

Lemma gateway_candle_routing_witness :
  GatewayBroadcast.sent "alice" "candle"
    (snd (Gateway.handleCandleFinalized MINUTE
            (Candle.mk "0xdai" 1700001180000 CURRENT 1 "0" "0" 0 "0" "1" "0"
                       "1" "1" "1" "1" 1)
            (fst (Gateway.handleCandleSubscribe "alice" "0xdai" "minute"
                    (fst (Gateway.serve [Gateway.SubscribeCandle "bob" "0xdai" "hour"]
                            Gateway.empty))))))
  = 1%nat.
Proof.
  apply (gateway_candle_routing [Gateway.SubscribeCandle "bob" "0xdai" "hour"]
           "alice" "0xdai" "minute" MINUTE
           (Candle.mk "0xdai" 1700001180000 CURRENT 1 "0" "0" 0 "0" "1" "0"
                      "1" "1" "1" "1" 1)).
  - reflexivity.
  - reflexivity.
  - reflexivity.
  - discriminate.
Defined.

(** ** [sqrtPriceMath.ts]: the amounts between two prices *)

Module SqrtPriceMath.

Definition ONE_BI : Z := 1.
Definition Q96 : Z := 2 ^ 96.

(** [RangeError: Division by zero], thrown by [/] on [bigint]. *)
Definition RangeError : Exn := OtherError "Division by zero".

(** [a / b] on [bigint]: truncated towards zero. *)
Definition BigInt_div (a b : Z) : Exn + Z :=
  if b =? 0 then inl RangeError else inr (Z.quot a b).

Section FullMath.

(** [FullMath.mulDivRoundingUp], of [fullMath.ts]. *)
Variable mulDivRoundingUp : Z -> Z -> Z -> Exn + Z.

Definition getAmount0Delta (sqrtRatioAX96 sqrtRatioBX96 liquidity : Z) (roundUp : bool)
    : Exn + Z :=
  let '(sqrtRatioAX96, sqrtRatioBX96) :=
    if sqrtRatioAX96 >? sqrtRatioBX96
    then (sqrtRatioBX96, sqrtRatioAX96)
    else (sqrtRatioAX96, sqrtRatioBX96) in
  let numerator1 := Z.shiftl liquidity 96 in
  let numerator2 := sqrtRatioBX96 - sqrtRatioAX96 in
  if roundUp
  then match mulDivRoundingUp numerator1 numerator2 sqrtRatioBX96 with
       | inl e => inl e
       | inr inner => mulDivRoundingUp inner ONE_BI sqrtRatioAX96
       end
  else match BigInt_div (numerator1 * numerator2) sqrtRatioBX96 with
       | inl e => inl e
       | inr inner => BigInt_div inner sqrtRatioAX96
       end.

Definition getAmount1Delta (sqrtRatioAX96 sqrtRatioBX96 liquidity : Z) (roundUp : bool)
    : Exn + Z :=
  let '(sqrtRatioAX96, sqrtRatioBX96) :=
    if sqrtRatioAX96 >? sqrtRatioBX96
    then (sqrtRatioBX96, sqrtRatioAX96)
    else (sqrtRatioAX96, sqrtRatioBX96) in
  let difference := sqrtRatioBX96 - sqrtRatioAX96 in
  if roundUp
  then mulDivRoundingUp liquidity difference Q96
  else BigInt_div (liquidity * difference) Q96.

End FullMath.

(** The result with its sign changed; an error stays. *)
Definition negated (r : Exn + Z) : Exn + Z :=
  match r with
  | inl e => inl e
  | inr x => inr (- x)
  end.

End SqrtPriceMath.

(** X25. The order of the two prices does not matter: both amounts are the
    same with [sqrtRatioAX96] and [sqrtRatioBX96] exchanged, rounding up or
    down, whatever [FullMath.mulDivRoundingUp] computes. *)
Theorem getAmountDelta_symmetric (mulDivRoundingUp : Z -> Z -> Z -> Exn + Z)
    (sqrtRatioAX96 sqrtRatioBX96 liquidity : Z) (roundUp : bool) :
  SqrtPriceMath.getAmount0Delta mulDivRoundingUp sqrtRatioAX96 sqrtRatioBX96
    liquidity roundUp
  = SqrtPriceMath.getAmount0Delta mulDivRoundingUp sqrtRatioBX96 sqrtRatioAX96
      liquidity roundUp
  /\ SqrtPriceMath.getAmount1Delta mulDivRoundingUp sqrtRatioAX96 sqrtRatioBX96
       liquidity roundUp
     = SqrtPriceMath.getAmount1Delta mulDivRoundingUp sqrtRatioBX96 sqrtRatioAX96
         liquidity roundUp.
Proof.
  unfold SqrtPriceMath.getAmount0Delta, SqrtPriceMath.getAmount1Delta.
  destruct (Z.gtb_spec sqrtRatioAX96 sqrtRatioBX96) as [H|H];
    destruct (Z.gtb_spec sqrtRatioBX96 sqrtRatioAX96) as [H'|H'];
    try lia; try (split; reflexivity).
  assert (sqrtRatioAX96 = sqrtRatioBX96) as -> by lia. split; reflexivity.
Qed.

(** X26. Rounding down, the amounts in closed form.  [getAmount0Delta]
    throws [RangeError] exactly when one of the two prices is [0], and is
    otherwise [liquidity * 2^96 * |B - A|] divided once by [A * B], towards
    zero: its two divisions lose no more than one would.  [getAmount1Delta]
    never throws; it is [liquidity * |B - A|] divided by [2^96]. *)
Theorem getAmountDelta_rounding_down (mulDivRoundingUp : Z -> Z -> Z -> Exn + Z)
    (sqrtRatioAX96 sqrtRatioBX96 liquidity : Z) :
  SqrtPriceMath.getAmount0Delta mulDivRoundingUp sqrtRatioAX96 sqrtRatioBX96
    liquidity false
  = (if (sqrtRatioAX96 =? 0) || (sqrtRatioBX96 =? 0)
     then inl SqrtPriceMath.RangeError
     else inr (Z.quot (liquidity * 2 ^ 96 * Z.abs (sqrtRatioBX96 - sqrtRatioAX96))
                      (sqrtRatioAX96 * sqrtRatioBX96)))
  /\ SqrtPriceMath.getAmount1Delta mulDivRoundingUp sqrtRatioAX96 sqrtRatioBX96
       liquidity false
     = inr (Z.quot (liquidity * Z.abs (sqrtRatioBX96 - sqrtRatioAX96)) (2 ^ 96)).
Proof.
  unfold SqrtPriceMath.getAmount0Delta, SqrtPriceMath.getAmount1Delta,
    SqrtPriceMath.BigInt_div, SqrtPriceMath.Q96.
  rewrite Z.shiftl_mul_pow2 by lia.
  change (2 ^ 96 =? 0) with false. cbv iota.
  destruct (Z.gtb_spec sqrtRatioAX96 sqrtRatioBX96) as [H|H];
    destruct (Z.eqb_spec sqrtRatioAX96 0) as [Ha|Ha];
    destruct (Z.eqb_spec sqrtRatioBX96 0) as [Hb|Hb];
    cbn [orb]; (split; [| do 2 f_equal; lia]); try reflexivity;
    rewrite Z.quot_quot by assumption; f_equal; f_equal; lia.
Qed.

(** X27. Rounding down, taking liquidity out gives what putting it in
    costs: with [- liquidity] both amounts change their sign and nothing
    else. *)
Theorem getAmountDelta_negated_liquidity (mulDivRoundingUp : Z -> Z -> Z -> Exn + Z)
    (sqrtRatioAX96 sqrtRatioBX96 liquidity : Z) :
  SqrtPriceMath.getAmount0Delta mulDivRoundingUp sqrtRatioAX96 sqrtRatioBX96
    (- liquidity) false
  = SqrtPriceMath.negated
      (SqrtPriceMath.getAmount0Delta mulDivRoundingUp sqrtRatioAX96 sqrtRatioBX96
         liquidity false)
  /\ SqrtPriceMath.getAmount1Delta mulDivRoundingUp sqrtRatioAX96 sqrtRatioBX96
       (- liquidity) false
     = SqrtPriceMath.negated
         (SqrtPriceMath.getAmount1Delta mulDivRoundingUp sqrtRatioAX96 sqrtRatioBX96
            liquidity false).
Proof.
  unfold SqrtPriceMath.getAmount0Delta, SqrtPriceMath.getAmount1Delta,
    SqrtPriceMath.BigInt_div, SqrtPriceMath.Q96, SqrtPriceMath.negated.
  rewrite !Z.shiftl_mul_pow2 by lia.
  change (2 ^ 96 =? 0) with false. cbv iota.
  assert (Hq : forall x y, y <> 0 -> Z.quot (- x) y = - Z.quot x y)
    by (intros x y Hy; apply Z.quot_opp_l; exact Hy).
  destruct (sqrtRatioAX96 >? sqrtRatioBX96); split.
  - destruct (Z.eqb_spec sqrtRatioAX96 0) as [Ha|Ha]; [reflexivity|].
    destruct (Z.eqb_spec sqrtRatioBX96 0) as [Hb|Hb]; [reflexivity|].
    rewrite <- !Hq by assumption. do 3 f_equal. lia.
  - rewrite <- Hq by lia. do 2 f_equal. lia.
  - destruct (Z.eqb_spec sqrtRatioBX96 0) as [Hb|Hb]; [reflexivity|].
    destruct (Z.eqb_spec sqrtRatioAX96 0) as [Ha|Ha]; [reflexivity|].
    rewrite <- !Hq by assumption. do 3 f_equal. lia.
  - rewrite <- Hq by lia. do 2 f_equal. lia.
Qed.

Module SqrtPriceFacts.

Lemma div_split (p q d : Z) :
  0 < d -> p / d + q / d <= (p + q) / d <= p / d + q / d + 1.
Proof.
  intros Hd.
  pose proof (Z.div_mod p d ltac:(lia)) as Hp.
  pose proof (Z.div_mod q d ltac:(lia)) as Hq.
  pose proof (Z.mod_pos_bound p d Hd) as Bp.
  pose proof (Z.mod_pos_bound q d Hd) as Bq.
  assert (E : p + q = (p / d + q / d) * d + (p mod d + q mod d)) by lia.
  rewrite E at 1 2. rewrite Z.div_add_l by lia.
  assert (0 <= (p mod d + q mod d) / d) by (apply Z.div_pos; lia).
  assert ((p mod d + q mod d) / d < 2) by (apply Z.div_lt_upper_bound; lia).
  lia.
Qed.

End SqrtPriceFacts.

(** X28. Rounding down, a range cut in two: for a liquidity that is not
    negative and prices [0 < A <= M <= B], the amounts over [A..M] and over
    [M..B] add up to the amount over [A..B] or to one unit less, for both
    tokens. *)
Theorem getAmountDelta_split (mulDivRoundingUp : Z -> Z -> Z -> Exn + Z)
    (A M B liquidity : Z) :
  0 <= liquidity -> 0 < A -> A <= M -> M <= B ->
  (exists lower upper whole,
      SqrtPriceMath.getAmount0Delta mulDivRoundingUp A M liquidity false = inr lower
      /\ SqrtPriceMath.getAmount0Delta mulDivRoundingUp M B liquidity false = inr upper
      /\ SqrtPriceMath.getAmount0Delta mulDivRoundingUp A B liquidity false = inr whole
      /\ 0 <= lower /\ 0 <= upper
      /\ lower + upper <= whole <= lower + upper + 1)
  /\ (exists lower upper whole,
         SqrtPriceMath.getAmount1Delta mulDivRoundingUp A M liquidity false = inr lower
         /\ SqrtPriceMath.getAmount1Delta mulDivRoundingUp M B liquidity false = inr upper
         /\ SqrtPriceMath.getAmount1Delta mulDivRoundingUp A B liquidity false = inr whole
         /\ 0 <= lower /\ 0 <= upper
         /\ lower + upper <= whole <= lower + upper + 1).
Proof.
  intros HL HA HAM HMB.
  assert (G : forall x y, 0 < x -> x <= y ->
            SqrtPriceMath.getAmount0Delta mulDivRoundingUp x y liquidity false
            = inr (liquidity * 2 ^ 96 * (y - x) / (x * y))
            /\ SqrtPriceMath.getAmount1Delta mulDivRoundingUp x y liquidity false
               = inr (liquidity * (y - x) / 2 ^ 96)).
  { intros x y Hx Hxy.
    unfold SqrtPriceMath.getAmount0Delta, SqrtPriceMath.getAmount1Delta,
      SqrtPriceMath.BigInt_div, SqrtPriceMath.Q96.
    rewrite Z.shiftl_mul_pow2 by lia.
    change (2 ^ 96 =? 0) with false. cbv iota.
    destruct (Z.gtb_spec x y) as [H|_]; [lia|].
    destruct (Z.eqb_spec y 0) as [H|_]; [lia|].
    destruct (Z.eqb_spec x 0) as [H|_]; [lia|].
    split; f_equal.
    - rewrite Z.quot_quot by lia. rewrite (Z.mul_comm y x).
      apply Z.quot_div_nonneg; [|nia].
      apply Z.mul_nonneg_nonneg; [|lia]. apply Z.mul_nonneg_nonneg; lia.
    - apply Z.quot_div_nonneg; [|lia]. apply Z.mul_nonneg_nonneg; lia. }
  destruct (G A M HA HAM) as [G0 G1].
  destruct (G M B ltac:(lia) HMB) as [G0' G1'].
  destruct (G A B HA ltac:(lia)) as [G0'' G1''].
  assert (HN : 0 <= liquidity * 2 ^ 96) by (apply Z.mul_nonneg_nonneg; lia).
  split; do 3 eexists; (split; [eassumption|]); (split; [eassumption|]);
    (split; [eassumption|]).
  - set (n := liquidity * 2 ^ 96) in *.
    assert (HM : 0 < M) by lia. assert (HB : 0 < B) by lia.
    assert (HAM' : 0 < A * M) by (apply Z.mul_pos_pos; lia).
    assert (HD : 0 < A * M * B) by (apply Z.mul_pos_pos; lia).
    assert (E1 : n * (M - A) / (A * M) = n * (M - A) * B / (A * M * B))
      by (symmetry; apply Z.div_mul_cancel_r; nia).
    assert (E2 : n * (B - M) / (M * B) = n * (B - M) * A / (A * M * B)).
    { replace (A * M * B) with (M * B * A) by lia.
      symmetry; apply Z.div_mul_cancel_r; lia. }
    assert (E3 : n * (B - A) / (A * B) = (n * (M - A) * B + n * (B - M) * A) / (A * M * B)).
    { replace (A * M * B) with (A * B * M) by lia.
      replace (n * (M - A) * B + n * (B - M) * A) with (n * (B - A) * M) by lia.
      symmetry; apply Z.div_mul_cancel_r; lia. }
    rewrite E3, E1, E2. split; [|split].
    + apply Z.div_pos; [|exact HD]. apply Z.mul_nonneg_nonneg; [|lia].
      apply Z.mul_nonneg_nonneg; lia.
    + apply Z.div_pos; [|exact HD]. apply Z.mul_nonneg_nonneg; [|lia].
      apply Z.mul_nonneg_nonneg; lia.
    + apply SqrtPriceFacts.div_split. exact HD.
  - replace (liquidity * (B - A)) with (liquidity * (M - A) + liquidity * (B - M)) by lia.
    split; [|split].
    + apply Z.div_pos; [|lia]. apply Z.mul_nonneg_nonneg; lia.
    + apply Z.div_pos; [|lia]. apply Z.mul_nonneg_nonneg; lia.
    + apply SqrtPriceFacts.div_split. lia.
Qed.

Lemma getAmountDelta_split_witness :
  (exists lower upper whole,
      SqrtPriceMath.getAmount0Delta (fun _ _ _ => inr 0) (2 ^ 96) (3 * 2 ^ 95)
        1000 false = inr lower
      /\ SqrtPriceMath.getAmount0Delta (fun _ _ _ => inr 0) (3 * 2 ^ 95) (2 ^ 97)
           1000 false = inr upper
      /\ SqrtPriceMath.getAmount0Delta (fun _ _ _ => inr 0) (2 ^ 96) (2 ^ 97)
           1000 false = inr whole
      /\ 0 <= lower /\ 0 <= upper
      /\ lower + upper <= whole <= lower + upper + 1)
  /\ (exists lower upper whole,
         SqrtPriceMath.getAmount1Delta (fun _ _ _ => inr 0) (2 ^ 96) (3 * 2 ^ 95)
           1000 false = inr lower
         /\ SqrtPriceMath.getAmount1Delta (fun _ _ _ => inr 0) (3 * 2 ^ 95) (2 ^ 97)
              1000 false = inr upper
         /\ SqrtPriceMath.getAmount1Delta (fun _ _ _ => inr 0) (2 ^ 96) (2 ^ 97)
              1000 false = inr whole
         /\ 0 <= lower /\ 0 <= upper
         /\ lower + upper <= whole <= lower + upper + 1).
Proof.
  apply (getAmountDelta_split (fun _ _ _ => inr 0) (2 ^ 96) (3 * 2 ^ 95) (2 ^ 97) 1000).
  - lia.
  - lia.
  - lia.
  - lia.
Defined.
